(** * School-Who: the imposter party game

    A shallow embedding of the Convex back end (the game mutations of
    [convex/games.ts], the schema and the roster mutations of
    [convex/schema.ts]) and of the client-side derivations of the game and
    results screens (the countdown, the vote tally and the outcome), together
    with the properties the specification states about them.

    Modelling conventions.
    - A Convex table is the list of its rows in creation order; the document
      id of a row is its position in that list (rows are never hard-deleted).
      The string form of an id, used as a key of the [votes] record, is
      [idKey].
    - JavaScript numbers that hold counters, indices, seconds and millisecond
      timestamps are [Z]; the results of [/] and of [Math.random()] are
      rationals [Q]. The handlers take the arithmetic as exact; where the
      value of a quotient itself is at stake (the displayed countdown and
      the clock) the operations are those of IEEE 754 binary64, in [IEEE],
      [Timer] and [formatTime].
    - [Date.now()] and [Math.random()] are inputs of a handler: a timestamp
      [now] and a tape of draws, each in the interval [0, 1).
    - A mutation is a state transformer over the database that returns, throws
      or is still looping when its tape of draws is used up. *)

From Stdlib Require Import Ascii ZArith QArith Qround Qminmax Qabs Qpower Lia Lqa.
From Stdlib Require SpecFloat.
From stdpp Require Import gmap strings list fin_maps pretty sorting.

Open Scope Z_scope.

(** ** Schema ([convex/schema.ts]) *)

Module schema.

Definition Id := nat.

Definition idKey (i : Id) : string := pretty i.

Inductive Status := Lobby | Playing | Discussion | Results | Ended.

Inductive Theme := Light | Dark.

Record Settings := {
  theme : Theme;
  language : string;
  trollMode : bool;
  timerEnabled : bool;
  timerDuration : Z;
  numberOfImposters : Z;
  wordsPerRound : Z;
}.

Record Game := {
  status : Status;
  currentPlayerIndex : Z;
  currentRound : Z;
  totalRounds : Z;
  selectedCategories : list string;
  currentWord : option string;
  hintWord : option string;
  imposters : list Z;
  settings : Settings;
  timerStartTime : option Z;
  votes : option (gmap string Z);
  gameCode : string;
}.

Record Player := {
  gameId : Id;
  name : string;
  color : string;
  index : Z;
  isActive : bool;
}.

Record Word := { word : string; hint : string }.

Record Category := {
  cat_name : string;
  emoji : string;
  words : list Word;
  isDefault : bool;
}.

Record Db := {
  games : list Game;
  players : list Player;
  categories : list Category;
}.

#[global] Instance Status_eq_dec : EqDecision Status.
Proof. solve_decision. Defined.

End schema.

Export schema.

(** A document as a query returns it: the row together with its [_id]. *)
Definition Doc (A : Type) : Type := Id * A.

Definition docs {A} (table : list A) : list (Doc A) := imap (fun i row => (i, row)) table.

(** ** Partial updates ([ctx.db.patch])

    A patch is the list of the fields the object literal names; a field set
    to [undefined] is removed, which is [None] for the optional fields. *)

Inductive GameField :=
| SetStatus (s : Status)
| SetCurrentPlayerIndex (i : Z)
| SetCurrentRound (r : Z)
| SetTotalRounds (r : Z)
| SetSelectedCategories (cs : list string)
| SetCurrentWord (w : option string)
| SetHintWord (w : option string)
| SetImposters (l : list Z)
| SetSettings (s : Settings)
| SetTimerStartTime (t : option Z)
| SetVotes (v : option (gmap string Z)).

Definition setGameField (g : Game) (f : GameField) : Game :=
  match f with
  | SetStatus s =>
      {| status := s; currentPlayerIndex := currentPlayerIndex g;
         currentRound := currentRound g; totalRounds := totalRounds g;
         selectedCategories := selectedCategories g; currentWord := currentWord g;
         hintWord := hintWord g; imposters := imposters g; settings := settings g;
         timerStartTime := timerStartTime g; votes := votes g; gameCode := gameCode g |}
  | SetCurrentPlayerIndex i =>
      {| status := status g; currentPlayerIndex := i;
         currentRound := currentRound g; totalRounds := totalRounds g;
         selectedCategories := selectedCategories g; currentWord := currentWord g;
         hintWord := hintWord g; imposters := imposters g; settings := settings g;
         timerStartTime := timerStartTime g; votes := votes g; gameCode := gameCode g |}
  | SetCurrentRound r =>
      {| status := status g; currentPlayerIndex := currentPlayerIndex g;
         currentRound := r; totalRounds := totalRounds g;
         selectedCategories := selectedCategories g; currentWord := currentWord g;
         hintWord := hintWord g; imposters := imposters g; settings := settings g;
         timerStartTime := timerStartTime g; votes := votes g; gameCode := gameCode g |}
  | SetTotalRounds r =>
      {| status := status g; currentPlayerIndex := currentPlayerIndex g;
         currentRound := currentRound g; totalRounds := r;
         selectedCategories := selectedCategories g; currentWord := currentWord g;
         hintWord := hintWord g; imposters := imposters g; settings := settings g;
         timerStartTime := timerStartTime g; votes := votes g; gameCode := gameCode g |}
  | SetSelectedCategories cs =>
      {| status := status g; currentPlayerIndex := currentPlayerIndex g;
         currentRound := currentRound g; totalRounds := totalRounds g;
         selectedCategories := cs; currentWord := currentWord g;
         hintWord := hintWord g; imposters := imposters g; settings := settings g;
         timerStartTime := timerStartTime g; votes := votes g; gameCode := gameCode g |}
  | SetCurrentWord w =>
      {| status := status g; currentPlayerIndex := currentPlayerIndex g;
         currentRound := currentRound g; totalRounds := totalRounds g;
         selectedCategories := selectedCategories g; currentWord := w;
         hintWord := hintWord g; imposters := imposters g; settings := settings g;
         timerStartTime := timerStartTime g; votes := votes g; gameCode := gameCode g |}
  | SetHintWord w =>
      {| status := status g; currentPlayerIndex := currentPlayerIndex g;
         currentRound := currentRound g; totalRounds := totalRounds g;
         selectedCategories := selectedCategories g; currentWord := currentWord g;
         hintWord := w; imposters := imposters g; settings := settings g;
         timerStartTime := timerStartTime g; votes := votes g; gameCode := gameCode g |}
  | SetImposters l =>
      {| status := status g; currentPlayerIndex := currentPlayerIndex g;
         currentRound := currentRound g; totalRounds := totalRounds g;
         selectedCategories := selectedCategories g; currentWord := currentWord g;
         hintWord := hintWord g; imposters := l; settings := settings g;
         timerStartTime := timerStartTime g; votes := votes g; gameCode := gameCode g |}
  | SetSettings s =>
      {| status := status g; currentPlayerIndex := currentPlayerIndex g;
         currentRound := currentRound g; totalRounds := totalRounds g;
         selectedCategories := selectedCategories g; currentWord := currentWord g;
         hintWord := hintWord g; imposters := imposters g; settings := s;
         timerStartTime := timerStartTime g; votes := votes g; gameCode := gameCode g |}
  | SetTimerStartTime t =>
      {| status := status g; currentPlayerIndex := currentPlayerIndex g;
         currentRound := currentRound g; totalRounds := totalRounds g;
         selectedCategories := selectedCategories g; currentWord := currentWord g;
         hintWord := hintWord g; imposters := imposters g; settings := settings g;
         timerStartTime := t; votes := votes g; gameCode := gameCode g |}
  | SetVotes v =>
      {| status := status g; currentPlayerIndex := currentPlayerIndex g;
         currentRound := currentRound g; totalRounds := totalRounds g;
         selectedCategories := selectedCategories g; currentWord := currentWord g;
         hintWord := hintWord g; imposters := imposters g; settings := settings g;
         timerStartTime := timerStartTime g; votes := v; gameCode := gameCode g |}
  end.

Definition patchGame (g : Game) (fields : list GameField) : Game :=
  foldl setGameField g fields.

Inductive PlayerField :=
| SetName (s : string)
| SetColor (s : string)
| SetIndex (i : Z)
| SetIsActive (b : bool).

Definition setPlayerField (p : Player) (f : PlayerField) : Player :=
  match f with
  | SetName s =>
      {| gameId := gameId p; name := s; color := color p; index := index p;
         isActive := isActive p |}
  | SetColor s =>
      {| gameId := gameId p; name := name p; color := s; index := index p;
         isActive := isActive p |}
  | SetIndex i =>
      {| gameId := gameId p; name := name p; color := color p; index := i;
         isActive := isActive p |}
  | SetIsActive b =>
      {| gameId := gameId p; name := name p; color := color p; index := index p;
         isActive := b |}
  end.

Definition patchPlayer (p : Player) (fields : list PlayerField) : Player :=
  foldl setPlayerField p fields.

(** ** Mutations as state transformers *)

Inductive Outcome (A : Type) :=
| Returned (a : A)
| Thrown (msg : string)
| Spinning.

Arguments Returned {A} a.
Arguments Thrown {A} msg.
Arguments Spinning {A}.

Definition Mut (A : Type) : Type := Db -> Outcome A * Db.

Definition ret {A} (a : A) : Mut A := fun db => (Returned a, db).

Definition throw {A} (msg : string) : Mut A := fun db => (Thrown msg, db).

Definition spin {A} : Mut A := fun db => (Spinning, db).

Definition bind {A B} (m : Mut A) (k : A -> Mut B) : Mut B :=
  fun db =>
    match m db with
    | (Returned a, db') => k a db'
    | (Thrown msg, db') => (Thrown msg, db')
    | (Spinning, db') => (Spinning, db')
    end.

Notation "'let*' x ':=' m 'in' k" := (bind m (fun x => k))
  (at level 10, x name, m at level 100, k at level 200).

Notation "m ';;;' k" := (bind m (fun _ => k))
  (at level 100, k at level 200, right associativity).

(** The message of the error the Convex runtime raises when [patch] is given
    the id of a document that does not exist; the source does not spell it. *)
Definition missing_document : string := "Update on nonexistent document".

(** The rows a query over the [by_game] index sees, and those of them that
    pass the [isActive] filter. *)
Definition playersOf (g : Id) (table : list Player) : list (Doc Player) :=
  filter (fun dp => gameId (snd dp) = g) (docs table).

Definition activePlayersOf (g : Id) (table : list Player) : list (Doc Player) :=
  filter (fun dp => isActive (snd dp) = true) (playersOf g table).

Module db.

Definition getGame (id : Id) : Mut (option Game) :=
  fun d => (Returned (games d !! id), d).

Definition getPlayer (id : Id) : Mut (option (Doc Player)) :=
  fun d => (Returned ((fun p => (id, p)) <$> players d !! id), d).

Definition patchGame (id : Id) (fields : list GameField) : Mut unit :=
  fun d =>
    match games d !! id with
    | Some g =>
        (Returned tt,
         {| games := <[id := patchGame g fields]> (games d);
            players := players d; categories := categories d |})
    | None => (Thrown missing_document, d)
    end.

Definition patchPlayer (id : Id) (fields : list PlayerField) : Mut unit :=
  fun d =>
    match players d !! id with
    | Some p =>
        (Returned tt,
         {| games := games d;
            players := <[id := patchPlayer p fields]> (players d);
            categories := categories d |})
    | None => (Thrown missing_document, d)
    end.

Definition insertGame (g : Game) : Mut Id :=
  fun d =>
    (Returned (length (games d)),
     {| games := games d ++ [g]; players := players d;
        categories := categories d |}).

Definition insertPlayer (p : Player) : Mut Id :=
  fun d =>
    (Returned (length (players d)),
     {| games := games d; players := players d ++ [p];
        categories := categories d |}).

(** [query("players").withIndex("by_game", q => q.eq("gameId", g))]: the
    rows of game [g], in the order of the index, which is creation order. *)
Definition playersByGame (g : Id) : Mut (list (Doc Player)) :=
  fun d => (Returned (playersOf g (players d)), d).

(** The same query followed by [.filter(q => q.eq(q.field("isActive"), true))]. *)
Definition activePlayersByGame (g : Id) : Mut (list (Doc Player)) :=
  fun d => (Returned (activePlayersOf g (players d)), d).

(** [query("categories").filter(q => q.or(...names.map(n => q.eq(name, n))))]. *)
Definition categoriesNamed (names : list string) : Mut (list Category) :=
  fun d =>
    (Returned (filter (fun c => cat_name c ∈ names) (categories d)), d).

End db.

(** ** Roster ([api.players], in [convex/schema.ts]) *)

Definition addPlayer (gameId0 : Id) (name0 color0 : string) : Mut Id :=
  let* existingPlayers := db.playersByGame gameId0 in
  let nextIndex := Z.of_nat (length existingPlayers) in
  let* playerId :=
    db.insertPlayer
      {| gameId := gameId0; name := name0; color := color0;
         index := nextIndex; isActive := true |} in
  ret playerId.

Definition getPlayers (gameId0 : Id) : Mut (list (Doc Player)) :=
  db.activePlayersByGame gameId0.

Definition updatePlayer (playerId : Id) (name0 color0 : option string) : Mut unit :=
  let updates :=
    (match name0 with Some n => [SetName n] | None => [] end)
    ++ (match color0 with Some c => [SetColor c] | None => [] end) in
  db.patchPlayer playerId updates.

(** The renumbering loop of [removePlayer]; [i] is the loop counter and
    [remaining] the part of [remainingPlayers] from position [i] on. The rows
    were read before the loop, so the comparison uses the index read then. *)
Fixpoint reindex (i : Z) (remaining : list (Doc Player)) : Mut unit :=
  match remaining with
  | [] => ret tt
  | (pid, p) :: rest =>
      (if bool_decide (index p = i) then ret tt
       else db.patchPlayer pid [SetIndex i]) ;;;
      reindex (i + 1) rest
  end.

Definition removePlayer (playerId : Id) : Mut unit :=
  let* player := db.getPlayer playerId in
  match player with
  | None => ret tt
  | Some (_, player) =>
      db.patchPlayer playerId [SetIsActive false] ;;;
      let* remainingPlayers := db.activePlayersByGame (gameId player) in
      reindex 0 remainingPlayers
  end.

(** ** Game lifecycle ([convex/games.ts]) *)

(** [l[i]] for a JavaScript array and a number that is an integer: [None]
    stands for [undefined]. *)
Definition nthZ {A} (l : list A) (i : Z) : option A :=
  if i <? 0 then None else l !! Z.to_nat i.

(** [Math.floor(r * n)] for a draw [r] of [Math.random()]. *)
Definition randomIndex (r : Q) (n : Z) : Z := Qfloor (r * inject_Z n).

(** The message of the [TypeError] raised by reading a property of
    [undefined]; the source does not spell it. *)
Definition type_error : string := "TypeError: cannot read properties of undefined".

Definition createGame (gameCode0 : string) (settings0 : Settings) : Mut Id :=
  let* gameId0 :=
    db.insertGame
      {| status := Lobby; currentPlayerIndex := 0; currentRound := 1;
         totalRounds := wordsPerRound settings0; selectedCategories := [];
         currentWord := None; hintWord := None; imposters := [];
         settings := settings0; timerStartTime := None; votes := None;
         gameCode := gameCode0 |} in
  ret gameId0.

Definition getGame (gameId0 : Id) : Mut (option Game) := db.getGame gameId0.

Definition updateGameSettings (gameId0 : Id) (settings0 : Settings) : Mut unit :=
  db.patchGame gameId0
    [SetSettings settings0; SetTotalRounds (wordsPerRound settings0)].

Definition updateSelectedCategories (gameId0 : Id) (cats : list string) : Mut unit :=
  db.patchGame gameId0 [SetSelectedCategories cats].

(** The [while] loop of [startGame] that assigns the imposters. [count] is
    [players.length], [target] the clamped [numberOfImposters], [chosen] the
    array [imposterIndices] so far and [tape] the draws of [Math.random()]
    still to come; [None] when the tape ends while the loop is running. *)
Fixpoint assignImposters (count target : Z) (chosen : list Z) (tape : list Q)
    : option (list Z) :=
  if Z.of_nat (length chosen) <? target then
    match tape with
    | [] => None
    | r :: tape' =>
        let randomIndex := randomIndex r count in
        if bool_decide (randomIndex ∈ chosen)
        then assignImposters count target chosen tape'
        else assignImposters count target (chosen ++ [randomIndex]) tape'
    end
  else Some chosen.

Definition startGame (gameId0 : Id) (now : Z) (wordDraw : Q) (tape : list Q)
    : Mut unit :=
  let* game := db.getGame gameId0 in
  match game with
  | None => throw "Game not found"
  | Some game =>
      let* players := db.activePlayersByGame gameId0 in
      if Z.of_nat (length players) <? 3
      then throw "Need at least 3 players to start"
      else if bool_decide (length (selectedCategories game) = 0%nat)
      then throw "Select at least one category"
      else
        let* categories := db.categoriesNamed (selectedCategories game) in
        let allWords := flat_map words categories in
        if bool_decide (length allWords = 0%nat)
        then throw "No words found in selected categories"
        else
          match nthZ allWords (randomIndex wordDraw (Z.of_nat (length allWords))) with
          | None => throw type_error
          | Some randomWord =>
              let numberOfImposters :=
                Z.min (numberOfImposters (settings game))
                      (Z.of_nat (length players) - 1) in
              match assignImposters (Z.of_nat (length players)) numberOfImposters
                      [] tape with
              | None => spin
              | Some imposterIndices =>
                  db.patchGame gameId0
                    [SetStatus Playing;
                     SetCurrentPlayerIndex 0;
                     SetCurrentWord (Some (word randomWord));
                     SetHintWord (Some (hint randomWord));
                     SetImposters imposterIndices;
                     SetTimerStartTime
                       (if timerEnabled (settings game) then Some now else None)]
              end
          end
  end.

Definition nextPlayer (gameId0 : Id) (now : Z) : Mut unit :=
  let* game := db.getGame gameId0 in
  match game with
  | None => throw "Game not found"
  | Some game =>
      let* players := db.activePlayersByGame gameId0 in
      let nextIndex := currentPlayerIndex game + 1 in
      if Z.of_nat (length players) <=? nextIndex
      then
        db.patchGame gameId0
          [SetStatus Discussion;
           SetTimerStartTime
             (if timerEnabled (settings game) then Some now else None)]
      else db.patchGame gameId0 [SetCurrentPlayerIndex nextIndex]
  end.

(** Argument validation. Convex checks the arguments of a call against
    the [args] validators before the handler runs, and a call that fails
    the check throws without running the handler. The types of the
    embedding make every argument well-formed but one: the keys of
    [votes: v.record(v.string(), v.number())]. A key of a record is a field
    name: it must be nonempty, consist of printable ASCII characters only,
    and start neither with "$" nor with "_", which are reserved. *)
Definition printable (c : Ascii.ascii) : bool :=
  (32 <=? Ascii.nat_of_ascii c)%nat && (Ascii.nat_of_ascii c <? 127)%nat.

Definition recordKey (k : string) : bool :=
  match k with
  | EmptyString => false
  | String c _ =>
      negb (Ascii.eqb c "$"%char) && negb (Ascii.eqb c "_"%char)
      && forallb printable (String.list_ascii_of_string k)
  end.

Definition v_record (votes0 : gmap string Z) : bool :=
  forallb recordKey (map_to_list votes0).*1.

(** A string of decimal digits, as the string form of a document id is. *)
Definition decimal (s : string) : Prop :=
  Forall (fun c => (48 <= Ascii.nat_of_ascii c < 58)%nat)
    (String.list_ascii_of_string s).

(** The message of the error raised for arguments that fail validation;
    the source does not spell it. *)
Definition argument_validation_error : string := "ArgumentValidationError".

Definition submitVotes (gameId0 : Id) (votes0 : gmap string Z) : Mut unit :=
  if v_record votes0
  then db.patchGame gameId0 [SetStatus Results; SetVotes (Some votes0)]
  else throw argument_validation_error.

Definition endGame (gameId0 : Id) : Mut unit :=
  db.patchGame gameId0 [SetStatus Ended].

Definition resetToLobby (gameId0 : Id) : Mut unit :=
  db.patchGame gameId0
    [SetStatus Lobby;
     SetCurrentPlayerIndex 0;
     SetCurrentRound 1;
     SetCurrentWord None;
     SetHintWord None;
     SetImposters [];
     SetTimerStartTime None;
     SetVotes None].

(** ** The game screen: countdown and turn advancement *)

Module GameScreen.

(** The body of the interval callback: [elapsed] and [remaining], with the
    quotient and the difference taken exact. [Timer] below has them as the
    engine computes them, rounded; the two are zero at the same time
    stamps, which is all that the tick tests. *)
Definition elapsed (timerStartTime0 now : Z) : Q :=
  (inject_Z (now - timerStartTime0) / inject_Z 1000)%Q.

Definition remaining (timerDuration0 timerStartTime0 now : Z) : Q :=
  Qmax 0 (inject_Z timerDuration0 - elapsed timerStartTime0 now)%Q.

(** The value [timeRemaining] holds after a tick at [now]: [None] is
    [null]. The guard of the effect is [!timerEnabled || !timerStartTime],
    and [!t] holds of a missing and of a zero timestamp. *)
Definition timeRemaining (game : option Game) (now : Z) : option Q :=
  match game with
  | None => None
  | Some game =>
      if negb (timerEnabled (settings game)) then None
      else match timerStartTime game with
           | None => None
           | Some t =>
               if t =? 0 then None
               else Some (remaining (timerDuration (settings game)) t now)
           end
  end.

(** One tick of the interval at [now], for the game value the effect
    closed over: when the countdown has reached zero and the game is in
    the playing phase the tick calls [nextPlayer]. *)
Definition tick (gameId0 : Id) (game : option Game) (now : Z) : Mut unit :=
  match timeRemaining game now, game with
  | Some r, Some game =>
      if Qeq_bool r 0 && bool_decide (status game = Playing)
      then nextPlayer gameId0 now
      else ret tt
  | _, _ => ret tt
  end.

(** [n] presses of the next-player button at the times [nows], stopping at
    the first call that does not return. *)
Fixpoint advance (gameId0 : Id) (nows : list Z) : Mut unit :=
  match nows with
  | [] => ret tt
  | now :: nows' => nextPlayer gameId0 now ;;; advance gameId0 nows'
  end.

End GameScreen.

(** ** JavaScript numbers in the engine

    A JavaScript number is an IEEE 754 binary64 value. A finite one is
    taken here as the rational it denotes, and an arithmetic operation is
    the exact operation followed by the rounding to the nearest double,
    ties to the even significand: 53 bits of precision, exponents from
    -1022 on, and the subnormal numbers below, which are the multiples of
    2^-1074. The numbers of this program stay far below 2^1024, so the
    overflow to [Infinity] is not modelled. *)

Module IEEE.

Definition pow2 (e : Z) : Q := (2 ^ e)%Q.

(** The binary exponent of a positive rational: the [e] with
    [2^e <= q < 2^(e+1)]. *)
Definition ilog2 (q : Q) : Z :=
  let e := Z.log2 (Qnum q) - Z.log2 (Zpos (Qden q)) in
  if Qle_bool (pow2 e) q then e else e - 1.

(** The nearest integer, ties to even. *)
Definition rne (x : Q) : Z :=
  let f := Qfloor x in
  match (x - inject_Z f ?= 1 # 2)%Q with
  | Lt => f
  | Gt => f + 1
  | Eq => if Z.even f then f else f + 1
  end.

(** The unit in the last place of the doubles around [q]. *)
Definition ulp (q : Q) : Q := pow2 (Z.max (ilog2 (Qabs q)) (-1022) - 52).

Definition round64 (q : Q) : Q :=
  if Qeq_bool q 0 then 0%Q
  else Qred (inject_Z (rne (q / ulp q)) * ulp q).

(** [x - y], [x / y], and the number an integer literal or field holds. *)
Definition sub (x y : Q) : Q := round64 (x - y).
Definition div (x y : Q) : Q := round64 (x / y).
Definition number (n : Z) : Q := round64 (inject_Z n).

(** The same operations of the Standard Library's specification of
    binary64, to compare with. *)
Definition ofSpecFloat (x : SpecFloat.spec_float) : option Q :=
  match x with
  | SpecFloat.S754_zero _ => Some 0%Q
  | SpecFloat.S754_finite s m e =>
      Some (Qred ((if s then -1 else 1) * inject_Z (Zpos m) * pow2 e))
  | _ => None
  end.

Definition toSpecFloat (n : Z) : SpecFloat.spec_float :=
  SpecFloat.binary_normalize 53 1024 n 0 false.

End IEEE.

(** ** The timer effect in the engine's arithmetic

    [GameScreen.elapsed] and [GameScreen.remaining] above take the
    difference and the quotient of the interval callback as exact; here
    they are as the engine computes them, each operation rounded, and with
    them the value [timeRemaining] holds and the tick that tests it. The
    time stamps and the duration are integers. *)

Module Timer.

Definition elapsed (timerStartTime0 now : Z) : Q :=
  IEEE.div (IEEE.sub (IEEE.number now) (IEEE.number timerStartTime0))
    (IEEE.number 1000).

Definition remaining (timerDuration0 timerStartTime0 now : Z) : Q :=
  Qmax 0 (IEEE.sub (IEEE.number timerDuration0) (elapsed timerStartTime0 now)).

Definition timeRemaining (game : option Game) (now : Z) : option Q :=
  match game with
  | None => None
  | Some game =>
      if negb (timerEnabled (settings game)) then None
      else match timerStartTime game with
           | None => None
           | Some t =>
               if t =? 0 then None
               else Some (remaining (timerDuration (settings game)) t now)
           end
  end.

Definition tick (gameId0 : Id) (game : option Game) (now : Z) : Mut unit :=
  match timeRemaining game now, game with
  | Some r, Some game =>
      if Qeq_bool r 0 && bool_decide (status game = Playing)
      then nextPlayer gameId0 now
      else ret tt
  | _, _ => ret tt
  end.

End Timer.

(** ** The results screen: submitting the votes, tally and outcome *)

(** [Array.prototype.sort] with a comparator. The sort is stable, and for a
    comparator that is a consistent order the result of a stable sort is
    unique; it is the one insertion from the right computes: [x], which
    stood before all of [l], goes behind exactly the elements that compare
    strictly before it. *)
Fixpoint insertBy {A} (cmp : A -> A -> Z) (x : A) (l : list A) : list A :=
  match l with
  | [] => [x]
  | y :: l' => if 0 <? cmp x y then y :: insertBy cmp x l' else x :: y :: l'
  end.

Definition sortBy {A} (cmp : A -> A -> Z) (l : list A) : list A :=
  foldr (insertBy cmp) [] l.

Module ResultsScreen.

Inductive Ui :=
| Nothing
| Alert (title message : string)
| ShowResults.

(** [handleSubmitVotes]: [players] is the value of the [getPlayers] query
    the screen holds and [selectedVotes] the votes picked so far. A failed
    mutation is caught and reported. *)
Definition handleSubmitVotes (gameId0 : Id)
    (players : option (list (Doc Player))) (selectedVotes : gmap string Z)
    (d : Db) : Ui * Db :=
  match players with
  | None => (Nothing, d)
  | Some players =>
      let allPlayersVoted :=
        forallb (fun player => bool_decide (selectedVotes !! idKey (fst player) ≠ None))
          players in
      if negb allPlayersVoted
      then (Alert "Wacht even" "Niet alle spelers hebben gestemd!", d)
      else
        match submitVotes gameId0 selectedVotes d with
        | (Returned _, d') => (ShowResults, d')
        | (_, d') => (Alert "Error" "Failed to submit votes", d')
        end
  end.

Record VoteResult := {
  player : Doc Player;
  votes : Z;
  isImposter : bool;
}.

(** The [forEach] over [Object.values(game.votes)] that fills
    [voteCounts]; [x || 0] is [0] for a missing entry. *)
Definition countVote (voteCounts : gmap Z Z) (votedForIndex : Z) : gmap Z Z :=
  <[votedForIndex := default 0 (voteCounts !! votedForIndex) + 1]> voteCounts.

Definition voteCounts (votes0 : gmap string Z) : gmap Z Z :=
  foldl countVote ∅ (map_to_list votes0).*2.

Definition getVoteResults (players : option (list (Doc Player)))
    (game : option Game) : list VoteResult :=
  match players, game with
  | Some players, Some game =>
      match schema.votes game with
      | None => []
      | Some votes0 =>
          let voteCounts := voteCounts votes0 in
          sortBy (fun a b => votes b - votes a)
            (imap (fun index player =>
                     {| player := player;
                        votes := default 0 (voteCounts !! Z.of_nat index);
                        isImposter :=
                          bool_decide (Z.of_nat index ∈ imposters game) |})
               players)
      end
  | _, _ => []
  end.

Record GameOutcome := { success : bool; message : string }.

Definition getGameOutcome (players : option (list (Doc Player)))
    (game : option Game) : option GameOutcome :=
  match players, game with
  | Some _, Some game0 =>
      let results := getVoteResults players game in
      match head results with
      | None => None
      | Some mostVotedPlayer =>
          let impostersFound :=
            length (filter (fun r => isImposter r = true ∧ 0 < votes r) results) in
          let totalImposters := length (imposters game0) in
          if isImposter mostVotedPlayer
          then
            Some {| success := bool_decide (impostersFound = totalImposters);
                    message :=
                      if bool_decide (impostersFound = totalImposters)
                      then "🎉 Gefeliciteerd! Jullie hebben alle imposters gevonden!"
                      else "👏 Goed gedaan! Jullie hebben een imposter gevonden, maar er zijn er meer..." |}
          else
            Some {| success := false;
                    message := "😈 De imposters hebben gewonnen! Jullie hebben de verkeerde persoon gekozen." |}
      end
  | _, _ => None
  end.

End ResultsScreen.

(** ** Derived notions used in the statements *)

(** The database after the row [gid] of the games table was replaced. *)
Definition withGame (d : Db) (gid : Id) (g : Game) : Db :=
  {| games := <[gid := g]> (games d); players := players d;
     categories := categories d |}.

(** The number of active players of a game, as the handlers count them. *)
Definition activeCount (d : Db) (gid : Id) : Z :=
  Z.of_nat (length (activePlayersOf gid (players d))).

(** What one call of [nextPlayer] does to the game it is given. *)
Definition turnAdvanced (count now : Z) (g : Game) : Game :=
  if count <=? currentPlayerIndex g + 1
  then patchGame g
         [SetStatus Discussion;
          SetTimerStartTime (if timerEnabled (settings g) then Some now else None)]
  else patchGame g [SetCurrentPlayerIndex (currentPlayerIndex g + 1)].


(** The word pool of [startGame]: [allWords]. *)
Definition wordPool (d : Db) (g : Game) : list Word :=
  flat_map words
    (filter (fun c => cat_name c ∈ selectedCategories g) (categories d)).

(** The three start conditions the specification names. *)
Inductive StartCondition := TooFewPlayers | NoCategorySelected | EmptyWordPool.

#[global] Instance StartCondition_eq_dec : EqDecision StartCondition.
Proof. solve_decision. Defined.

(** Following the specification's words: all the conditions a start of the
    game [g] violates. *)
Definition violatedStartConditions (d : Db) (gid : Id) (g : Game)
    : list StartCondition :=
  (if activeCount d gid <? 3 then [TooFewPlayers] else [])
  ++ (if bool_decide (selectedCategories g = []) then [NoCategorySelected] else [])
  ++ (if bool_decide (wordPool d g = []) then [EmptyWordPool] else []).

(** The conditions an error message of [startGame] names. *)
Definition reportedStartConditions (msg : string) : list StartCondition :=
  (if bool_decide (msg = "Need at least 3 players to start")
   then [TooFewPlayers] else [])
  ++ (if bool_decide (msg = "Select at least one category")
      then [NoCategorySelected] else [])
  ++ (if bool_decide (msg = "No words found in selected categories")
      then [EmptyWordPool] else []).

(** A draw of [Math.random()] lies in the interval from 0 (included) to 1
    (excluded). *)
Definition unitInterval (r : Q) : Prop := (0 <= r)%Q /\ (r < 1)%Q.

(** An integer that a double holds exactly, as [Number.isSafeInteger]
    tests it. *)
Definition safeInteger (n : Z) : Prop := Z.abs n < 2 ^ 53.

(** A roster index of a game with [n] active players. *)
Definition inRange (n : Z) (i : Z) : Prop := 0 <= i < n.

(** A tape covers the indices below [n] when each of them is drawn by some
    entry of the tape. *)
Definition covers (n : Z) (tape : list Q) : Prop :=
  forall i, 0 <= i < n -> exists r, r ∈ tape /\ randomIndex r n = i.

(** The database after the players table was replaced. *)
Definition withPlayers (d : Db) (table : list Player) : Db :=
  {| games := games d; players := table; categories := categories d |}.

(** Two rows that differ at most in name, colour and index. *)
Definition sameSeat (p q : Player) : Prop :=
  gameId p = gameId q /\ isActive p = isActive q.

(** The [index] fields of the active players of a game, in roster order. *)
Definition activeIndices (d : Db) (gid : Id) : list Z :=
  (fun dp => index (snd dp)) <$> activePlayersOf gid (players d).

(** Following the specification's words: the indices of the active players
    are exactly 0, ..., n-1, without duplicates or gaps. *)
Definition contiguous (d : Db) (gid : Id) : Prop :=
  activeIndices d gid ≡ₚ seqZ 0 (activeCount d gid).

(** Following the specification's words: the number of vote values equal
    to the roster index [i]. *)
Definition votesFor (ballot : gmap string Z) (i : Z) : Z :=
  Z.of_nat (length (filter (fun v => v = i) (map_to_list ballot).*2)).

(** The tally entry of the player at position [i] of the roster, and the
    tally in roster order with each entry next to its roster index. *)
Definition tallyEntry (g : Game) (ballot : gmap string Z) (i : nat)
    (p : Doc Player) : ResultsScreen.VoteResult :=
  {| ResultsScreen.player := p;
     ResultsScreen.votes := votesFor ballot (Z.of_nat i);
     ResultsScreen.isImposter := bool_decide (Z.of_nat i ∈ imposters g) |}.

Definition rosterTally (g : Game) (ballot : gmap string Z)
    (roster : list (Doc Player)) : list (nat * ResultsScreen.VoteResult) :=
  imap (fun i p => (i, tallyEntry g ballot i p)) roster.

(** The order of the sorted tally: more votes first, and among equal votes
    the smaller roster index first. *)
Definition ranksBefore (a b : nat * ResultsScreen.VoteResult) : Prop :=
  ResultsScreen.votes (snd b) < ResultsScreen.votes (snd a)
  \/ (ResultsScreen.votes (snd a) = ResultsScreen.votes (snd b)
      /\ (fst a < fst b)%nat).

(** The comparator of [getVoteResults] on entries that carry their roster
    index. *)
Definition byVotes (a b : nat * ResultsScreen.VoteResult) : Z :=
  ResultsScreen.votes (snd b) - ResultsScreen.votes (snd a).

(** ** Sample games

    Databases reached by running the handlers from empty tables; they serve
    as the concrete inputs of the examples below. *)

Module sample.

Definition settings1 : Settings :=
  {| theme := Light; language := "NL"; trollMode := false;
     timerEnabled := true; timerDuration := 300; numberOfImposters := 1;
     wordsPerRound := 10 |}.

Definition settings2 : Settings :=
  {| theme := Dark; language := "NL"; trollMode := false;
     timerEnabled := false; timerDuration := 300; numberOfImposters := 2;
     wordsPerRound := 10 |}.

Definition seeded : Db :=
  {| games := []; players := [];
     categories :=
       [ {| cat_name := "Dieren"; emoji := "D";
            words := [ {| word := "Hond"; hint := "Huisdier" |};
                       {| word := "Olifant"; hint := "Groot" |} ];
            isDefault := true |};
         {| cat_name := "Leeg"; emoji := "L"; words := []; isDefault := false |} ] |}.

(** The database a script leaves behind. *)
Definition after {A} (script : Mut A) (d : Db) : Db := snd (script d).

(** A game with two players and no category selected. *)
Definition lobby2 : Db := Eval vm_compute in
  after (let* g := createGame "KLAS" settings1 in
         addPlayer g "Speler 1" "#FF6B6B" ;;;
         addPlayer g "Speler 2" "#4ECDC4") seeded.

(** A game with three players and one category selected. *)
Definition lobby3 : Db := Eval vm_compute in
  after (let* g := createGame "KLAS" settings1 in
         addPlayer g "Speler 1" "#FF6B6B" ;;;
         addPlayer g "Speler 2" "#4ECDC4" ;;;
         addPlayer g "Speler 3" "#45B7D1" ;;;
         updateSelectedCategories g ["Dieren"]) seeded.

(** Four players, two imposters wanted, no timer. *)
Definition lobby4 : Db := Eval vm_compute in
  after (let* g := createGame "WHO4" settings2 in
         addPlayer g "Speler 1" "#FF6B6B" ;;;
         addPlayer g "Speler 2" "#4ECDC4" ;;;
         addPlayer g "Speler 3" "#45B7D1" ;;;
         addPlayer g "Speler 4" "#96CEB4" ;;;
         updateSelectedCategories g ["Dieren"]) seeded.

(** The draws of [Math.random()]: the word, then the imposters. *)
Definition wordDraw : Q := 3 # 4.
Definition tape : list Q := [2 # 3; 2 # 3; 1 # 10; 1 # 2].

Definition playing3 : Db := Eval vm_compute in after (startGame 0%nat 1000 wordDraw tape) lobby3.

Definition playing4 : Db := Eval vm_compute in after (startGame 0%nat 1000 wordDraw tape) lobby4.

Definition discussion3 : Db := Eval vm_compute in
  after (GameScreen.advance 0%nat [2000; 3000; 4000]) playing3.

Definition ballot3 : gmap string Z := Eval vm_compute in
  <[idKey 0%nat := 2]> (<[idKey 1%nat := 2]> (<[idKey 2%nat := 0]> ∅)).

Definition results3 : Db := Eval vm_compute in after (submitVotes 0%nat ballot3) discussion3.

(** The example of the specification: four players, the third is the
    imposter, and the votes are 2, 2, 0, 2. *)
Definition quartet : Db := Eval vm_compute in
  after (let* g := createGame "VIER" settings1 in
         addPlayer g "Speler 1" "#FF6B6B" ;;;
         addPlayer g "Speler 2" "#4ECDC4" ;;;
         addPlayer g "Speler 3" "#45B7D1" ;;;
         addPlayer g "Speler 4" "#96CEB4" ;;;
         updateSelectedCategories g ["Dieren"] ;;;
         startGame g 1000 wordDraw tape ;;;
         GameScreen.advance g [2000; 3000; 4000; 5000]) seeded.

Definition ballot4 : gmap string Z := Eval vm_compute in
  <[idKey 0%nat := 2]> (<[idKey 1%nat := 2]> (<[idKey 2%nat := 0]>
    (<[idKey 3%nat := 2]> ∅))).

Definition results4 : Db := Eval vm_compute in
  after (submitVotes 0%nat ballot4) quartet.

(** Six players and two imposters, the first and the last player. After
    the start the last three players are removed, so the second imposter
    index is no longer on the roster; the three that are left vote 0, 5, 0. *)
Definition ballot6 : gmap string Z := Eval vm_compute in
  <[idKey 0%nat := 0]> (<[idKey 1%nat := 5]> (<[idKey 2%nat := 0]> ∅)).

Definition shrunk : Db := Eval vm_compute in
  after (let* g := createGame "ZES" settings2 in
         addPlayer g "Speler 1" "#FF6B6B" ;;;
         addPlayer g "Speler 2" "#4ECDC4" ;;;
         addPlayer g "Speler 3" "#45B7D1" ;;;
         addPlayer g "Speler 4" "#96CEB4" ;;;
         addPlayer g "Speler 5" "#FFEAA7" ;;;
         addPlayer g "Speler 6" "#DDA0DD" ;;;
         updateSelectedCategories g ["Dieren"] ;;;
         startGame g 1000 wordDraw [0%Q; 5 # 6] ;;;
         removePlayer 3%nat ;;;
         removePlayer 4%nat ;;;
         removePlayer 5%nat ;;;
         GameScreen.advance g [2000; 3000; 4000] ;;;
         submitVotes g ballot6) seeded.

(** A game with a timer of one second, started at time 1000. *)
Definition settings3 : Settings :=
  {| theme := Light; language := "NL"; trollMode := false;
     timerEnabled := true; timerDuration := 1; numberOfImposters := 1;
     wordsPerRound := 10 |}.

Definition blink : Db := Eval vm_compute in
  after (let* g := createGame "KORT" settings3 in
         addPlayer g "Speler 1" "#FF6B6B" ;;;
         addPlayer g "Speler 2" "#4ECDC4" ;;;
         addPlayer g "Speler 3" "#45B7D1" ;;;
         updateSelectedCategories g ["Dieren"] ;;;
         startGame g 1000 wordDraw tape) seeded.

(** Three players of whom the second was removed. *)
Definition removed : Db := Eval vm_compute in
  after (removePlayer 1%nat) lobby3.

(** A new player joins after the removal. *)
Definition rejoined : Db := Eval vm_compute in
  after (addPlayer 0%nat "Speler 3" "#96CEB4") removed.

End sample.

(** * The rest of the back end and of the screens *)

(** ** The mutations as one interface

    The calls a client can make, with the inputs of the handler: the
    arguments, the time and the draws. *)

Inductive Call :=
| CreateGame (gameCode0 : string) (settings0 : Settings)
| UpdateGameSettings (gameId0 : Id) (settings0 : Settings)
| UpdateSelectedCategories (gameId0 : Id) (cats : list string)
| StartGame (gameId0 : Id) (now : Z) (wordDraw : Q) (tape : list Q)
| NextPlayer (gameId0 : Id) (now : Z)
| SubmitVotes (gameId0 : Id) (votes0 : gmap string Z)
| EndGame (gameId0 : Id)
| ResetToLobby (gameId0 : Id)
| AddPlayer (gameId0 : Id) (name0 color0 : string)
| UpdatePlayer (playerId : Id) (name0 color0 : option string)
| RemovePlayer (playerId : Id).

Definition call (c : Call) : Mut unit :=
  match c with
  | CreateGame gameCode0 settings0 => createGame gameCode0 settings0 ;;; ret tt
  | UpdateGameSettings gameId0 settings0 => updateGameSettings gameId0 settings0
  | UpdateSelectedCategories gameId0 cats => updateSelectedCategories gameId0 cats
  | StartGame gameId0 now wordDraw tape => startGame gameId0 now wordDraw tape
  | NextPlayer gameId0 now => nextPlayer gameId0 now
  | SubmitVotes gameId0 votes0 => submitVotes gameId0 votes0
  | EndGame gameId0 => endGame gameId0
  | ResetToLobby gameId0 => resetToLobby gameId0
  | AddPlayer gameId0 name0 color0 => addPlayer gameId0 name0 color0 ;;; ret tt
  | UpdatePlayer playerId name0 color0 => updatePlayer playerId name0 color0
  | RemovePlayer playerId => removePlayer playerId
  end.

(** The database after a sequence of calls, each made whatever became of
    the one before, as a client that catches the errors makes them. *)
Definition perform (cs : list Call) (d : Db) : Db :=
  foldl (fun d c => snd (call c d)) d cs.

(** The calls that play a round of the game [gid]. *)
Definition roundCall (gid : Id) (c : Call) : Prop :=
  match c with
  | StartGame g _ _ _ | NextPlayer g _ | SubmitVotes g _ | EndGame g
  | ResetToLobby g => g = gid
  | _ => False
  end.

(** A game as [createGame] and [resetToLobby] leave its round: in the
    lobby, at the first player and round, without word, hint, imposters,
    timer anchor or votes. *)
Definition roundCleared (g : Game) : Prop :=
  status g = Lobby /\ currentPlayerIndex g = 0 /\ currentRound g = 1
  /\ currentWord g = None /\ hintWord g = None /\ imposters g = []
  /\ timerStartTime g = None /\ schema.votes g = None.

(** What no call may change: the catalog, the code of a game, the game a
    player belongs to, and that a removed player stays removed; rows are
    never deleted. *)
Definition keepsIdentity (d d' : Db) : Prop :=
  categories d' = categories d
  /\ (forall j g, games d !! j = Some g ->
        exists g', games d' !! j = Some g' /\ gameCode g' = gameCode g)
  /\ (forall k p, players d !! k = Some p ->
        exists p', players d' !! k = Some p' /\ gameId p' = gameId p
                   /\ (isActive p = false -> isActive p' = false)).

(** [totalRounds] mirrors the configured words per round. *)
Definition mirrorsRounds (d : Db) : Prop :=
  forall j g, games d !! j = Some g -> totalRounds g = wordsPerRound (settings g).

(** The fields of a game that belong to the round being played: the ones
    [resetToLobby] overwrites. *)
Definition roundField (f : GameField) : Prop :=
  match f with
  | SetStatus _ | SetCurrentPlayerIndex _ | SetCurrentRound _ | SetCurrentWord _
  | SetHintWord _ | SetImposters _ | SetTimerStartTime _ | SetVotes _ => True
  | SetTotalRounds _ | SetSelectedCategories _ | SetSettings _ => False
  end.

(** The patch of [resetToLobby]. *)
Definition resetFields : list GameField :=
  [SetStatus Lobby; SetCurrentPlayerIndex 0; SetCurrentRound 1;
   SetCurrentWord None; SetHintWord None; SetImposters [];
   SetTimerStartTime None; SetVotes None].

(** The status a call writes to a game, for the calls that write one. *)
Definition statusWritten (c : Call) : option Status :=
  match c with
  | CreateGame _ _ | ResetToLobby _ => Some Lobby
  | StartGame _ _ _ _ => Some Playing
  | NextPlayer _ _ => Some Discussion
  | SubmitVotes _ _ => Some Results
  | EndGame _ => Some Ended
  | _ => None
  end.

(** A call that removes a player; a call that adds a player to the game. *)
Definition removal (c : Call) : Prop :=
  match c with RemovePlayer _ => True | _ => False end.

Definition joins (gid : Id) (c : Call) : Prop :=
  match c with AddPlayer g _ _ => g = gid | _ => False end.

(** Two players tables hold the same rows of a game, up to name and colour. *)
Definition seatsAgree (gid : Id) (t t' : list Player) : Prop :=
  Forall2 (fun a b : Doc Player =>
             fst a = fst b /\ index (snd a) = index (snd b)
             /\ isActive (snd a) = isActive (snd b))
    (playersOf gid t) (playersOf gid t').

(** The active players of a game carry the indices 0, 1, ... in roster
    order; no row of the game has been removed. *)
Definition numbered (d : Db) (gid : Id) : Prop :=
  activeIndices d gid = seqZ 0 (activeCount d gid).

Definition nobodyRemoved (d : Db) (gid : Id) : Prop :=
  Forall (fun dp : Doc Player => isActive (snd dp) = true)
    (playersOf gid (players d)).

(** ** The game screen: what it shows and its handlers *)

(** What a handler reports to the user. *)
Inductive Feedback :=
| Silent
| Alerted (title message : string)
| Navigated (route : string).

Module GameView.

(** [players[game.currentPlayerIndex]] and
    [game.imposters.includes(game.currentPlayerIndex)]. *)
Definition currentPlayer (players : list (Doc Player)) (game : Game)
    : option (Doc Player) :=
  nthZ players (currentPlayerIndex game).

Definition isImposter (game : Game) : bool :=
  bool_decide (currentPlayerIndex game ∈ imposters game).

(** The label of the next button. *)
Definition nextLabel (players : list (Doc Player)) (game : Game) : string :=
  if bool_decide (currentPlayerIndex game = Z.of_nat (length players) - 1)
  then "🎯 Start discussie"
  else "➡️ Volgende speler".

(** The card shows the hint to an imposter and the word to the others. *)
Definition cardText (game : Game) : option string :=
  if isImposter game then hintWord game else currentWord game.

End GameView.

(** ** The lobby screen

    Of a handler the database it leaves and what it reports are modelled;
    the modal and haptic effects are not. The message of an error a
    mutation raised is taken to be the message the handler threw; a call
    that is still running has reported nothing. *)

Module GameLobby.

Definition PLAYER_COLORS : list string :=
  ["#FF6B6B"; "#4ECDC4"; "#45B7D1"; "#96CEB4"; "#FFEAA7";
   "#DDA0DD"; "#98D8C8"; "#F7DC6F"; "#BB8FCE"; "#85C1E9"].

Definition handleAddPlayer (gameId0 : option Id)
    (players : option (list (Doc Player))) (d : Db) : Feedback * Db :=
  match gameId0, players with
  | Some gameId0, Some players =>
      let playerName := "Speler " +:+ pretty (length players + 1)%nat in
      let colorIndex := (length players mod length PLAYER_COLORS)%nat in
      match PLAYER_COLORS !! colorIndex with
      | Some color0 =>
          match addPlayer gameId0 playerName color0 d with
          | (Returned _, d') => (Silent, d')
          | (Thrown _, d') => (Alerted "Error" "Failed to add player", d')
          | (Spinning, d') => (Silent, d')
          end
      | None => (Alerted "Error" "Failed to add player", d)
      end
  | _, _ => (Silent, d)
  end.

Definition handleUpdatePlayer (selectedPlayer : option (Doc Player))
    (newPlayerName : string) (d : Db) : Feedback * Db :=
  match selectedPlayer with
  | None => (Silent, d)
  | Some selectedPlayer =>
      match updatePlayer (fst selectedPlayer) (Some newPlayerName) None d with
      | (Returned _, d') => (Silent, d')
      | (Thrown _, d') => (Alerted "Error" "Failed to update player", d')
      | (Spinning, d') => (Silent, d')
      end
  end.

Definition handleRemovePlayer (selectedPlayer : option (Doc Player))
    (players : option (list (Doc Player))) (d : Db) : Feedback * Db :=
  match selectedPlayer, players with
  | Some selectedPlayer, Some players =>
      if (length players <=? 3)%nat
      then (Alerted "Error" "Need at least 3 players", d)
      else
        match removePlayer (fst selectedPlayer) d with
        | (Returned _, d') => (Silent, d')
        | (Thrown _, d') => (Alerted "Error" "Failed to remove player", d')
        | (Spinning, d') => (Silent, d')
        end
  | _, _ => (Silent, d)
  end.

Definition handleCategoryToggle (selectedCategories : list string)
    (categoryName : string) : list string :=
  if bool_decide (categoryName ∈ selectedCategories)
  then filter (fun c => c ≠ categoryName) selectedCategories
  else selectedCategories ++ [categoryName].

Definition handleStartGame (gameId0 : option Id) (selectedCategories : list string)
    (now : Z) (wordDraw : Q) (tape : list Q) (d : Db) : Feedback * Db :=
  match gameId0 with
  | None => (Silent, d)
  | Some gameId0 =>
      if bool_decide (length selectedCategories = 0%nat)
      then (Alerted "Error" "Selecteer minimaal één categorie", d)
      else
        match updateSelectedCategories gameId0 selectedCategories d with
        | (Returned _, d1) =>
            match startGame gameId0 now wordDraw tape d1 with
            | (Returned _, d2) => (Navigated ("/game/" +:+ idKey gameId0), d2)
            | (Thrown msg, d2) => (Alerted "Error" msg, d2)
            | (Spinning, d2) => (Silent, d2)
            end
        | (Thrown msg, d1) => (Alerted "Error" msg, d1)
        | (Spinning, d1) => (Silent, d1)
        end
  end.

End GameLobby.

(** ** The game screen: the card, the next button, leaving, the clock *)

Module GameHandlers.


Record ScreenState := { cardWasFlipped : bool; cardIsCurrentlyFlipped : bool }.







Definition handleNextPlayer (gameId0 : Id) (now : Z) (s : ScreenState) (d : Db)
    : Feedback * ScreenState * Db :=
  if negb (cardWasFlipped s)
  then (Alerted "Wacht even" "Bekijk eerst je kaart!", s, d)
  else if cardIsCurrentlyFlipped s
  then (Alerted "Wacht even" "Laat eerst je kaart los!", s, d)
  else
    match nextPlayer gameId0 now d with
    | (Returned _, d') =>
        (Silent,
         {| cardWasFlipped := false;
            cardIsCurrentlyFlipped := cardIsCurrentlyFlipped s |}, d')
    | (Thrown _, d') => (Alerted "Error" "Failed to go to next player", s, d')
    | (Spinning, d') => (Silent, s, d')
    end.

(** The "Beëindigen" button of the dialogue [handleEndGame] opens. *)
Definition confirmEndGame (gameId0 : Id) (d : Db) : Feedback * Db :=
  match resetToLobby gameId0 d with
  | (Returned _, d') => (Navigated "/", d')
  | (Thrown _, d') => (Alerted "Error" "Failed to end game", d')
  | (Spinning, d') => (Silent, d')
  end.






(** [x % y] on numbers, with the sign of [x]. *)
Definition Qtruncate (q : Q) : Z := if Qle_bool 0 q then Qfloor q else Qceiling q.

Definition jsRemainder (x y : Q) : Q := (x - y * inject_Z (Qtruncate (x / y)))%Q.

(** [s.padStart(n, fill)]. *)
Fixpoint cycle (k : nat) (fill rest : string) : string :=
  match k with
  | O => ""
  | S k' =>
      match rest with
      | String c r => String c (cycle k' fill r)
      | EmptyString =>
          match fill with
          | String c r => String c (cycle k' fill r)
          | EmptyString => ""
          end
      end
  end.

Definition padStart (n : nat) (fill s : string) : string :=
  if (n <=? String.length s)%nat then s
  else cycle (n - String.length s) fill fill +:+ s.

(** [Number::toString] of a number that holds an integer, as the template
    literal and [toString()] print [mins] and [secs]: the fewest decimal
    digits that read back as the same double, followed by zeros up to the
    units while the number is below 10^21, and in exponent notation from
    10^21 on. An integer below 2^53 is the only integer that reads back as
    itself, so its digits are all printed. For a larger one [shortest]
    looks for the multiples of 10^(nd-k) around [x], for k = 1, 2, ...
    digits, of which [nd] is the number of digits of [x], and takes the
    first that rounds to [x], the nearer of the two if both do. *)
Fixpoint stripZeros (s : string) : string :=
  match s with
  | EmptyString => EmptyString
  | String c r =>
      let r' := stripZeros r in
      if Ascii.eqb c "0"%char && String.eqb r' EmptyString
      then EmptyString else String c r'
  end.

Fixpoint shortest (fuel : nat) (k : Z) (x nd : Z) : Z :=
  match fuel with
  | O => x
  | S fuel' =>
      let scale := 10 ^ (nd - k) in
      let lo := x / scale * scale in
      let hi := lo + scale in
      let okLo := Qeq_bool (IEEE.number lo) (inject_Z x) in
      let okHi := Qeq_bool (IEEE.number hi) (inject_Z x) in
      if okLo && okHi then
        if x - lo <? hi - x then lo
        else if hi - x <? x - lo then hi
        else if Z.even (x / scale) then lo else hi
      else if okLo then lo
      else if okHi then hi
      else shortest fuel' (k + 1) x nd
  end.

Definition exponential (v : Z) : string :=
  let digits := pretty v in
  let e := pretty (String.length digits - 1)%nat in
  match stripZeros digits with
  | EmptyString => "0"
  | String c EmptyString => String c ("e+" +:+ e)
  | String c r => String c ("." +:+ r +:+ "e+" +:+ e)
  end.

Definition toString (n : Z) : string :=
  let x := Z.abs n in
  let v :=
    if x <? 2 ^ 53 then x
    else shortest 17 1 x (Z.of_nat (String.length (pretty x))) in
  (if n <? 0 then "-" else "")
  +:+ (if v <? 10 ^ 21 then pretty v else exponential v).

(** [seconds] is a double; the quotient is rounded, the remainder of two
    doubles is exact, and so is [Math.floor]. *)
Definition formatTime (seconds : Q) : string :=
  let mins := Qfloor (IEEE.div seconds 60) in
  let secs := Qfloor (jsRemainder seconds 60) in
  toString mins +:+ ":" +:+ padStart 2 "0" (toString secs).

End GameHandlers.

(** ** The results screen: casting the votes, leaving *)

Module VotingScreen.

Definition handleVote (voterId : string) (votedForIndex : Z)
    (selectedVotes : gmap string Z) : gmap string Z :=
  <[voterId := votedForIndex]> selectedVotes.

(** A press on the button of the candidate at position [candidateIndex] in
    the row of the voter at position [voterRow]; the buttons are those the
    screen draws from [players]. *)
Definition press (players : list (Doc Player)) (voterRow candidateIndex : nat)
    (selectedVotes : gmap string Z) : gmap string Z :=
  match players !! voterRow, players !! candidateIndex with
  | Some voter, Some _ =>
      handleVote (idKey (fst voter)) (Z.of_nat candidateIndex) selectedVotes
  | _, _ => selectedVotes
  end.

Definition presses (players : list (Doc Player)) (ps : list (nat * nat))
    : gmap string Z :=
  foldl (fun sel vc => press players (fst vc) (snd vc) sel) ∅ ps.

(** The [disabled] property of the submit button. *)
Definition submitDisabled (selectedVotes : gmap string Z)
    (players : list (Doc Player)) : bool :=
  (size selectedVotes <? length players)%nat.

Definition handleNewGame (gameId0 : Id) (d : Db) : Feedback * Db :=
  match resetToLobby gameId0 d with
  | (Returned _, d') => (Navigated "/", d')
  | (Thrown _, d') => (Alerted "Error" "Failed to start new game", d')
  | (Spinning, d') => (Silent, d')
  end.

(** The votes of a tally, added up. *)
Definition totalVotes (results : list ResultsScreen.VoteResult) : Z :=
  foldr (fun r acc => ResultsScreen.votes r + acc) 0 results.

End VotingScreen.

(** ** What the players can press on the three screens

    Each press runs the handler of its button on the database; the
    arguments are the values the screen holds at that moment. *)

Inductive Tap :=
| AddPlayerTap (gameId0 : option Id) (players : option (list (Doc Player)))
| UpdatePlayerTap (selectedPlayer : option (Doc Player)) (newPlayerName : string)
| RemovePlayerTap (selectedPlayer : option (Doc Player))
    (players : option (list (Doc Player)))
| StartGameTap (gameId0 : option Id) (selectedCategories : list string)
    (now : Z) (wordDraw : Q) (tape : list Q)
| NextPlayerTap (gameId0 : Id) (now : Z) (s : GameHandlers.ScreenState)
| EndGameTap (gameId0 : Id)
| SubmitVotesTap (gameId0 : Id) (players : option (list (Doc Player)))
    (selectedVotes : gmap string Z)
| NewGameTap (gameId0 : Id).

Definition tap (t : Tap) (d : Db) : Db :=
  match t with
  | AddPlayerTap gameId0 players => snd (GameLobby.handleAddPlayer gameId0 players d)
  | UpdatePlayerTap selectedPlayer newPlayerName =>
      snd (GameLobby.handleUpdatePlayer selectedPlayer newPlayerName d)
  | RemovePlayerTap selectedPlayer players =>
      snd (GameLobby.handleRemovePlayer selectedPlayer players d)
  | StartGameTap gameId0 selectedCategories now wordDraw tape =>
      snd (GameLobby.handleStartGame gameId0 selectedCategories now wordDraw tape d)
  | NextPlayerTap gameId0 now s => snd (GameHandlers.handleNextPlayer gameId0 now s d)
  | EndGameTap gameId0 => snd (GameHandlers.confirmEndGame gameId0 d)
  | SubmitVotesTap gameId0 players selectedVotes =>
      snd (ResultsScreen.handleSubmitVotes gameId0 players selectedVotes d)
  | NewGameTap gameId0 => snd (VotingScreen.handleNewGame gameId0 d)
  end.

Definition taps (ts : list Tap) (d : Db) : Db := foldl (fun d t => tap t d) d ts.


(** ** More sample databases *)

Module fixture.

(** Two games side by side, with their players added in turn. *)
Definition twoGames : Db := Eval vm_compute in
  sample.after
    (let* a := createGame "EEN" sample.settings1 in
     let* b := createGame "TWEE" sample.settings2 in
     addPlayer a "Anna" "#FF6B6B" ;;;
     addPlayer b "Bram" "#4ECDC4" ;;;
     addPlayer a "Cato" "#45B7D1" ;;;
     addPlayer b "Daan" "#96CEB4" ;;;
     addPlayer a "Emma" "#FFEAA7" ;;;
     addPlayer b "Finn" "#DDA0DD" ;;;
     addPlayer a "Guus" "#98D8C8" ;;;
     updateSelectedCategories a ["Dieren"]) sample.seeded.

End fixture.
(** * Properties *)

(** ** Running the handlers *)

Lemma withGame_lookup d gid g g0 :
  games d !! gid = Some g0 -> games (withGame d gid g) !! gid = Some g.
Proof.
  intros H. simpl. apply list_lookup_insert_eq. by eapply lookup_lt_Some.
Qed.

Lemma withGame_lookup_ne d gid g j :
  j ≠ gid -> games (withGame d gid g) !! j = games d !! j.
Proof. intros H. simpl. by apply list_lookup_insert_ne. Qed.

Lemma patchGame_found d gid g fields :
  games d !! gid = Some g ->
  db.patchGame gid fields d = (Returned tt, withGame d gid (patchGame g fields)).
Proof. intros H. unfold db.patchGame. by rewrite H. Qed.

Lemma patchGame_missing d gid fields :
  games d !! gid = None ->
  db.patchGame gid fields d = (Thrown missing_document, d).
Proof. intros H. unfold db.patchGame. by rewrite H. Qed.

Lemma activeCount_withGame d gid j g :
  activeCount (withGame d j g) gid = activeCount d gid.
Proof. reflexivity. Qed.

Lemma nextPlayer_found d gid now g :
  games d !! gid = Some g ->
  nextPlayer gid now d
  = (Returned tt, withGame d gid (turnAdvanced (activeCount d gid) now g)).
Proof.
  intros H. unfold nextPlayer, bind, db.getGame, db.activePlayersByGame.
  rewrite H. unfold turnAdvanced, activeCount.
  destruct (_ <=? _); by rewrite (patchGame_found _ _ g).
Qed.

Lemma nextPlayer_missing d gid now :
  games d !! gid = None ->
  nextPlayer gid now d = (Thrown "Game not found", d).
Proof.
  intros H. unfold nextPlayer, bind, db.getGame. by rewrite H.
Qed.

(** ** Reset *)

(** C6. [resetToLobby] on a stored game, whatever its status and so in
    particular from Results or Ended, returns with status Lobby,
    currentPlayerIndex 0 and currentRound 1, with the secret word, the
    hint, the timer anchor and the votes absent and no imposters; the game
    code, the settings, the selected categories and the total rounds of the
    game, every other game, and the players and categories tables are
    untouched. *)
Theorem C6_reset_clears_round_state (d : Db) (gid : Id) (g : Game) :
  games d !! gid = Some g ->
  exists d' g',
    resetToLobby gid d = (Returned tt, d')
    /\ games d' !! gid = Some g'
    /\ status g' = Lobby
    /\ currentPlayerIndex g' = 0
    /\ currentRound g' = 1
    /\ currentWord g' = None
    /\ hintWord g' = None
    /\ imposters g' = []
    /\ timerStartTime g' = None
    /\ schema.votes g' = None
    /\ gameCode g' = gameCode g
    /\ settings g' = settings g
    /\ selectedCategories g' = selectedCategories g
    /\ totalRounds g' = totalRounds g
    /\ players d' = players d
    /\ categories d' = categories d
    /\ length (games d') = length (games d)
    /\ (forall j, j ≠ gid -> games d' !! j = games d !! j).
Proof.
  intros H. unfold resetToLobby. rewrite (patchGame_found _ _ g) by done.
  eexists _, _. split; [reflexivity|].
  split; [by eapply withGame_lookup|].
  repeat split; try reflexivity.
  - simpl. by rewrite length_insert.
  - intros j Hj. by apply withGame_lookup_ne.
Qed.

Lemma C6_reset_witness :
  status <$> games sample.results3 !! 0%nat = Some Results
  /\ exists d' g',
       resetToLobby 0%nat sample.results3 = (Returned tt, d')
       /\ games d' !! 0%nat = Some g'
       /\ status g' = Lobby
       /\ schema.votes g' = None
       /\ imposters g' = []
       /\ players d' = players sample.results3.
Proof.
  split; [reflexivity|].
  assert (exists g, games sample.results3 !! 0%nat = Some g) as [g E]
    by (eexists; reflexivity).
  destruct (C6_reset_clears_round_state sample.results3 0%nat g E)
    as (d' & g' & H).
  exists d', g'. intuition.
Defined.

(** ** Advancing the turn *)

Lemma advance_app gid ts1 ts2 d :
  GameScreen.advance gid (ts1 ++ ts2) d
  = (GameScreen.advance gid ts1 ;;; GameScreen.advance gid ts2) d.
Proof.
  revert d. induction ts1 as [|t ts1 IH]; intros d; simpl.
  - reflexivity.
  - unfold bind in *. destruct (nextPlayer gid t d) as [[[]| |] d1]; try reflexivity.
    apply IH.
Qed.

(** While the next index stays below the number of players, [k] calls move
    the current index [k] places on and change nothing else. *)
Lemma advance_within (gid : Id) (ts : list Z) : forall (d : Db) (g : Game),
  games d !! gid = Some g ->
  currentPlayerIndex g + Z.of_nat (length ts) < activeCount d gid ->
  GameScreen.advance gid ts d
  = (Returned tt,
     withGame d gid
       (patchGame g [SetCurrentPlayerIndex (currentPlayerIndex g + Z.of_nat (length ts))])).
Proof.
  induction ts as [|t ts IH]; intros d g Hg Hlt.
  - simpl. unfold ret, withGame. f_equal.
    destruct d as [gs ps cs]; simpl in *. f_equal.
    rewrite Z.add_0_r. symmetry. apply list_insert_id.
    destruct g; exact Hg.
  - simpl GameScreen.advance. unfold bind.
    rewrite (nextPlayer_found _ _ _ g Hg).
    simpl length in Hlt.
    unfold turnAdvanced.
    destruct (Z.leb_spec (activeCount d gid) (currentPlayerIndex g + 1)); [lia|].
    erewrite IH; [| by eapply withGame_lookup | rewrite activeCount_withGame; simpl; lia].
    f_equal. unfold withGame; simpl. rewrite list_insert_insert_eq.
    do 3 f_equal. simpl length. lia.
Qed.

(** C4. In a game that is Playing with current index 0 and [N >= 1] active
    players, of [N] successive calls of [nextPlayer] the first [k], for
    every [k < N], leave the game Playing at current index [k] with nothing
    else changed, so the indices 0, 1, ..., N-1 are current one after the
    other; the [N]th call keeps index [N-1], sets the status to Discussion
    and sets the timer anchor to the time of that call when the timer is
    enabled and clears it otherwise. *)
Theorem C4_turn_monotonicity (d : Db) (gid : Id) (g : Game) (nows : list Z) :
  games d !! gid = Some g ->
  status g = Playing ->
  currentPlayerIndex g = 0 ->
  1 <= activeCount d gid ->
  Z.of_nat (length nows) = activeCount d gid ->
  (forall k : nat, Z.of_nat k < activeCount d gid ->
     exists g',
       GameScreen.advance gid (take k nows) d = (Returned tt, withGame d gid g')
       /\ g' = patchGame g [SetCurrentPlayerIndex (Z.of_nat k)]
       /\ status g' = Playing
       /\ currentPlayerIndex g' = Z.of_nat k)
  /\ (exists g' t,
        GameScreen.advance gid nows d = (Returned tt, withGame d gid g')
        /\ last nows = Some t
        /\ g' = patchGame g
                  [SetCurrentPlayerIndex (activeCount d gid - 1);
                   SetStatus Discussion;
                   SetTimerStartTime
                     (if timerEnabled (settings g) then Some t else None)]
        /\ status g' = Discussion
        /\ currentPlayerIndex g' = activeCount d gid - 1
        /\ timerStartTime g'
           = if timerEnabled (settings g) then Some t else None).
Proof.
  intros Hg Hst Hidx Hn Hlen.
  assert (Hwithin : forall ts : list Z, Z.of_nat (length ts) < activeCount d gid ->
            GameScreen.advance gid ts d
            = (Returned tt,
               withGame d gid (patchGame g [SetCurrentPlayerIndex (Z.of_nat (length ts))]))).
  { intros ts Hts. rewrite (advance_within gid ts d g Hg) by lia.
    by rewrite Hidx. }
  split.
  - intros k Hk. eexists. split; [|split; [reflexivity|]].
    + rewrite Hwithin; rewrite length_take; [|lia].
      by replace (k `min` length nows)%nat with k by lia.
    + split; [exact Hst | reflexivity].
  - destruct (exists_last (l := nows)) as (ts & t & ->).
    { intros ->. simpl in Hlen. lia. }
    rewrite length_app in Hlen. simpl in Hlen.
    eexists _, t. split; [|split; [apply last_snoc|split; [reflexivity|]]].
    + rewrite advance_app. unfold bind at 1. rewrite Hwithin by lia.
      simpl GameScreen.advance. unfold bind, ret.
      erewrite nextPlayer_found; [| by eapply withGame_lookup].
      rewrite activeCount_withGame. unfold turnAdvanced. simpl currentPlayerIndex.
      destruct (Z.leb_spec (activeCount d gid) (Z.of_nat (length ts) + 1)); [|lia].
      unfold withGame; simpl. rewrite list_insert_insert_eq.
      do 4 f_equal. unfold patchGame; simpl. f_equal. lia.
    + repeat split.
Qed.

Lemma C4_turn_witness :
  (forall k : nat, Z.of_nat k < 3 ->
     exists g',
       GameScreen.advance 0%nat (take k [2000; 3000; 4000]) sample.playing3
       = (Returned tt, withGame sample.playing3 0%nat g')
       /\ status g' = Playing /\ currentPlayerIndex g' = Z.of_nat k)
  /\ exists g',
       GameScreen.advance 0%nat [2000; 3000; 4000] sample.playing3
       = (Returned tt, withGame sample.playing3 0%nat g')
       /\ status g' = Discussion /\ currentPlayerIndex g' = 2
       /\ timerStartTime g' = Some 4000.
Proof.
  assert (exists g, games sample.playing3 !! 0%nat = Some g) as [g E]
    by (eexists; reflexivity).
  assert (Hs : status g = Playing) by (injection E as <-; reflexivity).
  assert (Hi : currentPlayerIndex g = 0) by (injection E as <-; reflexivity).
  assert (Ht : timerEnabled (settings g) = true) by (injection E as <-; reflexivity).
  destruct (C4_turn_monotonicity sample.playing3 0%nat g [2000; 3000; 4000]
              E Hs Hi) as [H1 H2].
  - vm_compute. discriminate.
  - reflexivity.
  - split.
    + intros k Hk. destruct (H1 k Hk) as (g' & ? & ? & ? & ?). eauto.
    + destruct H2 as (g' & t & Hrun & Hlast & _ & ? & ? & Htm).
      injection Hlast as <-. rewrite Ht in Htm. eauto 10.
Defined.

(** C8 as stated fails. [nextPlayer] does not look at the status: in a
    Lobby game with three players it returns and moves the current index
    to 1, where the statement has it fail and change nothing. *)
Lemma C8_advance_outside_playing :
  status <$> games sample.lobby3 !! 0%nat = Some Lobby
  /\ currentPlayerIndex <$> games sample.lobby3 !! 0%nat = Some 0
  /\ fst (nextPlayer 0%nat 5000 sample.lobby3) = Returned tt
  /\ currentPlayerIndex <$> games (snd (nextPlayer 0%nat 5000 sample.lobby3)) !! 0%nat
     = Some 1
  /\ snd (nextPlayer 0%nat 5000 sample.lobby3) ≠ sample.lobby3.
Proof.
  repeat split; try (vm_compute; reflexivity).
  intros H. apply (f_equal (fun d => currentPlayerIndex <$> games d !! 0%nat)) in H.
  vm_compute in H. discriminate.
Qed.

(** C8, amended. [nextPlayer] has no guard on the status. On a stored game
    of any status it returns, having advanced the current index by one when
    the next index is below the number of active players, and having set
    the status to Discussion and re-anchored the timer otherwise; it leaves
    the players and every other game alone. It fails, with "Game not found"
    and without any change, exactly when the game is not stored. The check
    for the playing phase is made by the caller: a tick of the countdown of
    the game screen calls [nextPlayer] only for a game whose status is
    Playing, and changes nothing otherwise. *)
Theorem C8_advance_is_unguarded (d : Db) (gid : Id) (now : Z) :
  (forall g, games d !! gid = Some g ->
     nextPlayer gid now d
     = (Returned tt, withGame d gid (turnAdvanced (activeCount d gid) now g)))
  /\ (games d !! gid = None ->
      nextPlayer gid now d = (Thrown "Game not found", d))
  /\ (forall g, status g ≠ Playing ->
      GameScreen.tick gid (Some g) now d = (Returned tt, d)).
Proof.
  split; [|split].
  - intros g Hg. by apply nextPlayer_found.
  - apply nextPlayer_missing.
  - intros g Hs. unfold GameScreen.tick.
    destruct (GameScreen.timeRemaining (Some g) now); [|reflexivity].
    rewrite (bool_decide_eq_false_2 _ Hs), andb_false_r. reflexivity.
Qed.

Lemma C8_advance_witness :
  (exists g,
     games sample.results3 !! 0%nat = Some g
     /\ status g = Results
     /\ nextPlayer 0%nat 5000 sample.results3
        = (Returned tt,
           withGame sample.results3 0%nat
             (patchGame g [SetStatus Discussion; SetTimerStartTime (Some 5000)]))
     /\ GameScreen.tick 0%nat (Some g) 5000 sample.results3
        = (Returned tt, sample.results3))
  /\ nextPlayer 7%nat 5000 sample.results3
     = (Thrown "Game not found", sample.results3).
Proof.
  destruct (C8_advance_is_unguarded sample.results3 0%nat 5000) as (H1 & _ & H3).
  destruct (C8_advance_is_unguarded sample.results3 7%nat 5000) as (_ & H2 & _).
  split; [|apply H2; reflexivity].
  eexists. split; [reflexivity|]. split; [reflexivity|]. split.
  - rewrite (H1 _ eq_refl). reflexivity.
  - apply H3. discriminate.
Defined.

(** ** Starting a game *)

(** C7 as stated fails. With two players and no category selected all
    three start conditions are violated, and the error [startGame] throws
    names the first one only, not all of them. *)
Lemma C7_start_error_names_one_condition :
  startGame 0%nat 1000 sample.wordDraw sample.tape sample.lobby2
  = (Thrown "Need at least 3 players to start", sample.lobby2)
  /\ (exists g,
        games sample.lobby2 !! 0%nat = Some g
        /\ violatedStartConditions sample.lobby2 0%nat g
           = [TooFewPlayers; NoCategorySelected; EmptyWordPool])
  /\ reportedStartConditions "Need at least 3 players to start" = [TooFewPlayers]
  /\ ~ (forall c, c ∈ [TooFewPlayers; NoCategorySelected; EmptyWordPool] ->
          c ∈ reportedStartConditions "Need at least 3 players to start").
Proof.
  split; [vm_compute; reflexivity|].
  split; [eexists; split; [reflexivity | vm_compute; reflexivity]|].
  split; [vm_compute; reflexivity|].
  intros H. specialize (H NoCategorySelected).
  assert (Hin : NoCategorySelected ∈ [TooFewPlayers]).
  { apply H. apply list_elem_of_further, list_elem_of_here. }
  apply list_elem_of_singleton in Hin. discriminate.
Qed.

Lemma startGame_found d gid now r0 tape g :
  games d !! gid = Some g ->
  startGame gid now r0 tape d
  = if activeCount d gid <? 3
    then (Thrown "Need at least 3 players to start", d)
    else if bool_decide (length (selectedCategories g) = 0%nat)
    then (Thrown "Select at least one category", d)
    else if bool_decide (length (wordPool d g) = 0%nat)
    then (Thrown "No words found in selected categories", d)
    else
      match nthZ (wordPool d g)
              (randomIndex r0 (Z.of_nat (length (wordPool d g)))) with
      | None => (Thrown type_error, d)
      | Some randomWord =>
          match assignImposters (activeCount d gid)
                  (Z.min (numberOfImposters (settings g)) (activeCount d gid - 1))
                  [] tape with
          | None => (Spinning, d)
          | Some imposterIndices =>
              (Returned tt,
               withGame d gid
                 (patchGame g
                    [SetStatus Playing;
                     SetCurrentPlayerIndex 0;
                     SetCurrentWord (Some (word randomWord));
                     SetHintWord (Some (hint randomWord));
                     SetImposters imposterIndices;
                     SetTimerStartTime
                       (if timerEnabled (settings g) then Some now else None)]))
          end
      end.
Proof.
  intros Hg. unfold startGame, bind, db.getGame, db.activePlayersByGame.
  rewrite Hg. fold (activeCount d gid).
  destruct (_ <? 3); [reflexivity|].
  destruct (bool_decide (length (selectedCategories g) = _)); [reflexivity|].
  unfold db.categoriesNamed. fold (wordPool d g).
  destruct (bool_decide (length (wordPool d g) = _)); [reflexivity|].
  destruct (nthZ _ _); [|reflexivity].
  destruct (assignImposters _ _ _ _); [|reflexivity].
  by rewrite (patchGame_found _ _ g).
Qed.

(** C7, amended. [startGame] checks the start conditions one after the
    other and throws at the first that fails, so the error names that one
    condition: fewer than three active players; else no category selected;
    else no word in the selected categories. Whenever [startGame] does not
    return, the database is unchanged, so the status remains what it was. *)
Theorem C7_start_reports_first_violation
    (d : Db) (gid : Id) (g : Game) (now : Z) (r0 : Q) (tape : list Q) :
  games d !! gid = Some g ->
  (activeCount d gid < 3 ->
     startGame gid now r0 tape d
     = (Thrown "Need at least 3 players to start", d))
  /\ (3 <= activeCount d gid -> selectedCategories g = [] ->
      startGame gid now r0 tape d = (Thrown "Select at least one category", d))
  /\ (3 <= activeCount d gid -> selectedCategories g ≠ [] -> wordPool d g = [] ->
      startGame gid now r0 tape d
      = (Thrown "No words found in selected categories", d))
  /\ (fst (startGame gid now r0 tape d) ≠ Returned tt ->
      snd (startGame gid now r0 tape d) = d).
Proof.
  intros Hg. rewrite (startGame_found _ _ _ _ _ g Hg).
  repeat split.
  - intros H. by destruct (Z.ltb_spec (activeCount d gid) 3); [|lia].
  - intros H ->. by destruct (Z.ltb_spec (activeCount d gid) 3); [lia|].
  - intros H Hc ->. destruct (Z.ltb_spec (activeCount d gid) 3); [lia|].
    rewrite bool_decide_eq_false_2; [done|].
    by destruct (selectedCategories g).
  - repeat case_match; simpl; try done.
Qed.

Lemma C7_start_witness :
  startGame 0%nat 1000 sample.wordDraw sample.tape sample.lobby2
  = (Thrown "Need at least 3 players to start", sample.lobby2)
  /\ snd (startGame 0%nat 1000 sample.wordDraw sample.tape sample.lobby2)
     = sample.lobby2.
Proof.
  assert (exists g, games sample.lobby2 !! 0%nat = Some g) as [g E]
    by (eexists; reflexivity).
  destruct (C7_start_reports_first_violation sample.lobby2 0%nat g 1000
              sample.wordDraw sample.tape E) as (H1 & _ & _ & H4).
  split.
  - apply H1. vm_compute. reflexivity.
  - apply H4. rewrite H1 by (vm_compute; reflexivity). discriminate.
Defined.

(** ** Submitting the votes *)

Lemma submitVotes_found d gid g ballot :
  games d !! gid = Some g ->
  v_record ballot = true ->
  submitVotes gid ballot d
  = (Returned tt,
     withGame d gid (patchGame g [SetStatus Results; SetVotes (Some ballot)])).
Proof. intros Hg Hv. unfold submitVotes. rewrite Hv. by apply patchGame_found. Qed.

Lemma submitVotes_refused d gid ballot :
  v_record ballot = false ->
  submitVotes gid ballot d = (Thrown argument_validation_error, d).
Proof. intros Hv. unfold submitVotes. by rewrite Hv. Qed.

(** The string form of a document id is made of decimal digits, so it is a
    valid key of a record. *)
Lemma pretty_N_char_decimal (x : N) :
  (48 <= Ascii.nat_of_ascii (pretty_N_char x) < 58)%nat.
Proof. unfold pretty_N_char. repeat case_match; vm_compute; lia. Qed.

Lemma pretty_N_go_decimal (x : N) : forall s : string,
  decimal s -> (s ≠ EmptyString \/ x ≠ 0%N) ->
  decimal (pretty_N_go x s) /\ pretty_N_go x s ≠ EmptyString.
Proof.
  induction (N.lt_wf_0 x) as [x _ IH]. intros s Hs Hne.
  destruct (decide (x = 0%N)) as [->|Hx].
  - rewrite pretty_N_go_0. split; [done|]. by destruct Hne.
  - rewrite pretty_N_go_step by lia. apply IH.
    + apply N.div_lt; lia.
    + constructor; [apply pretty_N_char_decimal | exact Hs].
    + by left.
Qed.

Lemma idKey_decimal (i : Id) : decimal (idKey i) /\ idKey i ≠ EmptyString.
Proof.
  unfold idKey, pretty, pretty_nat, pretty, pretty_N.
  case_decide as Hz.
  - split; [|done]. repeat constructor; vm_compute; lia.
  - apply pretty_N_go_decimal; [constructor | by right].
Qed.

Lemma decimal_recordKey (k : string) :
  decimal k -> k ≠ EmptyString -> recordKey k = true.
Proof.
  intros Hd Hne. destruct k as [|c k]; [done|]. unfold recordKey.
  unfold decimal in Hd. pose proof (Forall_inv Hd) as Hc.
  assert (Hp : forallb printable (String.list_ascii_of_string (String c k)) = true).
  { apply forallb_forall. intros x Hx%list_elem_of_In.
    rewrite Forall_forall in Hd. specialize (Hd x Hx). unfold printable.
    apply andb_true_iff. split; [apply Nat.leb_le | apply Nat.ltb_lt]; lia. }
  rewrite Hp.
  assert (c ≠ "$"%char) by (intros ->; vm_compute in Hc; lia).
  assert (c ≠ "_"%char) by (intros ->; vm_compute in Hc; lia).
  rewrite (proj2 (Ascii.eqb_neq c "$"%char)), (proj2 (Ascii.eqb_neq c "_"%char))
    by done.
  reflexivity.
Qed.

Lemma idKey_recordKey (i : Id) : recordKey (idKey i) = true.
Proof. destruct (idKey_decimal i). by apply decimal_recordKey. Qed.

Lemma v_record_spec (ballot : gmap string Z) :
  v_record ballot = true
  <-> forall k v, ballot !! k = Some v -> recordKey k = true.
Proof.
  unfold v_record. rewrite forallb_forall. split.
  - intros H k v Hk. apply H, list_elem_of_In.
    apply list_elem_of_fmap. exists (k, v). split; [done|].
    by apply elem_of_map_to_list.
  - intros H k Hk%list_elem_of_In. apply list_elem_of_fmap in Hk as [[k' v] [-> Hk]].
    apply elem_of_map_to_list in Hk. by eapply H.
Qed.

(** C2 as stated fails. The mutation [submitVotes] has no check: in the
    Discussion game with three active players, a mapping with an entry for
    the first player only is accepted, the status becomes Results and the
    mapping is stored, so the keys of the stored votes are not the ids of
    the active players. *)
Lemma C2_incomplete_votes_accepted :
  length (activePlayersOf 0%nat (players sample.discussion3)) = 3%nat
  /\ ({[idKey 0%nat := 2]} : gmap string Z) !! idKey 1%nat = None
  /\ status <$> games sample.discussion3 !! 0%nat = Some Discussion
  /\ fst (submitVotes 0%nat {[idKey 0%nat := 2]} sample.discussion3) = Returned tt
  /\ status
       <$> games (snd (submitVotes 0%nat {[idKey 0%nat := 2]} sample.discussion3))
           !! 0%nat
     = Some Results
  /\ schema.votes
       <$> games (snd (submitVotes 0%nat {[idKey 0%nat := 2]} sample.discussion3))
           !! 0%nat
     = Some (Some {[idKey 0%nat := 2]}).
Proof. repeat split; vm_compute; reflexivity. Qed.

(** C2, amended. The mutation [submitVotes] makes no coverage check. Its
    only check is the validation of the [votes] argument as a record: a
    mapping with a key that is not a field name is refused with an argument
    validation error and nothing is stored, and a mapping keyed by document
    ids always passes. On a stored game a mapping that passes is accepted
    whatever players its keys cover: the call returns, sets the status to
    Results and stores the mapping as given. The all-or-nothing check is
    made by the caller, [handleSubmitVotes] of the results screen, against
    the roster the screen holds: when some player of that roster has no
    entry in the mapping the handler shows the alert "Niet alle spelers
    hebben gestemd!" and does not call the mutation, so the status and the
    stored votes keep their values; when every player of the roster has an
    entry, the mapping is submitted, and if it passes the validation it is
    stored as given, so the keys of the stored votes include the id of
    every player of that roster; if it does not, the handler reports the
    failure and nothing is stored. *)
Theorem C2_votes_checked_by_the_screen
    (d : Db) (gid : Id) (g : Game) (roster : list (Doc Player))
    (ballot : gmap string Z) :
  games d !! gid = Some g ->
  (v_record ballot = true ->
   submitVotes gid ballot d
   = (Returned tt,
      withGame d gid (patchGame g [SetStatus Results; SetVotes (Some ballot)])))
  /\ (v_record ballot = false ->
      submitVotes gid ballot d = (Thrown argument_validation_error, d))
  /\ ((forall k, is_Some (ballot !! k) -> exists i : Id, k = idKey i) ->
      v_record ballot = true)
  /\ ((exists p, p ∈ roster /\ ballot !! idKey (fst p) = None) ->
      ResultsScreen.handleSubmitVotes gid (Some roster) ballot d
      = (ResultsScreen.Alert "Wacht even" "Niet alle spelers hebben gestemd!", d))
  /\ ((forall p, p ∈ roster -> is_Some (ballot !! idKey (fst p))) ->
      (v_record ballot = true ->
       exists g',
         ResultsScreen.handleSubmitVotes gid (Some roster) ballot d
         = (ResultsScreen.ShowResults, withGame d gid g')
         /\ status g' = Results
         /\ schema.votes g' = Some ballot
         /\ forall p, p ∈ roster -> idKey (fst p) ∈ dom ballot)
      /\ (v_record ballot = false ->
          ResultsScreen.handleSubmitVotes gid (Some roster) ballot d
          = (ResultsScreen.Alert "Error" "Failed to submit votes", d))).
Proof.
  intros Hg. split; [by apply submitVotes_found|].
  split; [by apply submitVotes_refused|]. split; [|split].
  - intros Hids. apply v_record_spec. intros k v Hk.
    destruct (Hids k) as [i ->]; [by eexists|]. apply idKey_recordKey.
  - intros (p & Hp & Hnone). unfold ResultsScreen.handleSubmitVotes.
    replace (forallb _ roster) with false; [reflexivity|].
    symmetry. apply not_true_is_false. intros Hall.
    rewrite forallb_forall in Hall. apply list_elem_of_In, Hall in Hp.
    apply bool_decide_eq_true in Hp. done.
  - intros Hall.
    split; intros Hv; unfold ResultsScreen.handleSubmitVotes;
      (replace (forallb _ roster) with true;
       [|symmetry; apply forallb_forall; intros p Hp%list_elem_of_In;
         apply bool_decide_eq_true; destruct (Hall p Hp) as [v Hv'];
         by rewrite Hv']);
      simpl negb; cbv iota.
    + rewrite (submitVotes_found _ _ g) by done. eexists.
      split; [reflexivity|]. split; [reflexivity|]. split; [reflexivity|].
      intros p Hp. apply elem_of_dom. by apply Hall.
    + by rewrite submitVotes_refused.
Qed.

Lemma C2_votes_witness :
  ResultsScreen.handleSubmitVotes 0%nat
    (Some (activePlayersOf 0%nat (players sample.discussion3)))
    {[idKey 0%nat := 2]} sample.discussion3
  = (ResultsScreen.Alert "Wacht even" "Niet alle spelers hebben gestemd!",
     sample.discussion3)
  /\ submitVotes 0%nat {["$x" := 1]} sample.discussion3
     = (Thrown argument_validation_error, sample.discussion3)
  /\ exists g',
       ResultsScreen.handleSubmitVotes 0%nat
         (Some (activePlayersOf 0%nat (players sample.discussion3)))
         sample.ballot3 sample.discussion3
       = (ResultsScreen.ShowResults, withGame sample.discussion3 0%nat g')
       /\ status g' = Results
       /\ schema.votes g' = Some sample.ballot3.
Proof.
  assert (exists g, games sample.discussion3 !! 0%nat = Some g) as [g E]
    by (eexists; reflexivity).
  split; [|split].
  - destruct (C2_votes_checked_by_the_screen sample.discussion3 0%nat g
                (activePlayersOf 0%nat (players sample.discussion3))
                {[idKey 0%nat := 2]} E) as (_ & _ & _ & H & _).
    apply H.
    exists (1%nat, {| gameId := 0%nat; name := "Speler 2"; color := "#4ECDC4";
                      index := 1; isActive := true |}).
    split; [|vm_compute; reflexivity].
    apply list_elem_of_further, list_elem_of_here.
  - destruct (C2_votes_checked_by_the_screen sample.discussion3 0%nat g
                [] {["$x" := 1]} E) as (_ & H & _).
    apply H. vm_compute. reflexivity.
  - destruct (C2_votes_checked_by_the_screen sample.discussion3 0%nat g
                (activePlayersOf 0%nat (players sample.discussion3))
                sample.ballot3 E) as (_ & _ & _ & _ & H).
    destruct H as [H _].
    + intros p Hp.
      assert (Hk : bool_decide (is_Some (sample.ballot3 !! idKey (fst p))) = true).
      { revert p Hp. apply Forall_forall. vm_compute.
        repeat constructor. }
      by apply bool_decide_eq_true in Hk.
    + destruct H as (g' & H1 & H2 & H3 & _); [vm_compute; reflexivity|]. eauto.
Defined.

(** ** The countdown *)


(** *** Rounding to the nearest double *)

Lemma pow2_pos (e : Z) : (0 < IEEE.pow2 e)%Q.
Proof. apply Qpower_0_lt. reflexivity. Qed.

Lemma pow2_add (a b : Z) : (IEEE.pow2 (a + b) == IEEE.pow2 a * IEEE.pow2 b)%Q.
Proof. apply Qpower_plus. discriminate. Qed.

Lemma pow2_Z (e : Z) : 0 <= e -> (IEEE.pow2 e == inject_Z (2 ^ e))%Q.
Proof. intros He. unfold IEEE.pow2. by rewrite Zpower_Qpower. Qed.

Lemma pow2_succ (e : Z) : (IEEE.pow2 (e + 1) == 2 * IEEE.pow2 e)%Q.
Proof. rewrite pow2_add. unfold IEEE.pow2 at 2. simpl. lra. Qed.

Lemma pow2_le (a b : Z) : a <= b -> (IEEE.pow2 a <= IEEE.pow2 b)%Q.
Proof.
  intros Hab. replace b with (a + (b - a)) by lia. rewrite pow2_add.
  assert (H1 : (1 <= IEEE.pow2 (b - a))%Q).
  { rewrite pow2_Z by lia. change 1%Q with (inject_Z 1). rewrite <- Zle_Qle.
    pose proof (Z.pow_pos_nonneg 2 (b - a)). lia. }
  pose proof (pow2_pos a). nra.
Qed.

Lemma pow2_lt (a b : Z) : a < b -> (IEEE.pow2 a < IEEE.pow2 b)%Q.
Proof.
  intros Hab. apply Qlt_le_trans with (IEEE.pow2 (a + 1)); [|apply pow2_le; lia].
  rewrite pow2_succ. pose proof (pow2_pos a). lra.
Qed.

Lemma pow2_lt_inv (a b : Z) : (IEEE.pow2 a < IEEE.pow2 b)%Q -> a < b.
Proof.
  intros H. destruct (Z.lt_ge_cases a b) as [|Hge]; [done|].
  apply pow2_le in Hge. lra.
Qed.

Lemma pow2_sub (a b : Z) : (IEEE.pow2 (a - b) == IEEE.pow2 a / IEEE.pow2 b)%Q.
Proof. apply Qpower_minus. discriminate. Qed.

Lemma Qdiv_le_cross (a b c d : Q) :
  (0 < b)%Q -> (0 < d)%Q -> (a * d <= c * b)%Q -> (a / b <= c / d)%Q.
Proof.
  intros Hb Hd H. apply Qle_shift_div_r; [done|].
  assert (E : (c / d * b == c * b / d)%Q) by (field; lra). rewrite E.
  by apply Qle_shift_div_l.
Qed.

Lemma Qdiv_lt_cross (a b c d : Q) :
  (0 < b)%Q -> (0 < d)%Q -> (a * d < c * b)%Q -> (a / b < c / d)%Q.
Proof.
  intros Hb Hd H. apply Qlt_shift_div_r; [done|].
  assert (E : (c / d * b == c * b / d)%Q) by (field; lra). rewrite E.
  by apply Qlt_shift_div_l.
Qed.

Lemma ilog2_spec (q : Q) :
  (0 < q)%Q -> (IEEE.pow2 (IEEE.ilog2 q) <= q < IEEE.pow2 (IEEE.ilog2 q + 1))%Q.
Proof.
  intros Hq. destruct q as [n d]. unfold IEEE.ilog2. cbn [Qnum Qden].
  assert (Hn : 0 < n) by (unfold Qlt in Hq; simpl in Hq; lia).
  set (a := Z.log2 n). set (b := Z.log2 (Z.pos d)).
  pose proof (Z.log2_spec n Hn) as Ha. fold a in Ha.
  pose proof (Z.log2_spec (Z.pos d) eq_refl) as Hb. fold b in Hb.
  pose proof (Z.log2_nonneg n) as Ha0. fold a in Ha0.
  pose proof (Z.log2_nonneg (Z.pos d)) as Hb0. fold b in Hb0.
  rewrite (Z.pow_succ_r 2 a), (Z.pow_succ_r 2 b) in * by lia.
  assert (Hpa : 0 < 2 ^ a) by (apply Z.pow_pos_nonneg; lia).
  assert (Hpb : 0 < 2 ^ b) by (apply Z.pow_pos_nonneg; lia).
  assert (Hq' : (n # d == inject_Z n / inject_Z (Z.pos d))%Q) by apply Qmake_Qdiv.
  assert (Hd : (0 < inject_Z (Z.pos d))%Q) by reflexivity.
  assert (HA : (IEEE.pow2 a == inject_Z (2 ^ a))%Q) by (by apply pow2_Z).
  assert (HB : (IEEE.pow2 b == inject_Z (2 ^ b))%Q) by (by apply pow2_Z).
  assert (HpB : (0 < inject_Z (2 ^ b))%Q)
    by (change 0%Q with (inject_Z 0); rewrite <- Zlt_Qlt; lia).
  assert (Hlow : (IEEE.pow2 (a - b - 1) <= n # d)%Q).
  { replace (a - b - 1) with (a - (b + 1)) by lia.
    rewrite pow2_sub, pow2_succ, HA, HB, Hq'.
    apply Qdiv_le_cross; [lra|done|].
    change 2%Q with (inject_Z 2). rewrite <- !inject_Z_mult, <- Zle_Qle. nia. }
  assert (Hhigh : (n # d < IEEE.pow2 (a - b + 1))%Q).
  { rewrite pow2_succ, pow2_sub, HA, HB, Hq'.
    assert (E : (2 * (inject_Z (2 ^ a) / inject_Z (2 ^ b))
                 == inject_Z (2 * 2 ^ a) / inject_Z (2 ^ b))%Q).
    { rewrite inject_Z_mult. change (inject_Z 2) with 2%Q. field. lra. }
    rewrite E. apply Qdiv_lt_cross; [done|done|].
    rewrite <- !inject_Z_mult, <- Zlt_Qlt. nia. }
  destruct (Qle_bool (IEEE.pow2 (a - b)) (n # d)) eqn:Hcmp.
  - apply Qle_bool_iff in Hcmp. done.
  - assert (Hlt : (n # d < IEEE.pow2 (a - b))%Q).
    { apply Qnot_le_lt. intros Hle. apply Qle_bool_iff in Hle. congruence. }
    replace (a - b - 1 + 1) with (a - b) by lia. done.
Qed.

Lemma ilog2_unique (q : Q) (e : Z) :
  (IEEE.pow2 e <= q < IEEE.pow2 (e + 1))%Q -> IEEE.ilog2 q = e.
Proof.
  intros [Hlo Hhi].
  assert (Hq : (0 < q)%Q) by (pose proof (pow2_pos e); lra).
  destruct (ilog2_spec q Hq) as [Hlo' Hhi'].
  assert (IEEE.ilog2 q < e + 1) by (apply pow2_lt_inv; lra).
  assert (e < IEEE.ilog2 q + 1) by (apply pow2_lt_inv; lra).
  lia.
Qed.

Lemma ilog2_compat (p q : Q) : (0 < p)%Q -> (p == q)%Q -> IEEE.ilog2 p = IEEE.ilog2 q.
Proof.
  intros Hp E. apply ilog2_unique. rewrite E.
  apply ilog2_spec. by rewrite <- E.
Qed.

(** Rounding to the nearest integer, ties to even. *)
Lemma rne_cases (x : Q) :
  let f := Qfloor x in
  (inject_Z f <= x < inject_Z f + 1)%Q
  /\ ((x - inject_Z f < 1 # 2)%Q /\ IEEE.rne x = f
      \/ (1 # 2 < x - inject_Z f)%Q /\ IEEE.rne x = f + 1
      \/ (x - inject_Z f == 1 # 2)%Q /\ Z.even (IEEE.rne x) = true
         /\ (IEEE.rne x = f \/ IEEE.rne x = f + 1)).
Proof.
  intros f. split.
  - split; [apply Qfloor_le|]. pose proof (Qlt_floor x) as H.
    rewrite inject_Z_plus in H. exact H.
  - unfold IEEE.rne. fold f.
    destruct (x - inject_Z f ?= 1 # 2)%Q eqn:Hc.
    + right. right. apply Qeq_alt in Hc. split; [done|].
      destruct (Z.even f) eqn:He; [by auto|].
      split; [|by right]. rewrite Z.even_add, He. reflexivity.
    + left. by apply Qlt_alt in Hc.
    + right. left. by apply Qgt_alt in Hc.
Qed.

Lemma rne_error (x : Q) : (Qabs (inject_Z (IEEE.rne x) - x) <= 1 # 2)%Q.
Proof.
  destruct (rne_cases x) as [[Hlo Hhi] [[H ->]|[[H ->]|(H & _ & [-> | ->])]]];
    apply Qabs_Qle_condition; rewrite ?inject_Z_plus; change (inject_Z 1) with 1%Q;
    split; lra.
Qed.

Lemma rne_Z (z : Z) : IEEE.rne (inject_Z z) = z.
Proof.
  destruct (rne_cases (inject_Z z)) as [_ H]. rewrite Qfloor_Z in H.
  destruct H as [[_ H]|[[H _]|[H _]]]; [done|lra|lra].
Qed.

Lemma Qfloor_compat (x y : Q) : (x == y)%Q -> Qfloor x = Qfloor y.
Proof. intros E. apply Z.le_antisymm; apply Qfloor_resp_le; lra. Qed.

Lemma rne_compat (x y : Q) : (x == y)%Q -> IEEE.rne x = IEEE.rne y.
Proof.
  intros E. unfold IEEE.rne. rewrite (Qfloor_compat x y E).
  assert (Hc : (x - inject_Z (Qfloor y) ?= 1 # 2)%Q
               = (y - inject_Z (Qfloor y) ?= 1 # 2)%Q).
  { apply Qcompare_comp; [|reflexivity]. by rewrite E. }
  by rewrite Hc.
Qed.

(** The nearest integer: no integer is closer. *)
Lemma rne_nearest (x : Q) (z : Z) :
  (Qabs (inject_Z (IEEE.rne x) - x) <= Qabs (inject_Z z - x))%Q.
Proof.
  pose proof (rne_error x) as He.
  destruct (rne_cases x) as [[Hlo Hhi] Hc].
  set (f := Qfloor x) in *.
  destruct (Z.le_gt_cases z f) as [Hz|Hz].
  - assert (Hz' : (inject_Z z <= inject_Z f)%Q) by (by rewrite <- Zle_Qle).
    rewrite (Qabs_neg (inject_Z z - x)) by lra.
    destruct Hc as [[H ->]|[[H ->]|(H & _ & [-> | ->])]];
      apply Qabs_Qle_condition; rewrite ?inject_Z_plus;
      change (inject_Z 1) with 1%Q; split; lra.
  - assert (Hz' : (inject_Z f + 1 <= inject_Z z)%Q).
    { change 1%Q with (inject_Z 1). rewrite <- inject_Z_plus, <- Zle_Qle. lia. }
    rewrite (Qabs_pos (inject_Z z - x)) by lra.
    destruct Hc as [[H ->]|[[H ->]|(H & _ & [-> | ->])]];
      apply Qabs_Qle_condition; rewrite ?inject_Z_plus;
      change (inject_Z 1) with 1%Q; split; lra.
Qed.

Lemma ulp_pos (q : Q) : (0 < IEEE.ulp q)%Q.
Proof. apply pow2_pos. Qed.

Lemma Qabs_pos_iff (q : Q) : ~ (q == 0)%Q -> (0 < Qabs q)%Q.
Proof.
  intros Hq. destruct (Q_dec q 0) as [[Hlt|Hgt]|Heq]; [| |done].
  - rewrite Qabs_neg; lra.
  - rewrite Qabs_pos; lra.
Qed.

Lemma ulp_compat (p q : Q) :
  ~ (p == 0)%Q -> (p == q)%Q -> IEEE.ulp p = IEEE.ulp q.
Proof.
  intros Hp E. unfold IEEE.ulp. f_equal. f_equal. f_equal.
  apply ilog2_compat; [by apply Qabs_pos_iff | by rewrite E].
Qed.

Lemma round64_value (q : Q) :
  ~ (q == 0)%Q ->
  (IEEE.round64 q == inject_Z (IEEE.rne (q / IEEE.ulp q)) * IEEE.ulp q)%Q.
Proof.
  intros Hq. unfold IEEE.round64.
  destruct (Qeq_bool q 0) eqn:E; [by apply Qeq_bool_iff in E|].
  apply Qred_correct.
Qed.

Lemma round64_zero (q : Q) : (q == 0)%Q -> IEEE.round64 q = 0%Q.
Proof.
  intros Hq. unfold IEEE.round64. apply Qeq_bool_iff in Hq. by rewrite Hq.
Qed.

Lemma round64_compat (p q : Q) : (p == q)%Q -> IEEE.round64 p = IEEE.round64 q.
Proof.
  intros E. unfold IEEE.round64.
  destruct (Qeq_bool p 0) eqn:Hp.
  - apply Qeq_bool_iff in Hp. rewrite E in Hp. apply Qeq_bool_iff in Hp.
    by rewrite Hp.
  - assert (Hp' : ~ (p == 0)%Q) by (intros H; apply Qeq_bool_iff in H; congruence).
    destruct (Qeq_bool q 0) eqn:Hq.
    { apply Qeq_bool_iff in Hq. rewrite <- E in Hq. done. }
    apply Qred_complete. rewrite (ulp_compat p q Hp' E).
    rewrite (rne_compat (p / IEEE.ulp q) (q / IEEE.ulp q)); [reflexivity|].
    by rewrite E.
Qed.

(** The result is the multiple of the unit in the last place nearest to the
    argument. *)
Lemma round64_nearest (q : Q) (z : Z) :
  ~ (q == 0)%Q ->
  (Qabs (IEEE.round64 q - q) <= Qabs (inject_Z z * IEEE.ulp q - q))%Q.
Proof.
  intros Hq. rewrite (round64_value q Hq).
  pose proof (ulp_pos q) as Hu. set (u := IEEE.ulp q) in *.
  pose proof (rne_nearest (q / u) z) as Hn.
  assert (E : forall m : Z,
            (inject_Z m * u - q == (inject_Z m - q / u) * u)%Q)
    by (intros m; field; lra).
  rewrite !E, !Qabs_Qmult, (Qabs_pos u) by lra.
  apply Qmult_le_compat_r; [done | lra].
Qed.

Lemma round64_error (q : Q) :
  (Qabs (IEEE.round64 q - q) <= IEEE.ulp q * (1 # 2))%Q.
Proof.
  destruct (Qeq_dec q 0) as [Hz|Hq].
  - rewrite (round64_zero q Hz). pose proof (ulp_pos q).
    apply Qabs_Qle_condition. split; lra.
  - rewrite (round64_value q Hq).
    pose proof (ulp_pos q) as Hu. set (u := IEEE.ulp q) in *.
    pose proof (rne_error (q / u)) as Hn.
    assert (E : (inject_Z (IEEE.rne (q / u)) * u - q
                 == (inject_Z (IEEE.rne (q / u)) - q / u) * u)%Q)
      by (field; lra).
    rewrite E, Qabs_Qmult, (Qabs_pos u) by lra.
    rewrite (Qmult_comm u). apply Qmult_le_compat_r; [done | lra].
Qed.

(** A value with a significand below 2^53 at an exponent from -1074 on is
    a double: rounding leaves it as it is. *)
Lemma round64_dyadic (q : Q) (m k : Z) :
  (q == inject_Z m * IEEE.pow2 k)%Q ->
  Z.abs m < 2 ^ 53 -> -1074 <= k ->
  (IEEE.round64 q == q)%Q.
Proof.
  intros E Hm Hk. destruct (Qeq_dec q 0) as [Hz|Hq].
  { rewrite (round64_zero q Hz). lra. }
  assert (Habs : (Qabs q == inject_Z (Z.abs m) * IEEE.pow2 k)%Q).
  { rewrite E, Qabs_Qmult, (Qabs_pos (IEEE.pow2 k)).
    - reflexivity.
    - pose proof (pow2_pos k). lra. }
  assert (Hlt : (Qabs q < IEEE.pow2 (53 + k))%Q).
  { rewrite Habs, pow2_add, (pow2_Z 53) by lia.
    apply Qmult_lt_compat_r; [apply pow2_pos|]. by rewrite <- Zlt_Qlt. }
  pose proof (ilog2_spec (Qabs q) (Qabs_pos_iff q Hq)) as [Hlo _].
  assert (He : IEEE.ilog2 (Qabs q) < 53 + k) by (apply pow2_lt_inv; lra).
  set (ue := Z.max (IEEE.ilog2 (Qabs q)) (-1022) - 52).
  assert (Hue : ue <= k) by lia.
  assert (Hdiv : (q / IEEE.ulp q == inject_Z (m * 2 ^ (k - ue)))%Q).
  { unfold IEEE.ulp. fold ue. rewrite E, inject_Z_mult, <- (pow2_Z (k - ue)) by lia.
    rewrite pow2_sub. pose proof (pow2_pos ue). field. lra. }
  rewrite (round64_value q Hq), (rne_compat _ _ Hdiv), rne_Z.
  unfold IEEE.ulp. fold ue. rewrite E, inject_Z_mult, <- (pow2_Z (k - ue)) by lia.
  rewrite pow2_sub. pose proof (pow2_pos ue). field. lra.
Qed.

(** Bounds on the unit in the last place. *)
Lemma ulp_le (q : Q) :
  (IEEE.pow2 (-1022) <= Qabs q)%Q -> (IEEE.ulp q <= Qabs q * IEEE.pow2 (-52))%Q.
Proof.
  intros Hn.
  assert (Hq : (0 < Qabs q)%Q) by (pose proof (pow2_pos (-1022)); lra).
  destruct (ilog2_spec (Qabs q) Hq) as [Hlo Hhi].
  assert (He : -1022 - 1 < IEEE.ilog2 (Qabs q)).
  { assert (-1022 < IEEE.ilog2 (Qabs q) + 1) by (apply pow2_lt_inv; lra). lia. }
  unfold IEEE.ulp. rewrite Z.max_l by lia.
  replace (IEEE.ilog2 (Qabs q) - 52) with (IEEE.ilog2 (Qabs q) + -52) by lia.
  rewrite pow2_add. apply Qmult_le_compat_r; [done|].
  pose proof (pow2_pos (-52)). lra.
Qed.

Lemma ulp_of_bounded (q : Q) (e : Z) :
  ~ (q == 0)%Q -> (Qabs q < IEEE.pow2 e)%Q -> -1021 <= e ->
  exists ue, IEEE.ulp q = IEEE.pow2 ue /\ ue <= e - 53 /\ -1074 <= ue.
Proof.
  intros Hq Hlt He.
  destruct (ilog2_spec (Qabs q) (Qabs_pos_iff q Hq)) as [Hlo _].
  assert (IEEE.ilog2 (Qabs q) < e) by (apply pow2_lt_inv; lra).
  exists (Z.max (IEEE.ilog2 (Qabs q)) (-1022) - 52). split; [reflexivity|]. lia.
Qed.

(** An integer is a multiple of every unit in the last place not above 1. *)
Lemma multiple_of_ulp (n ue : Z) :
  ue <= 0 -> (inject_Z n == inject_Z (n * 2 ^ (- ue)) * IEEE.pow2 ue)%Q.
Proof.
  intros Hue. rewrite inject_Z_mult, <- (pow2_Z (- ue)) by lia.
  rewrite <- Qmult_assoc, <- pow2_add. replace (- ue + ue) with 0 by lia.
  unfold IEEE.pow2 at 1. simpl. lra.
Qed.

(** Rounding does not cross an integer, from either side, while the unit in
    the last place is at most 1. *)
Lemma round64_ge_Z (q : Q) (n : Z) :
  (Qabs q < IEEE.pow2 53)%Q -> (inject_Z n <= q)%Q -> (inject_Z n <= IEEE.round64 q)%Q.
Proof.
  intros Hb Hn. destruct (Qeq_dec q 0) as [Hz|Hq].
  { rewrite (round64_zero q Hz). lra. }
  destruct (ulp_of_bounded q 53 Hq Hb) as (ue & Hu & Hue & _); [lia|].
  pose proof (round64_nearest q (n * 2 ^ (- ue)) Hq) as Hnear.
  rewrite Hu, <- (multiple_of_ulp n ue) in Hnear by lia.
  destruct (Qlt_le_dec (IEEE.round64 q) (inject_Z n)) as [Hlt|]; [|done].
  exfalso. rewrite (Qabs_neg (IEEE.round64 q - q)) in Hnear by lra.
  rewrite (Qabs_neg (inject_Z n - q)) in Hnear by lra. lra.
Qed.

Lemma round64_le_Z (q : Q) (n : Z) :
  (Qabs q < IEEE.pow2 53)%Q -> (q <= inject_Z n)%Q -> (IEEE.round64 q <= inject_Z n)%Q.
Proof.
  intros Hb Hn. destruct (Qeq_dec q 0) as [Hz|Hq].
  { rewrite (round64_zero q Hz). lra. }
  destruct (ulp_of_bounded q 53 Hq Hb) as (ue & Hu & Hue & _); [lia|].
  pose proof (round64_nearest q (n * 2 ^ (- ue)) Hq) as Hnear.
  rewrite Hu, <- (multiple_of_ulp n ue) in Hnear by lia.
  destruct (Qlt_le_dec (inject_Z n) (IEEE.round64 q)) as [Hlt|]; [|done].
  exfalso. rewrite (Qabs_pos (IEEE.round64 q - q)) in Hnear by lra.
  rewrite (Qabs_pos (inject_Z n - q)) in Hnear by lra. lra.
Qed.

Lemma round64_Z (n : Z) : Z.abs n < 2 ^ 53 -> (IEEE.round64 (inject_Z n) == inject_Z n)%Q.
Proof.
  intros Hn. apply (round64_dyadic _ n 0); [|done|lia].
  unfold IEEE.pow2. simpl. lra.
Qed.

Lemma pow2_53 : (IEEE.pow2 53 == inject_Z (2 ^ 53))%Q.
Proof. by apply pow2_Z. Qed.

Lemma elapsed_value (anchor now : Z) :
  safeInteger anchor -> safeInteger now -> safeInteger (now - anchor) ->
  Timer.elapsed anchor now = IEEE.round64 (inject_Z (now - anchor) / 1000).
Proof.
  intros Ha Hn Hd. unfold Timer.elapsed, IEEE.div, IEEE.sub, IEEE.number.
  apply round64_compat.
  assert (E : (IEEE.round64 (IEEE.round64 (inject_Z now) - IEEE.round64 (inject_Z anchor))
               == inject_Z (now - anchor))%Q).
  { assert (E' : IEEE.round64 (IEEE.round64 (inject_Z now) - IEEE.round64 (inject_Z anchor))
                 = IEEE.round64 (inject_Z (now - anchor))).
    { apply round64_compat. rewrite (round64_Z now Hn), (round64_Z anchor Ha).
      unfold Z.sub. rewrite inject_Z_plus, inject_Z_opp. reflexivity. }
    rewrite E'. by apply round64_Z. }
  rewrite E. assert (safeInteger 1000) by (unfold safeInteger; simpl; lia).
  rewrite (round64_Z 1000) by done. reflexivity.
Qed.

Lemma remaining_value (duration anchor now : Z) :
  safeInteger duration ->
  Timer.remaining duration anchor now
  = Qmax 0 (IEEE.round64 (inject_Z duration - Timer.elapsed anchor now)).
Proof.
  intros Hd. unfold Timer.remaining, IEEE.sub, IEEE.number. f_equal.
  apply round64_compat. by rewrite (round64_Z duration Hd).
Qed.

Lemma Qmax_0_Z (n : Z) : (Qmax 0 (inject_Z n) == inject_Z (Z.max 0 n))%Q.
Proof.
  destruct (Z.max_spec 0 n) as [[Hlt ->]|[Hle ->]].
  - apply Q.max_r. change 0%Q with (inject_Z 0). rewrite <- Zle_Qle. lia.
  - apply Q.max_l. change 0%Q with (inject_Z 0). rewrite <- Zle_Qle. lia.
Qed.

(** On whole seconds the computation is exact. *)
Lemma remaining_whole_seconds (duration anchor now s : Z) :
  safeInteger anchor -> safeInteger now -> safeInteger (now - anchor) ->
  safeInteger duration -> safeInteger (duration - s) ->
  now - anchor = 1000 * s ->
  (Timer.remaining duration anchor now == inject_Z (Z.max 0 (duration - s)))%Q.
Proof.
  intros Ha Hn Hdiff Hd Hds Hs.
  rewrite (remaining_value _ _ _ Hd), (elapsed_value _ _ Ha Hn Hdiff), <- Qmax_0_Z.
  assert (Hss : safeInteger s) by (unfold safeInteger in *; lia).
  assert (E1 : IEEE.round64 (inject_Z (now - anchor) / 1000) = IEEE.round64 (inject_Z s)).
  { apply round64_compat. rewrite Hs, inject_Z_mult. change (inject_Z 1000) with 1000%Q.
    field. }
  rewrite E1.
  assert (E2 : IEEE.round64 (inject_Z duration - IEEE.round64 (inject_Z s))
               = IEEE.round64 (inject_Z (duration - s))).
  { apply round64_compat. rewrite (round64_Z s Hss).
    unfold Z.sub. rewrite inject_Z_plus, inject_Z_opp. reflexivity. }
  rewrite E2.
  destruct (Q.max_spec 0 (IEEE.round64 (inject_Z (duration - s)))) as [[H1 ->]|[H1 ->]];
    destruct (Q.max_spec 0 (inject_Z (duration - s))) as [[H2 ->]|[H2 ->]];
    pose proof (round64_Z (duration - s) Hds); lra.
Qed.

Lemma pow2_neg_val (k : positive) : (IEEE.pow2 (Z.neg k) == 1 # (2 ^ k))%Q.
Proof.
  unfold IEEE.pow2. change (Z.neg k) with (- Z.pos k).
  change 2%Q with (inject_Z 2). rewrite Qpower_opp, <- Zpower_Qpower by lia.
  change 2 with (Z.pos 2). rewrite <- Pos2Z.inj_pow. reflexivity.
Qed.

(** The elapsed seconds as computed are within 1/1024 of the exact quotient,
    for time stamps that are safe integers. *)
Lemma elapsed_near (d : Z) :
  safeInteger d ->
  (Qabs (inject_Z d / 1000) < IEEE.pow2 44)%Q
  /\ (Qabs (IEEE.round64 (inject_Z d / 1000) - inject_Z d / 1000) <= 1 # 1024)%Q.
Proof.
  intros Hd. unfold safeInteger in Hd.
  assert (Hb : (Qabs (inject_Z d / 1000) < IEEE.pow2 44)%Q).
  { rewrite (pow2_Z 44) by lia.
    assert (H1 : (inject_Z (- 2 ^ 53) < inject_Z d < inject_Z (2 ^ 53))%Q)
      by (rewrite <- !Zlt_Qlt; lia).
    apply Qabs_Qlt_condition.
    change (inject_Z (2 ^ 44)) with 17592186044416%Q.
    change (inject_Z (- 2 ^ 53)) with (-9007199254740992)%Q in H1.
    change (inject_Z (2 ^ 53)) with 9007199254740992%Q in H1.
    split.
    - apply Qlt_shift_div_l; lra.
    - apply Qlt_shift_div_r; lra. }
  split; [done|].
  destruct (Qeq_dec (inject_Z d / 1000) 0) as [Hz|Hq].
  - rewrite (round64_zero _ Hz). apply Qabs_Qle_condition. lra.
  - destruct (ulp_of_bounded _ 44 Hq Hb) as (ue & Hu & Hue & _); [lia|].
    pose proof (round64_error (inject_Z d / 1000)) as He. rewrite Hu in He.
    assert (Hp : (IEEE.pow2 ue <= 1 # 512)%Q).
    { change (1 # 512)%Q with (1 # 2 ^ 9)%Q. rewrite <- (pow2_neg_val 9).
      apply pow2_le. lia. }
    eapply Qle_trans; [exact He|]. lra.
Qed.

(** The computed remaining time is zero exactly from the deadline on. *)
Lemma remaining_zero_iff (duration anchor now : Z) :
  safeInteger anchor -> safeInteger now -> safeInteger (now - anchor) ->
  0 < duration < 2 ^ 42 ->
  (Timer.remaining duration anchor now == 0)%Q <-> anchor + 1000 * duration <= now.
Proof.
  intros Ha Hn Hdiff Hd.
  assert (Hsd : safeInteger duration) by (unfold safeInteger; lia).
  rewrite (remaining_value _ _ _ Hsd), (elapsed_value _ _ Ha Hn Hdiff).
  destruct (elapsed_near (now - anchor) Hdiff) as [Hb Hnear].
  remember (inject_Z (now - anchor) / 1000)%Q as x eqn:Ex.
  remember (IEEE.round64 x) as el eqn:Eel.
  assert (HD : (0 < inject_Z duration < 4398046511104)%Q).
  { change 0%Q with (inject_Z 0). change 4398046511104%Q with (inject_Z (2 ^ 42)).
    rewrite <- !Zlt_Qlt. lia. }
  assert (Hx : (x * 1000 == inject_Z (now - anchor))%Q) by (rewrite Ex; field).
  assert (Hb53 : (Qabs x < IEEE.pow2 53)%Q).
  { eapply Qlt_trans; [exact Hb|]. apply pow2_lt. lia. }
  apply Qabs_Qle_condition in Hnear.
  assert (Hb' : (-17592186044416 < x < 17592186044416)%Q).
  { rewrite (pow2_Z 44) in Hb by lia. by apply Qabs_Qlt_condition in Hb. }
  remember (inject_Z duration - el)%Q as y eqn:Ey.
  assert (Hyv : (y == inject_Z duration - el)%Q) by (by rewrite Ey).
  assert (Hy53 : (Qabs y < IEEE.pow2 53)%Q).
  { rewrite pow2_53. change (inject_Z (2 ^ 53)) with 9007199254740992%Q.
    apply Qabs_Qlt_condition. lra. }
  split.
  - intros Hzero. destruct (Z.le_gt_cases (anchor + 1000 * duration) now) as [|Hlt];
      [done|]. exfalso.
    assert (Hgap : (inject_Z (now - anchor) + 1 <= 1000 * inject_Z duration)%Q).
    { change 1%Q with (inject_Z 1). change 1000%Q with (inject_Z 1000).
      rewrite <- inject_Z_plus, <- inject_Z_mult, <- Zle_Qle. lia. }
    assert (Hy : (3 # 128000 <= y)%Q) by lra.
    assert (Hnorm : (IEEE.pow2 (-1022) <= Qabs y)%Q).
    { rewrite (Qabs_pos y) by lra.
      apply Qle_trans with (IEEE.pow2 (-16)); [apply pow2_le; lia|].
      rewrite (pow2_neg_val 16). change (1 # 2 ^ 16)%Q with (1 # 65536)%Q. lra. }
    pose proof (ulp_le y Hnorm) as Hu. rewrite (Qabs_pos y) in Hu by lra.
    rewrite (pow2_neg_val 52) in Hu.
    pose proof (round64_error y) as He. apply Qabs_Qle_condition in He.
    assert (Hpos : (0 < IEEE.round64 y)%Q).
    { change (1 # 2 ^ 52)%Q with (1 # 4503599627370496)%Q in Hu. lra. }
    rewrite Q.max_r in Hzero by lra. lra.
  - intros Hle.
    assert (Hge : (inject_Z duration <= x)%Q).
    { assert (H1 : (inject_Z duration * 1000 <= inject_Z (now - anchor))%Q).
      { change 1000%Q with (inject_Z 1000).
        rewrite <- inject_Z_mult, <- Zle_Qle. lia. }
      lra. }
    assert (Hel : (inject_Z duration <= el)%Q) by (rewrite Eel; by apply round64_ge_Z).
    assert (Hr : (IEEE.round64 y <= inject_Z 0)%Q).
    { apply round64_le_Z; [done|]. change (inject_Z 0) with 0%Q. lra. }
    change (inject_Z 0) with 0%Q in Hr. apply Q.max_l. exact Hr.
Qed.

(** The relative error of one rounding, for any value: at most 2^-53 of its
    size, or half of the smallest subnormal. *)
Lemma round64_relative (q : Q) :
  (Qabs (IEEE.round64 q - q)
   <= Qabs q * (1 # 9007199254740992) + IEEE.pow2 (-1075))%Q.
Proof.
  pose proof (round64_error q) as He. pose proof (Qabs_nonneg q) as Hq0.
  pose proof (pow2_pos (-1075)) as Hp.
  destruct (Qeq_dec q 0) as [Hz|Hq].
  { rewrite (round64_zero q Hz). apply Qabs_Qle_condition. lra. }
  destruct (Qlt_le_dec (Qabs q) (IEEE.pow2 (-1022))) as [Hsub|Hnorm].
  - destruct (ulp_of_bounded q (-1021) Hq) as (ue & Hu & Hue & Hlo); [|lia|].
    { eapply Qlt_trans; [exact Hsub|]. apply pow2_lt. lia. }
    assert (ue = -1074) as -> by lia. rewrite Hu in He.
    assert (E : (IEEE.pow2 (-1074) == 2 * IEEE.pow2 (-1075))%Q).
    { replace (-1074) with (-1075 + 1) by lia. apply pow2_succ. }
    lra.
  - pose proof (ulp_le q Hnorm) as Hu. rewrite (pow2_neg_val 52) in Hu.
    change (1 # 2 ^ 52)%Q with (1 # 4503599627370496)%Q in Hu. lra.
Qed.

Lemma Qmax_0_lipschitz (a b : Q) : (Qabs (Qmax 0 a - Qmax 0 b) <= Qabs (a - b))%Q.
Proof.
  destruct (Q.max_spec 0 a) as [[Ha ->]|[Ha ->]];
    destruct (Q.max_spec 0 b) as [[Hb ->]|[Hb ->]];
    apply Qabs_Qle_condition;
    pose proof (Qle_Qabs (a - b)); pose proof (Qle_Qabs (- (a - b)));
    rewrite Qabs_opp in *; split; lra.
Qed.

(** The computed remaining time is the exact one up to the rounding of the
    two operations. *)
Lemma remaining_error (duration anchor now : Z) :
  safeInteger anchor -> safeInteger now -> safeInteger (now - anchor) ->
  0 < duration < 2 ^ 42 ->
  (Qabs (Timer.remaining duration anchor now
         - Qmax 0 (inject_Z duration - inject_Z (now - anchor) / 1000))
   <= (inject_Z duration + Qabs (inject_Z (now - anchor) / 1000))
      * (1 # 2251799813685248))%Q.
Proof.
  intros Ha Hn Hdiff Hd.
  assert (Hsd : safeInteger duration) by (unfold safeInteger; lia).
  rewrite (remaining_value _ _ _ Hsd), (elapsed_value _ _ Ha Hn Hdiff).
  remember (inject_Z (now - anchor) / 1000)%Q as x eqn:Ex.
  eapply Qle_trans; [apply Qmax_0_lipschitz|].
  pose proof (round64_relative x) as H1.
  remember (IEEE.round64 x) as el eqn:Eel.
  pose proof (round64_relative (inject_Z duration - el)) as H2.
  remember (IEEE.round64 (inject_Z duration - el)) as r eqn:Er.
  assert (HD : (1 <= inject_Z duration)%Q).
  { change 1%Q with (inject_Z 1). rewrite <- Zle_Qle. lia. }
  assert (Hp : (IEEE.pow2 (-1075) <= 1 # 9007199254740992)%Q).
  { change (1 # 9007199254740992)%Q with (1 # 2 ^ 53)%Q.
    rewrite <- (pow2_neg_val 53). apply pow2_le. lia. }
  pose proof (pow2_pos (-1075)) as Hp0.
  pose proof (Qabs_nonneg x) as Hx0.
  pose proof (Qabs_triangle_reverse el x) as Ht1.
  pose proof (Qabs_triangle (inject_Z duration) (- el)) as Ht2.
  rewrite Qabs_opp, (Qabs_pos (inject_Z duration)) in Ht2 by lra.
  assert (E1 : (r - (inject_Z duration - x)
                == (r - (inject_Z duration - el)) + - (el - x))%Q) by ring.
  rewrite E1. eapply Qle_trans; [apply Qabs_triangle|]. rewrite Qabs_opp.
  change (inject_Z duration + - el)%Q with (inject_Z duration - el)%Q in Ht2.
  remember (Qabs (r - (inject_Z duration - el))) as e2.
  remember (Qabs (el - x)) as e1.
  remember (Qabs (inject_Z duration - el)) as ay.
  remember (Qabs el) as ael. remember (Qabs x) as ax.
  clear - H1 H2 HD Hp Hp0 Hx0 Ht1 Ht2. lra.
Qed.

(** The rounding agrees with the Standard Library's specification of the
    binary64 operations on a sample of operands, among them the quotient
    and the difference of the example below. *)
Lemma round64_agrees_with_SpecFloat :
  Forall (fun ab : Z * Z =>
            IEEE.ofSpecFloat (IEEE.toSpecFloat (fst ab)) = Some (IEEE.number (fst ab))
            /\ IEEE.ofSpecFloat
                 (SpecFloat.SFdiv 53 1024 (IEEE.toSpecFloat (fst ab))
                    (IEEE.toSpecFloat (snd ab)))
               = Some (IEEE.div (IEEE.number (fst ab)) (IEEE.number (snd ab)))
            /\ IEEE.ofSpecFloat
                 (SpecFloat.SFsub 53 1024 (IEEE.toSpecFloat (snd ab))
                    (SpecFloat.SFdiv 53 1024 (IEEE.toSpecFloat (fst ab))
                       (IEEE.toSpecFloat (snd ab))))
               = Some (IEEE.sub (IEEE.number (snd ab))
                         (IEEE.div (IEEE.number (fst ab)) (IEEE.number (snd ab)))))
    [(900, 1000); (1, 3); (1, 10); (-5, 3); (123456789, 1000); (123456, 1000);
     (1700000123456, 1000); (299, 300);
     (9007199254740993, 7); (1, 9007199254740995); (36028797018963971, 60)].
Proof. repeat constructor; vm_compute; reflexivity. Qed.

(** C9 as stated fails: the remaining time is computed in doubles and is
    not in general the exact value. With a duration of one second, 900
    milliseconds after the anchor the quotient 900 / 1000 is rounded to the
    double nearest to 0.9, which is above it, and the remaining time is
    0.09999999999999998 and not one tenth. *)
Lemma C9_remaining_is_rounded :
  (timerDuration <$> (settings <$> games sample.blink !! 0%nat)) = Some 1
  /\ (games sample.blink !! 0%nat ≫= timerStartTime) = Some 1000
  /\ Timer.timeRemaining (games sample.blink !! 0%nat) 1900
     = Some (900719925474099 # 9007199254740992)
  /\ ~ (900719925474099 # 9007199254740992
        == Qmax 0 (1 - (1900 - 1000) / 1000))%Q.
Proof.
  split; [reflexivity|]. split; [reflexivity|].
  split; [vm_compute; reflexivity|]. intros H. vm_compute in H. discriminate.
Qed.

(** C9, amended. The game screen holds no remaining time when there is no
    game, when the timer is disabled, or when no anchor or the anchor 0 is
    stored. Otherwise, for time stamps that are non-negative safe integers
    (as [Date.now()] gives them) and a whole duration of at most 2^42
    seconds, it holds a remaining time, computed in doubles from the
    duration in seconds and the two time stamps in milliseconds, which
    - differs from [max 0 (duration - (now - anchor) / 1000)] by at most
      2^-51 times the sum of the duration and the elapsed seconds;
    - is exactly [max 0 (duration - s)] at [s] whole seconds after the
      anchor, so with a duration of 300 it is 180 after 120 seconds and 0
      after 301 seconds;
    - is 0 exactly from [duration] seconds after the anchor on. *)
Theorem C9_timer_derivation (g : Game) (anchor now : Z) :
  Timer.timeRemaining None now = None
  /\ (timerEnabled (settings g) = false -> Timer.timeRemaining (Some g) now = None)
  /\ (timerStartTime g = None \/ timerStartTime g = Some 0 ->
      Timer.timeRemaining (Some g) now = None)
  /\ (timerEnabled (settings g) = true ->
      timerStartTime g = Some anchor ->
      0 < anchor < 2 ^ 53 -> 0 <= now < 2 ^ 53 ->
      0 < timerDuration (settings g) < 2 ^ 42 ->
      exists r,
        Timer.timeRemaining (Some g) now = Some r
        /\ (Qabs (r - Qmax 0 (inject_Z (timerDuration (settings g))
                              - inject_Z (now - anchor) / 1000))
            <= (inject_Z (timerDuration (settings g))
                + Qabs (inject_Z (now - anchor) / 1000))
               * (1 # 2251799813685248))%Q
        /\ (forall s : Z,
              now = anchor + 1000 * s ->
              (r == inject_Z (Z.max 0 (timerDuration (settings g) - s)))%Q)
        /\ ((r == 0)%Q <-> anchor + 1000 * timerDuration (settings g) <= now)).
Proof.
  split; [reflexivity|]. split; [|split].
  - intros He. unfold Timer.timeRemaining. by rewrite He.
  - intros [Ha|Ha]; unfold Timer.timeRemaining; rewrite Ha;
      by destruct (negb _).
  - intros He Ha Hanchor Hnow Hd.
    assert (Hsa : safeInteger anchor) by (unfold safeInteger; lia).
    assert (Hsn : safeInteger now) by (unfold safeInteger; lia).
    assert (Hsd : safeInteger (now - anchor)) by (unfold safeInteger; lia).
    exists (Timer.remaining (timerDuration (settings g)) anchor now).
    split; [|split; [|split]].
    + unfold Timer.timeRemaining. rewrite He, Ha. simpl.
      destruct (Z.eqb_spec anchor 0); [lia | reflexivity].
    + by apply remaining_error.
    + intros s Hs. apply remaining_whole_seconds; try done.
      * unfold safeInteger; lia.
      * unfold safeInteger in *. lia.
      * lia.
    + by apply remaining_zero_iff.
Qed.

Lemma C9_timer_witness :
  exists g,
    games sample.playing3 !! 0%nat = Some g
    /\ timerDuration (settings g) = 300
    /\ timerStartTime g = Some 1000
    /\ (exists r, Timer.timeRemaining (Some g) (1000 + 120 * 1000) = Some r
                  /\ (r == 180)%Q)
    /\ (exists r, Timer.timeRemaining (Some g) (1000 + 301 * 1000) = Some r
                  /\ (r == 0)%Q).
Proof.
  assert (exists g, games sample.playing3 !! 0%nat = Some g
                    /\ timerEnabled (settings g) = true
                    /\ timerDuration (settings g) = 300
                    /\ timerStartTime g = Some 1000) as (g & E & He & Hd & Ha)
    by (eexists; repeat split; reflexivity).
  exists g. split; [exact E|]. split; [exact Hd|]. split; [exact Ha|]. split.
  - destruct (C9_timer_derivation g 1000 (1000 + 120 * 1000)) as (_ & _ & _ & H).
    destruct (H He Ha) as (r & Hr & _ & Hs & _); [lia|lia|rewrite Hd; lia|].
    exists r. split; [exact Hr|]. rewrite (Hs 120) by lia. rewrite Hd. reflexivity.
  - destruct (C9_timer_derivation g 1000 (1000 + 301 * 1000)) as (_ & _ & _ & H).
    destruct (H He Ha) as (r & Hr & _ & Hs & _); [lia|lia|rewrite Hd; lia|].
    exists r. split; [exact Hr|]. rewrite (Hs 301) by lia. rewrite Hd. reflexivity.
Defined.

(** ** Assigning the imposters *)



Lemma randomIndex_range (r : Q) (n : Z) :
  unitInterval r -> 0 < n -> 0 <= randomIndex r n < n.
Proof.
  intros [H0 H1] Hn. unfold randomIndex. split.
  - change 0 with (Qfloor (inject_Z 0)). apply Qfloor_resp_le.
    apply Qmult_le_0_compat; [done|].
    change (inject_Z 0 <= inject_Z n)%Q. rewrite <- Zle_Qle. lia.
  - rewrite Zlt_Qlt. eapply Qle_lt_trans; [apply Qfloor_le|].
    rewrite <- (Qmult_1_l (inject_Z n)) at 2.
    apply Qmult_lt_compat_r; [|done].
    change (inject_Z 0 < inject_Z n)%Q. rewrite <- Zlt_Qlt. lia.
Qed.

Lemma assignImposters_eq (n t : Z) (chosen : list Z) (tape : list Q) :
  assignImposters n t chosen tape
  = if Z.of_nat (length chosen) <? t then
      match tape with
      | [] => None
      | r :: tape' =>
          if bool_decide (randomIndex r n ∈ chosen)
          then assignImposters n t chosen tape'
          else assignImposters n t (chosen ++ [randomIndex r n]) tape'
      end
    else Some chosen.
Proof. by destruct tape. Qed.



(** What the loop returns extends what it started from without repetition,
    holds only drawn indices, and has reached the target; it has exactly
    the target's size when it did not start beyond it. *)
Lemma assignImposters_returns (n t : Z) (tape : list Q) :
  forall chosen out : list Z,
    0 < n ->
    Forall unitInterval tape ->
    NoDup chosen ->
    Forall (inRange n) chosen ->
    assignImposters n t chosen tape = Some out ->
    NoDup out /\ Forall (inRange n) out /\ t <= Z.of_nat (length out)
    /\ (Z.of_nat (length chosen) <= t -> Z.of_nat (length out) = t).
Proof.
  induction tape as [|r tape IH]; intros chosen out Hn Htape Hnd Hrg;
    rewrite assignImposters_eq;
    destruct (Z.ltb_spec (Z.of_nat (length chosen)) t) as [Hlt|Hge];
    try discriminate.
  - intros [= <-]. repeat split; [done | done | lia | lia].
  - apply Forall_cons in Htape as [Hr Htape].
    case_bool_decide as Hin.
    + intros Hout. destruct (IH chosen out Hn Htape Hnd Hrg Hout) as (?&?&?&?).
      repeat split; [done | done | done | lia].
    + intros Hout.
      destruct (IH (chosen ++ [randomIndex r n]) out Hn Htape) as (?&?&?&Hlen);
        [ | | done | ].
      * apply NoDup_app. split; [done|]. split; [|apply NoDup_singleton].
        intros x Hx Hx'%list_elem_of_singleton. by subst.
      * apply Forall_app. split; [done|]. apply Forall_singleton.
        by apply randomIndex_range.
      * repeat split; [done | done | done |].
        intros _. apply Hlen. rewrite length_app. simpl. lia.
  - intros [= <-]. repeat split; [done | done | lia | lia].
Qed.

(** When the tape ends with the loop still running, the indices chosen at
    the start and every index drawn from the tape are among fewer than [t]
    distinct indices. *)
Lemma assignImposters_spins (n t : Z) (tape : list Q) :
  forall chosen : list Z,
    NoDup chosen ->
    assignImposters n t chosen tape = None ->
    exists final : list Z,
      NoDup final /\ Z.of_nat (length final) < t
      /\ (forall x, x ∈ chosen -> x ∈ final)
      /\ (forall r, r ∈ tape -> randomIndex r n ∈ final).
Proof.
  induction tape as [|r tape IH]; intros chosen Hnd;
    rewrite assignImposters_eq;
    destruct (Z.ltb_spec (Z.of_nat (length chosen)) t) as [Hlt|Hge];
    try discriminate.
  - intros _. exists chosen. repeat split; [done | done | done |].
    intros r Hr. by apply not_elem_of_nil in Hr.
  - case_bool_decide as Hin; intros Hnone.
    + destruct (IH chosen Hnd Hnone) as (final & ? & ? & Hsub & Hdrawn).
      exists final. repeat split; [done | done | done |].
      intros r' [->|Hr']%elem_of_cons; [by apply Hsub | by apply Hdrawn].
    + destruct (IH (chosen ++ [randomIndex r n])) as (final & ? & ? & Hsub & Hdrawn);
        [ | done | ].
      * apply NoDup_app. split; [done|]. split; [|apply NoDup_singleton].
        intros x Hx Hx'%list_elem_of_singleton. by subst.
      * exists final. repeat split; [done | done | |].
        -- intros x Hx. apply Hsub, elem_of_app. by left.
        -- intros r' [->|Hr']%elem_of_cons; [|by apply Hdrawn].
           apply Hsub, elem_of_app. right. apply list_elem_of_here.
Qed.

Lemma assignImposters_terminates (n t : Z) (tape : list Q) :
  t < n -> covers n tape ->
  exists chosen, assignImposters n t [] tape = Some chosen.
Proof.
  intros Ht Hcov.
  destruct (assignImposters n t [] tape) as [chosen|] eqn:E; [by exists chosen|].
  exfalso.
  destruct (assignImposters_spins n t tape [] (NoDup_nil_2) E)
    as (final & Hnd & Hlen & _ & Hdrawn).
  assert (Hsub : seqZ 0 n ⊆+ final).
  { apply NoDup_submseteq; [apply NoDup_seqZ|].
    intros i Hi%elem_of_seqZ. destruct (Hcov i) as (r & Hr & <-); [lia|].
    by apply Hdrawn. }
  apply submseteq_length in Hsub. rewrite length_seqZ in Hsub. lia.
Qed.

(** Without the clamp the loop cannot end: a target above the number of
    candidate indices is never reached, whatever is drawn. *)
Lemma assignImposters_unclamped (n t : Z) (tape : list Q) :
  0 < n -> n < t -> Forall unitInterval tape ->
  assignImposters n t [] tape = None.
Proof.
  intros Hn Ht Htape.
  destruct (assignImposters n t [] tape) as [out|] eqn:E; [|done].
  exfalso.
  destruct (assignImposters_returns n t tape [] out Hn Htape (NoDup_nil_2)
              (Forall_nil_2 _) E) as (Hnd & Hrg & Hlen & _).
  assert (Hsub : out ⊆+ seqZ 0 n).
  { apply NoDup_submseteq; [done|]. intros i Hi. apply elem_of_seqZ.
    rewrite Forall_forall in Hrg. specialize (Hrg i Hi). unfold inRange in Hrg. lia. }
  apply submseteq_length in Hsub. rewrite length_seqZ in Hsub. lia.
Qed.

Lemma sample_tape_covers : covers 3 sample.tape.
Proof.
  intros i Hi.
  assert (i = 0 \/ i = 1 \/ i = 2) as [->|[->| ->]] by lia.
  - exists (1 # 10)%Q. split; [|reflexivity].
    do 2 apply list_elem_of_further. apply list_elem_of_here.
  - exists (1 # 2)%Q. split; [|reflexivity].
    do 3 apply list_elem_of_further. apply list_elem_of_here.
  - exists (2 # 3)%Q. split; [|reflexivity]. apply list_elem_of_here.
Qed.

Lemma nthZ_is_Some {A} (l : list A) (i : Z) :
  0 <= i < Z.of_nat (length l) -> is_Some (nthZ l i).
Proof.
  intros Hi. unfold nthZ. destruct (Z.ltb_spec i 0); [lia|].
  apply lookup_lt_is_Some. lia.
Qed.

(** C3. For a game with at least three active players and a configured
    number of imposters of at least one, started with draws from the unit
    interval: whenever [startGame] returns, the stored imposters are
    exactly [min numberOfImposters (activeCount - 1)] many, which is at
    least one, pairwise distinct, and each a roster index below the number
    of active players; and [startGame] does return when a category with
    words is selected and the tape draws every roster index. *)
Theorem C3_imposter_count
    (d : Db) (gid : Id) (g : Game) (now : Z) (r0 : Q) (tape : list Q) :
  games d !! gid = Some g ->
  3 <= activeCount d gid ->
  1 <= numberOfImposters (settings g) ->
  unitInterval r0 ->
  Forall unitInterval tape ->
  (forall d',
     startGame gid now r0 tape d = (Returned tt, d') ->
     exists g',
       games d' !! gid = Some g'
       /\ status g' = Playing
       /\ Z.of_nat (length (imposters g'))
          = Z.min (numberOfImposters (settings g)) (activeCount d gid - 1)
       /\ 1 <= Z.of_nat (length (imposters g'))
       /\ NoDup (imposters g')
       /\ Forall (inRange (activeCount d gid)) (imposters g')
       /\ activeCount d' gid = activeCount d gid)
  /\ (selectedCategories g ≠ [] -> wordPool d g ≠ [] ->
      covers (activeCount d gid) tape ->
      exists d', startGame gid now r0 tape d = (Returned tt, d')).
Proof.
  intros Hg Hn Hk Hr0 Htape. rewrite (startGame_found _ _ _ _ _ g Hg).
  assert (Hpos : 0 < activeCount d gid) by lia.
  destruct (Z.ltb_spec (activeCount d gid) 3); [lia|]. split.
  - intros d'.
    destruct (bool_decide (length (selectedCategories g) = _)); [discriminate|].
    destruct (bool_decide (length (wordPool d g) = _)); [discriminate|].
    destruct (nthZ _ _) as [randomWord|]; [|discriminate].
    destruct (assignImposters _ _ _ _) as [chosen|] eqn:Hloop; [|discriminate].
    intros [= <-].
    destruct (assignImposters_returns _ _ _ _ _ Hpos Htape
                (NoDup_nil_2) (Forall_nil_2 _) Hloop) as (Hnd & Hrg & _ & Hlen).
    eexists. split; [by eapply withGame_lookup|].
    simpl in Hlen. unfold patchGame; simpl.
    repeat split; [lia | lia | done | done].
  - intros Hcats Hpool Hcov.
    rewrite bool_decide_eq_false_2 by (by destruct (selectedCategories g)).
    rewrite bool_decide_eq_false_2 by (by destruct (wordPool d g)).
    destruct (nthZ_is_Some (wordPool d g)
                (randomIndex r0 (Z.of_nat (length (wordPool d g)))))
      as [randomWord ->].
    { apply randomIndex_range; [done|]. destruct (wordPool d g); [done|simpl; lia]. }
    destruct (assignImposters_terminates (activeCount d gid)
                (Z.min (numberOfImposters (settings g)) (activeCount d gid - 1))
                tape ltac:(lia) Hcov) as [chosen ->].
    by eexists.
Qed.

Lemma C3_imposter_witness :
  (exists g',
     games sample.playing4 !! 0%nat = Some g'
     /\ imposters g' = [2; 0]
     /\ Z.of_nat (length (imposters g')) = Z.min 2 (4 - 1)
     /\ NoDup (imposters g')
     /\ Forall (inRange 4) (imposters g'))
  /\ exists d',
       startGame 0%nat 1000 sample.wordDraw sample.tape sample.lobby3
       = (Returned tt, d').
Proof.
  assert (Hdraws : unitInterval sample.wordDraw /\ Forall unitInterval sample.tape).
  { split; [split; vm_compute; congruence|].
    repeat constructor; vm_compute; congruence. }
  destruct Hdraws as [Hr0 Htape]. split.
  - assert (exists g, games sample.lobby4 !! 0%nat = Some g) as [g E]
      by (eexists; reflexivity).
    assert (Hk : numberOfImposters (settings g) = 2)
      by (injection E as <-; reflexivity).
    destruct (C3_imposter_count sample.lobby4 0%nat g 1000
                sample.wordDraw sample.tape E) as [H _];
      [vm_compute; discriminate | rewrite Hk; lia | done | done |].
    destruct (H sample.playing4) as (g' & Hg' & _ & Hlen & _ & Hnd & Hrg & _).
    { vm_compute. reflexivity. }
    exists g'. rewrite Hk in Hlen.
    assert (Himp : imposters g' = [2; 0]).
    { assert (Some (imposters g') = Some [2; 0]) as [= ->]; [|done].
      change (Some (imposters g')) with (imposters <$> Some g').
      rewrite <- Hg'. reflexivity. }
    repeat split; done.
  - assert (exists g, games sample.lobby3 !! 0%nat = Some g) as [g E]
      by (eexists; reflexivity).
    destruct (C3_imposter_count sample.lobby3 0%nat g 1000
                sample.wordDraw sample.tape E) as [_ H];
      [vm_compute; discriminate | injection E as <-; simpl; lia | done | done |].
    apply H.
    + injection E as <-. discriminate.
    + injection E as <-. vm_compute. discriminate.
    + apply sample_tape_covers.
Defined.

(** C10. For a game with at least three active players the loop of
    [startGame] that assigns the imposters ends on every tape of draws that
    draws each roster index at least once, as a sequence of uniform draws
    does sooner or later: the clamped target
    [min numberOfImposters (activeCount - 1)] is below the number of
    candidate indices, so while the loop runs an index not yet chosen
    remains. With such a tape [startGame] is never left in the loop. *)
Theorem C10_imposter_selection_terminates
    (d : Db) (gid : Id) (g : Game) (now : Z) (r0 : Q) (tape : list Q) :
  games d !! gid = Some g ->
  3 <= activeCount d gid ->
  covers (activeCount d gid) tape ->
  (exists chosen,
     assignImposters (activeCount d gid)
       (Z.min (numberOfImposters (settings g)) (activeCount d gid - 1)) [] tape
     = Some chosen)
  /\ fst (startGame gid now r0 tape d) ≠ Spinning.
Proof.
  intros Hg Hn Hcov.
  destruct (assignImposters_terminates (activeCount d gid)
              (Z.min (numberOfImposters (settings g)) (activeCount d gid - 1))
              tape ltac:(lia) Hcov) as [chosen Hchosen].
  split; [by exists chosen|].
  rewrite (startGame_found _ _ _ _ _ g Hg), Hchosen.
  repeat case_match; simpl; discriminate.
Qed.

Lemma C10_termination_witness :
  covers 3 sample.tape
  /\ assignImposters 3 (Z.min 1 (3 - 1)) [] sample.tape = Some [2]
  /\ fst (startGame 0%nat 1000 sample.wordDraw sample.tape sample.lobby3)
     ≠ Spinning.
Proof.
  assert (exists g, games sample.lobby3 !! 0%nat = Some g) as [g E]
    by (eexists; reflexivity).
  destruct (C10_imposter_selection_terminates sample.lobby3 0%nat g 1000
              sample.wordDraw sample.tape E) as [_ H].
  - vm_compute. discriminate.
  - apply sample_tape_covers.
  - split; [apply sample_tape_covers|]. split; [reflexivity | exact H].
Defined.

(** ** The roster *)

Lemma addPlayer_run (d : Db) (gid : Id) (name0 color0 : string) :
  addPlayer gid name0 color0 d
  = (Returned (length (players d)),
     {| games := games d;
        players :=
          players d
          ++ [ {| gameId := gid; name := name0; color := color0;
                  index := Z.of_nat (length (playersOf gid (players d)));
                  isActive := true |} ];
        categories := categories d |}).
Proof. reflexivity. Qed.

(** Rows and documents. *)

Lemma docs_lookup {A} (table : list A) (i : nat) :
  docs table !! i = (fun row => (i, row)) <$> table !! i.
Proof. unfold docs. apply list_lookup_imap. Qed.

Lemma elem_of_docs {A} (table : list A) (id : Id) (row : A) :
  (id, row) ∈ docs table <-> table !! id = Some row.
Proof.
  unfold docs. rewrite elem_of_lookup_imap. split.
  - by intros (i & y & [= -> ->] & Hy).
  - intros H. by exists id, row.
Qed.

Lemma elem_of_activePlayersOf (gid : Id) (table : list Player) (id : Id) (p : Player) :
  (id, p) ∈ activePlayersOf gid table
  <-> table !! id = Some p /\ gameId p = gid /\ isActive p = true.
Proof.
  unfold activePlayersOf, playersOf.
  rewrite !list_elem_of_filter, elem_of_docs. simpl. tauto.
Qed.

Lemma docs_ids {A} (table : list A) : (docs table).*1 = seq 0 (length table).
Proof.
  unfold docs. rewrite fmap_imap.
  transitivity ((fun i : nat => i) <$> seq 0 (length table)).
  - rewrite <- imap_seq_0. by apply imap_ext.
  - apply list_fmap_id.
Qed.

Lemma NoDup_filter_fst {A B} (P : A * B -> Prop) `{forall x, Decision (P x)}
    (l : list (A * B)) :
  NoDup l.*1 -> NoDup (filter P l).*1.
Proof.
  induction l as [|x l IH]; [done|]. rewrite fmap_cons, NoDup_cons.
  intros [Hx Hl]. rewrite filter_cons. destruct (decide (P x)); [|by apply IH].
  rewrite fmap_cons, NoDup_cons. split; [|by apply IH].
  intros Hin. apply Hx. apply list_elem_of_fmap in Hin as (y & -> & Hy).
  apply list_elem_of_filter in Hy as [_ Hy]. by apply list_elem_of_fmap_2.
Qed.

Lemma activePlayersOf_ids_NoDup (gid : Id) (table : list Player) :
  NoDup (activePlayersOf gid table).*1.
Proof.
  unfold activePlayersOf, playersOf. do 2 apply NoDup_filter_fst.
  rewrite docs_ids. apply NoDup_seq.
Qed.

(** Tables whose rows sit in the same seats have the same active players,
    document by document. *)
Lemma activePlayersOf_sameSeat (gid : Id) (t1 t2 : list Player) :
  Forall2 sameSeat t1 t2 ->
  Forall2 (fun a b : Doc Player => fst a = fst b)
    (activePlayersOf gid t1) (activePlayersOf gid t2).
Proof.
  intros Hseats.
  assert (Hdocs : Forall2 (fun a b : Doc Player => fst a = fst b /\ sameSeat (snd a) (snd b))
                    (docs t1) (docs t2)).
  { apply Forall2_same_length_lookup_2.
    - unfold docs. rewrite !length_imap. by eapply Forall2_length.
    - intros i a b. rewrite !docs_lookup. intros Ha Hb.
      destruct (t1 !! i) as [p|] eqn:Hp; [|done].
      destruct (t2 !! i) as [q|] eqn:Hq; [|done].
      injection Ha as <-. injection Hb as <-. split; [done|].
      by eapply Forall2_lookup_lr. }
  eapply Forall2_impl.
  - unfold activePlayersOf, playersOf.
    eapply Forall2_filter; [|eapply Forall2_filter; [|exact Hdocs]].
    + intros a b [_ [_ Hact]]. by rewrite Hact.
    + intros a b [_ [Hgame _]]. by rewrite Hgame.
  - by intros a b [? _].
Qed.

(** Removing a player. *)

Lemma patchPlayer_found (d : Db) (id : Id) (p : Player) (fields : list PlayerField) :
  players d !! id = Some p ->
  db.patchPlayer id fields d
  = (Returned tt, withPlayers d (<[id := patchPlayer p fields]> (players d))).
Proof. intros H. unfold db.patchPlayer. by rewrite H. Qed.

(** The renumbering loop gives the [j]th of the rows it was handed the
    index [i + j] and touches nothing else. *)
Lemma reindex_run (rest : list (Doc Player)) : forall (i : Z) (d : Db),
  NoDup rest.*1 ->
  (forall id p, (id, p) ∈ rest -> players d !! id = Some p) ->
  exists table : list Player,
    reindex i rest d = (Returned tt, withPlayers d table)
    /\ length table = length (players d)
    /\ (forall k : nat, k ∉ rest.*1 -> table !! k = players d !! k)
    /\ (forall (j : nat) id p,
          rest !! j = Some (id, p) ->
          table !! id = Some (patchPlayer p [SetIndex (i + Z.of_nat j)])).
Proof.
  induction rest as [|[id p] rest IH]; intros i d Hnd Hrows.
  - exists (players d). split; [by destruct d|]. split; [done|].
    split; [done|]. intros j id p Hj. by rewrite lookup_nil in Hj.
  - rewrite fmap_cons, NoDup_cons in Hnd. destruct Hnd as [Hid Hnd].
    assert (Hp : players d !! id = Some p) by apply Hrows, list_elem_of_here.
    set (d1 := withPlayers d (<[id := patchPlayer p [SetIndex i]]> (players d))).
    assert (Hstep :
      (if bool_decide (index p = i) then ret tt
       else db.patchPlayer id [SetIndex i]) d = (Returned tt, d1)).
    { case_bool_decide as Hi; [|by apply patchPlayer_found].
      unfold ret, d1, withPlayers. destruct d as [gs ps cs]. simpl in *.
      do 2 f_equal. symmetry. apply list_insert_id.
      subst i. by destruct p. }
    destruct (IH (i + 1) d1 Hnd) as (table & Hrun & Hlen & Hother & Hmine).
    { intros id' p' Hin. unfold d1. simpl.
      rewrite list_lookup_insert_ne.
      - apply Hrows. by apply list_elem_of_further.
      - intros ->. apply Hid. by apply (list_elem_of_fmap_2 fst) in Hin. }
    exists table. split; [|split; [|split]].
    + simpl reindex. unfold bind. rewrite Hstep. exact Hrun.
    + rewrite Hlen. unfold d1. simpl. apply length_insert.
    + intros k Hk. rewrite fmap_cons, not_elem_of_cons in Hk.
      destruct Hk as [Hne Hk]. etrans; [apply (Hother k Hk)|]. unfold d1. simpl.
      by apply list_lookup_insert_ne.
    + intros [|j] id' p' Hj.
      * injection Hj as <- <-. etrans; [apply (Hother id Hid)|]. unfold d1. simpl.
        rewrite Z.add_0_r. apply list_lookup_insert_eq. by eapply lookup_lt_Some.
      * simpl in Hj. etrans; [apply (Hmine j id' p' Hj)|]. do 4 f_equal. lia.
Qed.

Lemma indices_by_position (l : list (Doc Player)) :
  (forall (j : nat) a, l !! j = Some a -> index (snd a) = Z.of_nat j) ->
  (fun dp => index (snd dp)) <$> l = seqZ 0 (Z.of_nat (length l)).
Proof.
  unfold Doc, Id in *.
  intros Hpos. apply list_eq. intros j. rewrite list_lookup_fmap.
  destruct (l !! j) as [a|] eqn:Ha.
  - pose proof (Hpos j a Ha) as E. apply lookup_lt_Some in Ha.
    rewrite lookup_seqZ_lt by lia. simpl. f_equal. etrans; [exact E|]. lia.
  - symmetry. apply lookup_seqZ_ge. apply lookup_ge_None in Ha. lia.
Qed.

(** [removePlayer] of a stored player returns and leaves the active players
    of that player's game with the indices 0, 1, ..., n-1, in roster order,
    whatever the indices were before. *)
Lemma removePlayer_contiguous (d : Db) (pid : Id) (p : Player) :
  players d !! pid = Some p ->
  exists d',
    removePlayer pid d = (Returned tt, d')
    /\ games d' = games d
    /\ activeIndices d' (gameId p) = seqZ 0 (activeCount d' (gameId p))
    /\ contiguous d' (gameId p).
Proof.
  intros Hp.
  set (t1 := <[pid := patchPlayer p [SetIsActive false]]> (players d)).
  destruct (reindex_run (activePlayersOf (gameId p) t1) 0 (withPlayers d t1))
    as (table & Hrun & Hlen & Hother & Hmine).
  { apply activePlayersOf_ids_NoDup. }
  { intros id q Hin. by apply elem_of_activePlayersOf in Hin as [? _]. }
  exists (withPlayers d table).
  assert (Hindices :
    activeIndices (withPlayers d table) (gameId p)
    = seqZ 0 (activeCount (withPlayers d table) (gameId p))).
  { apply indices_by_position. intros j [id q] Hj. simpl.
    unfold Doc, Id in *.
    assert (Hseats : Forall2 sameSeat t1 table).
    { apply Forall2_same_length_lookup_2; [done|]. intros k x y Hx Hy.
      destruct (decide (k ∈ (activePlayersOf (gameId p) t1).*1)) as [Hk|Hk].
      - apply list_elem_of_fmap in Hk as ([k' x'] & -> & Hin). simpl in *.
        pose proof Hin as Hrow. apply elem_of_activePlayersOf in Hrow as [Hrow _].
        apply list_elem_of_lookup in Hin as [j' Hj'].
        rewrite (Hmine j' k' x' Hj') in Hy. simpl in Hrow.
        assert (Some x' = Some x) as [= ->]
          by (etrans; [symmetry; exact Hrow | exact Hx]).
        injection Hy as <-. done.
      - rewrite (Hother k Hk) in Hy. simpl in Hy. rewrite Hx in Hy.
        by injection Hy as <-. }
    destruct (Forall2_lookup_r _ _ _ _ _
                (activePlayersOf_sameSeat (gameId p) t1 table Hseats) Hj)
      as ([id' q'] & Hj' & Hids).
    simpl in Hids. subst id'.
    apply list_elem_of_lookup_2, elem_of_activePlayersOf in Hj as [Hq _].
    assert (Some q = Some (patchPlayer q' [SetIndex (0 + Z.of_nat j)])) as [= ->]
      by (etrans; [symmetry; exact Hq | exact (Hmine j id q' Hj')]).
    simpl. lia. }
  split; [|split; [done|split; [exact Hindices|]]].
  - unfold removePlayer, bind, db.getPlayer. rewrite Hp. simpl.
    rewrite (patchPlayer_found _ _ p) by done.
    unfold db.activePlayersByGame. simpl. exact Hrun.
  - unfold contiguous. by rewrite Hindices.
Qed.

Lemma activePlayersOf_snoc (gid : Id) (table : list Player) (p : Player) :
  gameId p = gid -> isActive p = true ->
  activePlayersOf gid (table ++ [p])
  = activePlayersOf gid table ++ [(length table, p)].
Proof.
  intros Hg Ha. unfold activePlayersOf, playersOf, docs.
  rewrite imap_app, !filter_app. f_equal. simpl. rewrite Nat.add_0_r.
  rewrite (filter_cons_True (fun dp : Doc Player => gameId (snd dp) = gid)) by done.
  rewrite filter_nil.
  by rewrite (filter_cons_True (fun dp : Doc Player => isActive (snd dp) = true)).
Qed.

(** [addPlayer] keeps the indices contiguous as long as no player of the
    game was removed before. *)
Lemma addPlayer_contiguous (d : Db) (gid : Id) (name0 color0 : string) :
  playersOf gid (players d) = activePlayersOf gid (players d) ->
  activeIndices d gid = seqZ 0 (activeCount d gid) ->
  activeIndices (snd (addPlayer gid name0 color0 d)) gid
  = seqZ 0 (activeCount (snd (addPlayer gid name0 color0 d)) gid).
Proof.
  intros Hall Hcont. rewrite addPlayer_run.
  unfold activeIndices, activeCount in *. simpl.
  rewrite activePlayersOf_snoc by done.
  rewrite fmap_app, length_app, Hcont, Hall. simpl.
  rewrite Nat2Z.inj_add, seqZ_app by lia. done.
Qed.

(** C1, at the input on which the code departs from it. [removePlayer]
    restores the range 0, ..., n-1 ([removePlayer_contiguous]) and
    [addPlayer] keeps it while no player of the game was removed
    ([addPlayer_contiguous]); but [addPlayer] numbers the new player by the
    count of all the rows of the game, the removed ones included, not by
    the count of the active ones. After the second of three players was
    removed the two active players have the indices 0 and 1, and the player
    added next gets the index 3, not 2: the active indices are 0, 1, 3,
    which is not the range 0, 1, 2. *)
Theorem C1_addPlayer_counts_removed_rows :
  (forall d gid name0 color0,
     exists d',
       addPlayer gid name0 color0 d = (Returned (length (players d)), d')
       /\ index <$> players d' !! length (players d)
          = Some (Z.of_nat (length (playersOf gid (players d)))))
  /\ activeIndices sample.lobby3 0%nat = [0; 1; 2]
  /\ removePlayer 1%nat sample.lobby3 = (Returned tt, sample.removed)
  /\ activeIndices sample.removed 0%nat = [0; 1]
  /\ activeCount sample.removed 0%nat = 2
  /\ addPlayer 0%nat "Speler 3" "#96CEB4" sample.removed
     = (Returned 3%nat, sample.rejoined)
  /\ activeIndices sample.rejoined 0%nat = [0; 1; 3]
  /\ ~ contiguous sample.rejoined 0%nat.
Proof.
  split.
  { intros d gid name0 color0. eexists. split; [apply addPlayer_run|].
    simpl. rewrite lookup_app_r by lia. by rewrite Nat.sub_diag. }
  repeat split; try (vm_compute; reflexivity).
  unfold contiguous. intros H.
  assert (Hin : 3 ∈ activeIndices sample.rejoined 0%nat).
  { vm_compute. do 2 apply list_elem_of_further. apply list_elem_of_here. }
  rewrite H in Hin. apply elem_of_seqZ in Hin.
  vm_compute in Hin. destruct Hin as [_ Hin]. discriminate.
Qed.

(** ** The tally

    Sorting first. *)

Section sorting.
Context {A : Type} (cmp : A -> A -> Z).

Lemma insertBy_perm (x : A) (l : list A) : insertBy cmp x l ≡ₚ x :: l.
Proof.
  induction l as [|y l IH]; simpl; [done|].
  destruct (0 <? cmp x y); [|done].
  rewrite IH. apply Permutation_swap.
Qed.

Lemma sortBy_perm (l : list A) : sortBy cmp l ≡ₚ l.
Proof.
  induction l as [|x l IH]; [done|].
  change (insertBy cmp x (sortBy cmp l) ≡ₚ x :: l).
  by rewrite insertBy_perm, IH.
Qed.

Lemma sortBy_fmap {B} (f : B -> A) (l : list B) :
  sortBy cmp (f <$> l) = f <$> sortBy (fun a b => cmp (f a) (f b)) l.
Proof.
  induction l as [|x l IH]; [done|].
  change (insertBy cmp (f x) (sortBy cmp (f <$> l))
          = f <$> insertBy (fun a b => cmp (f a) (f b)) x
                    (sortBy (fun a b => cmp (f a) (f b)) l)).
  rewrite IH. clear IH.
  induction (sortBy _ l) as [|y s IHs]; simpl; [done|].
  destruct (0 <? cmp (f x) (f y)); simpl; [f_equal; apply IHs | done].
Qed.

(** Elements none of which compares behind another keep their order. *)
Lemma sortBy_ties (l : list A) :
  (forall x y, x ∈ l -> y ∈ l -> cmp x y <= 0) -> sortBy cmp l = l.
Proof.
  induction l as [|x l IH]; intros Hties; [done|].
  change (insertBy cmp x (sortBy cmp l) = x :: l).
  rewrite IH.
  - destruct l as [|y l]; simpl; [done|].
    destruct (Z.ltb_spec 0 (cmp x y)) as [Hlt|]; [|done].
    assert (cmp x y <= 0); [|lia].
    apply Hties; [apply list_elem_of_here|].
    apply list_elem_of_further, list_elem_of_here.
  - intros y z Hy Hz. apply Hties; by apply list_elem_of_further.
Qed.
End sorting.

Lemma insertBy_ranks (x : nat * ResultsScreen.VoteResult)
    (s : list (nat * ResultsScreen.VoteResult)) :
  StronglySorted ranksBefore s ->
  Forall (fun y => (fst x < fst y)%nat) s ->
  StronglySorted ranksBefore (insertBy byVotes x s).
Proof.
  induction 1 as [|y s Hs IH Hy]; intros Hx; simpl.
  - repeat constructor.
  - apply Forall_cons in Hx as [Hxy Hx].
    unfold byVotes at 1.
    destruct (Z.ltb_spec 0 (ResultsScreen.votes (snd y) - ResultsScreen.votes (snd x)))
      as [Hlt|Hge].
    + constructor; [by apply IH|].
      rewrite insertBy_perm. constructor; [|done]. left. lia.
    + constructor; [by constructor|].
      constructor.
      * unfold ranksBefore. lia.
      * rewrite Forall_forall in Hx, Hy |- *. intros z Hz.
        specialize (Hx z Hz). specialize (Hy z Hz). unfold ranksBefore in *. lia.
Qed.

Lemma sortBy_ranks (l : list (nat * ResultsScreen.VoteResult)) :
  StronglySorted (fun a b => (fst a < fst b)%nat) l ->
  StronglySorted ranksBefore (sortBy byVotes l).
Proof.
  induction 1 as [|x l Hl IH Hx]; [constructor|].
  change (StronglySorted ranksBefore (insertBy byVotes x (sortBy byVotes l))).
  apply insertBy_ranks; [done|]. by rewrite sortBy_perm.
Qed.

(** Counting: the table [voteCounts] holds, for every index, the number of
    vote values equal to it. *)
Lemma countVote_fold (vals : list Z) : forall (acc : gmap Z Z) (i : Z),
  default 0 (foldl ResultsScreen.countVote acc vals !! i)
  = default 0 (acc !! i) + Z.of_nat (length (filter (fun v => v = i) vals)).
Proof.
  induction vals as [|v vals IH]; intros acc i; simpl.
  - lia.
  - rewrite IH. unfold ResultsScreen.countVote.
    rewrite filter_cons. destruct (decide (v = i)) as [->|Hne].
    + rewrite lookup_insert_eq. simpl. lia.
    + rewrite lookup_insert_ne by done. lia.
Qed.

Lemma voteCounts_votesFor (ballot : gmap string Z) (i : Z) :
  default 0 (ResultsScreen.voteCounts ballot !! i) = votesFor ballot i.
Proof.
  unfold ResultsScreen.voteCounts, votesFor. rewrite countVote_fold.
  by rewrite lookup_empty.
Qed.

(** The roster by position. *)
Lemma imap_offset {B C} (h : nat -> B -> C) (k : nat) (x : B) (l : list B) :
  imap (fun i => h (k + i)%nat) (x :: l)
  = h k x :: imap (fun i => h (S k + i)%nat) l.
Proof.
  simpl. rewrite Nat.add_0_r. f_equal. apply imap_ext. intros i y _. simpl.
  f_equal. lia.
Qed.

Lemma indexed_sorted {B C} (h : nat -> B -> C) (l : list B) : forall k : nat,
  StronglySorted (fun a b : nat * C => (fst a < fst b)%nat)
    (imap (fun i p => ((k + i)%nat, h (k + i)%nat p)) l)
  /\ Forall (fun a : nat * C => (k <= fst a)%nat)
       (imap (fun i p => ((k + i)%nat, h (k + i)%nat p)) l).
Proof.
  induction l as [|x l IH]; intros k.
  - split; constructor.
  - rewrite (imap_offset (fun i p => (i, h i p))).
    destruct (IH (S k)) as [Hs Hf]. split.
    + constructor; [done|]. eapply Forall_impl; [exact Hf|]. simpl. lia.
    + constructor; [simpl; lia|]. eapply Forall_impl; [exact Hf|]. simpl. lia.
Qed.

Lemma rosterTally_sorted g ballot roster :
  StronglySorted (fun a b => (fst a < fst b)%nat) (rosterTally g ballot roster).
Proof. apply (indexed_sorted (tallyEntry g ballot) roster 0). Qed.

(** The tally of the results screen is the roster tally, stably sorted. *)
Lemma getVoteResults_ranked (roster : list (Doc Player)) (g : Game)
    (ballot : gmap string Z) :
  schema.votes g = Some ballot ->
  ResultsScreen.getVoteResults (Some roster) (Some g)
  = (sortBy byVotes (rosterTally g ballot roster)).*2.
Proof.
  intros Hv. unfold ResultsScreen.getVoteResults. rewrite Hv.
  transitivity
    (sortBy (fun a b => ResultsScreen.votes b - ResultsScreen.votes a)
       (snd <$> rosterTally g ballot roster)).
  - f_equal. unfold rosterTally. rewrite fmap_imap. apply imap_ext.
    intros i p _. simpl. unfold tallyEntry. by rewrite voteCounts_votesFor.
  - apply (sortBy_fmap
             (fun a b => ResultsScreen.votes b - ResultsScreen.votes a) snd).
Qed.

(** The outcome. *)

Lemma filter_all_length {A} (P : A -> Prop) `{forall x, Decision (P x)} (l : list A) :
  length (filter P l) = length l <-> Forall P l.
Proof.
  induction l as [|x l IH]; [by split; [constructor|]|].
  rewrite filter_cons. destruct (decide (P x)) as [Hx|Hx]; simpl.
  - rewrite Forall_cons. split.
    + intros [= Hlen]. split; [done | by apply IH].
    + intros [_ Hall]. f_equal. by apply IH.
  - split.
    + intros Hlen. pose proof (length_filter P l). lia.
    + intros [? _]%Forall_cons. done.
Qed.

Lemma caught_by_position (g : Game) (ballot : gmap string Z)
    (l : list (Doc Player)) : forall k : nat,
  length (filter (fun r => ResultsScreen.isImposter r = true
                           /\ 0 < ResultsScreen.votes r)
            (imap (fun i => tallyEntry g ballot (k + i)) l))
  = length (filter (fun i : nat => Z.of_nat i ∈ imposters g
                                   /\ 0 < votesFor ballot (Z.of_nat i))
              (seq k (length l))).
Proof.
  induction l as [|x l IH]; intros k; [done|].
  rewrite (imap_offset (tallyEntry g ballot)).
  change (seq k (length (x :: l))) with (k :: seq (S k) (length l)).
  rewrite !filter_cons. pose proof (IH (S k)) as IHk.
  destruct (decide (ResultsScreen.isImposter (tallyEntry g ballot k x) = true
                    /\ 0 < ResultsScreen.votes (tallyEntry g ballot k x)))
    as [[Hi Hv]|Hno];
    destruct (decide (Z.of_nat k ∈ imposters g
                      /\ 0 < votesFor ballot (Z.of_nat k))) as [[Hi' Hv']|Hno'].
  - simpl length. f_equal. exact IHk.
  - apply bool_decide_eq_true in Hi. by destruct Hno'.
  - destruct Hno. split; [by apply bool_decide_eq_true | done].
  - exact IHk.
Qed.

Lemma caught_imposters (g : Game) (ballot : gmap string Z) (n : nat) :
  NoDup (imposters g) ->
  Forall (fun i => inRange (Z.of_nat n) i \/ votesFor ballot i = 0) (imposters g) ->
  length (filter (fun i : nat => Z.of_nat i ∈ imposters g
                                 /\ 0 < votesFor ballot (Z.of_nat i))
            (seq 0 n))
  = length (filter (fun z => 0 < votesFor ballot z) (imposters g)).
Proof.
  intros Hnd Hrg.
  rewrite <- (length_fmap Z.of_nat). apply Permutation_length.
  apply NoDup_Permutation.
  - apply (NoDup_fmap_2 _). apply NoDup_filter, NoDup_seq.
  - by apply NoDup_filter.
  - intros z. rewrite list_elem_of_fmap, list_elem_of_filter. split.
    + intros (i & -> & Hi). apply list_elem_of_filter in Hi as [[? ?] _]. done.
    + intros [Hv Hz]. rewrite Forall_forall in Hrg.
      destruct (Hrg z Hz) as [Hr|Hr]; [|lia]. unfold inRange in Hr.
      exists (Z.to_nat z). split; [lia|].
      apply list_elem_of_filter. rewrite Z2Nat.id by lia.
      split; [done|]. apply elem_of_seq. lia.
Qed.

(** The side condition of the amended C5 holds in a round that is played
    with the roster it was started with: after [startGame], any number of
    [nextPlayer] calls and [submitVotes], the imposters are pairwise
    distinct roster indices. *)
Lemma advance_keeps_imposters (gid : Id) (nows : list Z) : forall (d : Db) (g : Game),
  games d !! gid = Some g ->
  exists g',
    GameScreen.advance gid nows d = (Returned tt, withGame d gid g')
    /\ imposters g' = imposters g.
Proof.
  induction nows as [|now nows IH]; intros d g Hg.
  - exists g. split; [|done]. simpl. unfold ret, withGame.
    rewrite list_insert_id by done. by destruct d.
  - simpl. unfold bind at 1. rewrite (nextPlayer_found _ _ _ g Hg).
    set (g1 := turnAdvanced (activeCount d gid) now g).
    assert (Hi : imposters g1 = imposters g).
    { unfold g1, turnAdvanced. by destruct (_ <=? _). }
    destruct (IH (withGame d gid g1) g1) as (g' & Hrun & Himp).
    { by eapply withGame_lookup. }
    exists g'. split; [|congruence]. rewrite Hrun. f_equal.
    unfold withGame. simpl. by rewrite list_insert_insert_eq.
Qed.

Lemma round_played_imposters
    (d d' : Db) (gid : Id) (g : Game) (now : Z) (r0 : Q) (tape : list Q)
    (nows : list Z) (ballot : gmap string Z) :
  games d !! gid = Some g ->
  Forall unitInterval tape ->
  (startGame gid now r0 tape ;;; GameScreen.advance gid nows ;;;
   submitVotes gid ballot) d = (Returned tt, d') ->
  exists g',
    games d' !! gid = Some g'
    /\ status g' = Results
    /\ schema.votes g' = Some ballot
    /\ players d' = players d
    /\ NoDup (imposters g')
    /\ Forall (inRange (Z.of_nat (length (activePlayersOf gid (players d')))))
         (imposters g').
Proof.
  intros Hg Htape. unfold bind at 1. rewrite (startGame_found _ _ _ _ _ g Hg).
  destruct (Z.ltb_spec (activeCount d gid) 3) as [|Hn]; [done|].
  destruct (bool_decide (length (selectedCategories g) = _)); [done|].
  destruct (bool_decide (length (wordPool d g) = _)); [done|].
  destruct (nthZ _ _) as [w|]; [|done].
  destruct (assignImposters _ _ _ _) as [chosen|] eqn:Hloop; [|done].
  assert (Hpos : 0 < activeCount d gid) by lia.
  destruct (assignImposters_returns _ _ _ _ _ Hpos Htape
              (NoDup_nil_2) (Forall_nil_2 _) Hloop) as (Hnd & Hrg & _).
  set (g1 := patchGame g _). set (d1 := withGame d gid g1).
  assert (Hg1 : games d1 !! gid = Some g1) by (by eapply withGame_lookup).
  destruct (advance_keeps_imposters gid nows d1 g1 Hg1) as (g2 & Hrun & Himp).
  unfold bind at 1. rewrite Hrun.
  assert (Hg2 : games (withGame d1 gid g2) !! gid = Some g2)
    by (by eapply withGame_lookup).
  unfold submitVotes. destruct (v_record ballot); [|done].
  rewrite (patchGame_found _ _ g2) by done. intros [= <-].
  eexists. split; [by eapply withGame_lookup|].
  split; [reflexivity|]. split; [reflexivity|]. split; [reflexivity|].
  change (imposters (patchGame g2 _)) with (imposters g2). rewrite Himp.
  split; [exact Hnd | exact Hrg].
Qed.

(** C5 as stated fails. No mutation looks at the status, so the roster can
    change after the start while [imposters] keeps the indices drawn for
    the old roster. In the game below, reached by mutation calls, six
    players were dealt the imposters 0 and 5 and the last three players
    were then removed. The game is in Results, the first element of the
    tally is an imposter and every imposter index has received a vote, yet
    the outcome is not a success: [getGameOutcome] compares the number of
    roster players that are imposters with votes, 1, with the length of
    [imposters], 2. *)
Lemma C5_stale_imposters_never_caught :
  exists g roster top o,
    games sample.shrunk !! 0%nat = Some g
    /\ status g = Results
    /\ schema.votes g = Some sample.ballot6
    /\ imposters g = [0; 5]
    /\ getPlayers 0%nat sample.shrunk = (Returned roster, sample.shrunk)
    /\ length roster = 3%nat
    /\ head (ResultsScreen.getVoteResults (Some roster) (Some g)) = Some top
    /\ ResultsScreen.isImposter top = true
    /\ (forall i, i ∈ imposters g -> 0 < votesFor sample.ballot6 i)
    /\ ResultsScreen.getGameOutcome (Some roster) (Some g) = Some o
    /\ ResultsScreen.success o = false.
Proof.
  do 4 eexists.
  split; [vm_compute; reflexivity|]. split; [reflexivity|].
  split; [reflexivity|]. split; [reflexivity|].
  split; [vm_compute; reflexivity|]. split; [reflexivity|].
  split; [vm_compute; reflexivity|]. split; [reflexivity|].
  split.
  - intros i Hi. cbn [imposters] in Hi.
    apply elem_of_cons in Hi as [->|Hi]; [vm_compute; reflexivity|].
    apply list_elem_of_singleton in Hi as ->. vm_compute. reflexivity.
  - split; vm_compute; reflexivity.
Qed.

(** C5, amended. For a game with stored votes, whose imposters are pairwise
    distinct and each a roster index of the roster the screen holds (or,
    failing that, an index nobody voted for), the tally [getVoteResults] is
    a rearrangement of the roster tally, which pairs the player at each
    roster index with the number of vote values equal to that index and
    with whether the index is an imposter; it is sorted by vote count
    descending, and among equal counts by roster index ascending. When all
    counts are 0 the tally is in roster order, so its first element is the
    player at roster index 0. With an empty roster there is no outcome;
    otherwise the outcome's success is true exactly when the first element
    of the sorted tally is an imposter and every imposter has at least one
    vote. *)
Theorem C5_tally_and_outcome (roster : list (Doc Player)) (g : Game)
    (ballot : gmap string Z) :
  schema.votes g = Some ballot ->
  NoDup (imposters g) ->
  Forall (fun i => inRange (Z.of_nat (length roster)) i \/ votesFor ballot i = 0)
    (imposters g) ->
  exists ranked : list (nat * ResultsScreen.VoteResult),
    ResultsScreen.getVoteResults (Some roster) (Some g) = ranked.*2
    /\ ranked ≡ₚ rosterTally g ballot roster
    /\ StronglySorted ranksBefore ranked
    /\ ((forall i : nat, (i < length roster)%nat -> votesFor ballot (Z.of_nat i) = 0) ->
        ranked = rosterTally g ballot roster)
    /\ match head ranked with
       | None => ResultsScreen.getGameOutcome (Some roster) (Some g) = None
       | Some top =>
           exists o,
             ResultsScreen.getGameOutcome (Some roster) (Some g) = Some o
             /\ (ResultsScreen.success o = true
                 <-> ResultsScreen.isImposter (snd top) = true
                     /\ forall i, i ∈ imposters g -> 0 < votesFor ballot i)
       end.
Proof.
  intros Hv Hnd Hrg.
  exists (sortBy byVotes (rosterTally g ballot roster)).
  pose proof (getVoteResults_ranked roster g ballot Hv) as Hres.
  split; [done|]. split; [apply sortBy_perm|].
  split; [apply sortBy_ranks, rosterTally_sorted|]. split.
  - intros Hzero. apply sortBy_ties. intros a b Ha Hb.
    assert (Hvotes : forall c, c ∈ rosterTally g ballot roster ->
              ResultsScreen.votes (snd c) = 0).
    { intros c Hc. apply list_elem_of_lookup in Hc as [i Hc].
      unfold rosterTally in Hc. rewrite list_lookup_imap in Hc.
      destruct (roster !! i) as [p|] eqn:Hp; [|done].
      injection Hc as <-. simpl. apply Hzero. by eapply lookup_lt_Some. }
    unfold byVotes. rewrite (Hvotes a Ha), (Hvotes b Hb). lia.
  - assert (Hfound :
      length (filter (fun r => ResultsScreen.isImposter r = true
                               /\ 0 < ResultsScreen.votes r)
                (ResultsScreen.getVoteResults (Some roster) (Some g)))
      = length (imposters g)
      <-> forall i, i ∈ imposters g -> 0 < votesFor ballot i).
    { assert (Hshape : (rosterTally g ballot roster).*2
                       = imap (fun i => tallyEntry g ballot (0 + i)) roster).
      { unfold rosterTally. rewrite fmap_imap. by apply imap_ext. }
      rewrite Hres, (sortBy_perm byVotes (rosterTally g ballot roster)), Hshape.
      rewrite (caught_by_position g ballot roster 0), caught_imposters by done.
      rewrite filter_all_length, Forall_forall. done. }
    unfold ResultsScreen.getGameOutcome.
    revert Hfound. rewrite Hres.
    destruct (sortBy byVotes (rosterTally g ballot roster)) as [|top rest];
      [done|].
    intros Hfound. change (head (top :: rest).*2) with (Some (snd top)).
    cbv beta iota.
    destruct (ResultsScreen.isImposter (snd top)) eqn:Himp.
    + eexists. split; [reflexivity|]. simpl ResultsScreen.success.
      rewrite bool_decide_eq_true, Hfound. tauto.
    + eexists. split; [reflexivity|]. simpl. rewrite Himp.
      split; [discriminate | intros [? _]; discriminate].
Qed.

Lemma C5_tally_witness :
  exists g roster,
    games sample.results4 !! 0%nat = Some g
    /\ getPlayers 0%nat sample.results4 = (Returned roster, sample.results4)
    /\ imposters g = [2]
    /\ (fun r => (fst (ResultsScreen.player r), ResultsScreen.votes r,
                  ResultsScreen.isImposter r))
         <$> ResultsScreen.getVoteResults (Some roster) (Some g)
       = [(2%nat, 3, true); (0%nat, 1, false); (1%nat, 0, false); (3%nat, 0, false)]
    /\ exists o,
         ResultsScreen.getGameOutcome (Some roster) (Some g) = Some o
         /\ ResultsScreen.success o = true.
Proof.
  assert (exists g, games sample.results4 !! 0%nat = Some g) as [g E]
    by (eexists; reflexivity).
  assert (Hv : schema.votes g = Some sample.ballot4)
    by (injection E as <-; reflexivity).
  assert (Hi : imposters g = [2]) by (injection E as <-; reflexivity).
  exists g, (activePlayersOf 0%nat (players sample.results4)).
  split; [exact E|]. split; [reflexivity|]. split; [exact Hi|].
  assert (Htally :
    (fun r => (fst (ResultsScreen.player r), ResultsScreen.votes r,
               ResultsScreen.isImposter r))
      <$> ResultsScreen.getVoteResults
            (Some (activePlayersOf 0%nat (players sample.results4))) (Some g)
    = [(2%nat, 3, true); (0%nat, 1, false); (1%nat, 0, false); (3%nat, 0, false)])
    by (injection E as <-; vm_compute; reflexivity).
  split; [exact Htally|].
  destruct (C5_tally_and_outcome
              (activePlayersOf 0%nat (players sample.results4)) g
              sample.ballot4 Hv)
    as (ranked & Hres & _ & _ & _ & Hout).
  - rewrite Hi. apply NoDup_singleton.
  - rewrite Hi. apply Forall_singleton. left. vm_compute. split; congruence.
  - rewrite Hres in Htally. destruct ranked as [|top rest]; [discriminate|].
    simpl in Hout. destruct Hout as (o & Ho & Hsucc). exists o. split; [exact Ho|].
    apply Hsucc. split.
    + apply (f_equal (fun l => snd <$> head l)) in Htally.
      by injection Htally.
    + rewrite Hi. intros i ->%list_elem_of_singleton. vm_compute. reflexivity.
Defined.

(** * The rest of the back end and of the screens: properties *)

(** ** Creating a game *)

(** X1. [createGame] returns the id of a new row, under which [getGame]
    finds a Lobby game with the given code and settings, the total rounds
    taken from the settings, and the round cleared; the id was free before,
    and the games stored before, the players and the catalog are as they
    were. *)
Theorem createGame_getGame (d : Db) (gameCode0 : string) (settings0 : Settings) :
  exists gid d' g,
    createGame gameCode0 settings0 d = (Returned gid, d')
    /\ getGame gid d = (Returned None, d)
    /\ getGame gid d' = (Returned (Some g), d')
    /\ gameCode g = gameCode0
    /\ settings g = settings0
    /\ totalRounds g = wordsPerRound settings0
    /\ selectedCategories g = []
    /\ roundCleared g
    /\ (forall j g0, games d !! j = Some g0 -> games d' !! j = Some g0)
    /\ players d' = players d
    /\ categories d' = categories d.
Proof.
  eexists (length (games d)), _, _. split; [reflexivity|].
  unfold getGame, db.getGame. simpl. split; [|split].
  - f_equal. f_equal. apply lookup_ge_None_2. lia.
  - f_equal. f_equal. rewrite lookup_app_r by lia. by rewrite Nat.sub_diag.
  - repeat split; try reflexivity.
    intros j g0 Hj. by apply lookup_app_l_Some.
Qed.

(** ** What each mutation does to the database *)

Lemma removePlayer_missing (d : Db) (pid : Id) :
  players d !! pid = None -> removePlayer pid d = (Returned tt, d).
Proof.
  intros H. unfold removePlayer, bind, db.getPlayer. by rewrite H.
Qed.

(** [removePlayer] of a stored player: the table keeps its length; every
    row keeps its game, name and colour; only the removed row changes its
    [isActive], to false; only active rows of the game of the removed
    player change their index, and they are numbered by their position. *)
Lemma removePlayer_run (d : Db) (pid : Id) (p : Player) :
  players d !! pid = Some p ->
  exists table : list Player,
    removePlayer pid d = (Returned tt, withPlayers d table)
    /\ length table = length (players d)
    /\ (forall (k : nat) x, players d !! k = Some x ->
          exists y, table !! k = Some y
            /\ gameId y = gameId x /\ name y = name x /\ color y = color x
            /\ isActive y = (if decide (k = pid) then false else isActive x)
            /\ (gameId x ≠ gameId p \/ isActive y = false -> index y = index x))
    /\ (forall (j : nat) id q,
          activePlayersOf (gameId p) table !! j = Some (id, q) ->
          index q = Z.of_nat j).
Proof.
  intros Hp.
  set (t1 := <[pid := patchPlayer p [SetIsActive false]]> (players d)).
  destruct (reindex_run (activePlayersOf (gameId p) t1) 0 (withPlayers d t1))
    as (table & Hrun & Hlen & Hother & Hmine).
  { apply activePlayersOf_ids_NoDup. }
  { intros id q Hin. by apply elem_of_activePlayersOf in Hin as [? _]. }
  simpl in Hlen, Hother.
  assert (Hrows : forall (k : nat) x1, t1 !! k = Some x1 ->
            exists y, table !! k = Some y
              /\ gameId y = gameId x1 /\ name y = name x1 /\ color y = color x1
              /\ isActive y = isActive x1
              /\ (gameId x1 ≠ gameId p \/ isActive x1 = false -> y = x1)).
  { unfold Doc, Id in *. intros k x1 Hx1.
    destruct (decide (k ∈ (activePlayersOf (gameId p) t1).*1)) as [Hk|Hk].
    - apply list_elem_of_fmap in Hk as ([k' x'] & -> & Hin). simpl in *.
      pose proof Hin as Hrow.
      apply elem_of_activePlayersOf in Hrow as (Hrow & Hgame & Hact).
      apply list_elem_of_lookup in Hin as [j' Hj'].
      assert (Some x' = Some x1) as [= ->]
        by (etrans; [symmetry; exact Hrow | exact Hx1]).
      eexists. split; [exact (Hmine j' k' x1 Hj')|]. simpl.
      repeat split; try done. intros [Hne|Hina]; [done|congruence].
    - exists x1. split; [|by repeat split].
      etrans; [apply (Hother k Hk)|]. exact Hx1. }
  exists table. split; [|split; [|split]].
  - unfold removePlayer, bind, db.getPlayer. rewrite Hp. simpl.
    rewrite (patchPlayer_found _ _ p) by done.
    unfold db.activePlayersByGame. simpl. exact Hrun.
  - rewrite Hlen. unfold t1. apply length_insert.
  - intros k x Hx. destruct (decide (k = pid)) as [->|Hne].
    + assert (Some x = Some p) as [= ->]
        by (etrans; [symmetry; exact Hx | exact Hp]).
      destruct (Hrows pid (patchPlayer p [SetIsActive false])) as (y & Hy & ? & ? & ? & Ha & Hsame).
      { unfold t1. apply list_lookup_insert_eq. by eapply lookup_lt_Some. }
      exists y. split; [done|]. repeat split; try done.
      intros _. rewrite Hsame; [done|]. by right.
    + destruct (Hrows k x) as (y & Hy & ? & ? & ? & Ha & Hsame).
      { unfold t1. by rewrite list_lookup_insert_ne. }
      exists y. split; [done|]. repeat split; try done.
      intros [?|Hina]; rewrite Hsame; try done; [by left|].
      right. congruence.
  - intros j id q Hj.
    assert (Hseats : Forall2 sameSeat t1 table).
    { apply Forall2_same_length_lookup_2; [done|]. intros k x y Hx Hy.
      destruct (Hrows k x Hx) as (y' & Hy' & Hg & _ & _ & Ha & _).
      assert (Some y' = Some y) as [= ->]
        by (etrans; [symmetry; exact Hy' | exact Hy]).
      by split. }
    unfold Doc, Id in *.
    destruct (Forall2_lookup_r _ _ _ _ _
                (activePlayersOf_sameSeat (gameId p) t1 table Hseats) Hj)
      as ([id' q'] & Hj' & Hids).
    simpl in Hids. subst id'.
    apply list_elem_of_lookup_2, elem_of_activePlayersOf in Hj as [Hq _].
    assert (Some q = Some (patchPlayer q' [SetIndex (0 + Z.of_nat j)])) as [= ->]
      by (etrans; [symmetry; exact Hq | exact (Hmine j id q' Hj')]).
    simpl. lia.
Qed.

Lemma startGame_missing (d : Db) (gid : Id) (now : Z) (r0 : Q) (tape : list Q) :
  games d !! gid = None ->
  startGame gid now r0 tape d = (Thrown "Game not found", d).
Proof. intros H. unfold startGame, bind, db.getGame. by rewrite H. Qed.

Lemma patchPlayer_missing (d : Db) (id : Id) (fields : list PlayerField) :
  players d !! id = None ->
  db.patchPlayer id fields d = (Thrown missing_document, d).
Proof. intros H. unfold db.patchPlayer. by rewrite H. Qed.

(** The calls that play a round either change nothing or patch round
    fields of their game. *)
Lemma roundCall_effect (gid : Id) (c : Call) (d : Db) :
  roundCall gid c ->
  snd (call c d) = d
  \/ exists g fields,
       games d !! gid = Some g /\ Forall roundField fields
       /\ call c d = (Returned tt, withGame d gid (patchGame g fields)).
Proof.
  destruct c; simpl; try done; intros ->;
    destruct (games d !! gid) as [g|] eqn:Hg.
  - rewrite (startGame_found _ _ _ _ _ g Hg).
    destruct (_ <? 3); [by left|].
    destruct (bool_decide (length (selectedCategories g) = _)); [by left|].
    destruct (bool_decide (length (wordPool d g) = _)); [by left|].
    destruct (nthZ _ _) as [randomWord|]; [|by left].
    destruct (assignImposters _ _ _ _) as [chosen|]; [|by left].
    right. eexists g, _. split; [done|]. split; [|reflexivity].
    repeat constructor.
  - left. by rewrite startGame_missing.
  - right. rewrite (nextPlayer_found _ _ _ g Hg). unfold turnAdvanced.
    destruct (_ <=? _); eexists g, _; (split; [done|]);
      (split; [|reflexivity]); repeat constructor.
  - left. by rewrite nextPlayer_missing.
  - destruct (v_record votes0) eqn:Hv; [|left; by rewrite submitVotes_refused].
    right. eexists g, _. split; [done|]. split; [|by apply submitVotes_found].
    repeat constructor.
  - left. unfold submitVotes. destruct (v_record votes0); [|done].
    by rewrite patchGame_missing.
  - right. eexists g, _. split; [done|]. split; [|by apply patchGame_found].
    repeat constructor.
  - left. unfold endGame. by rewrite patchGame_missing.
  - right. eexists g, _. split; [done|]. split; [|by apply patchGame_found].
    repeat constructor.
  - left. unfold resetToLobby. by rewrite patchGame_missing.
Qed.

(** What any call does: nothing; or a patch of one game, of round fields,
    of the settings together with the total rounds, or of the selected
    categories; or a new game; or a players table in which every row there
    was keeps its game and, once removed, stays removed. *)
Lemma call_effect (c : Call) (d : Db) :
  snd (call c d) = d
  \/ (exists gid g fields,
        games d !! gid = Some g
        /\ (Forall roundField fields
            \/ (exists s, fields = [SetSettings s; SetTotalRounds (wordsPerRound s)])
            \/ (exists cs, fields = [SetSelectedCategories cs]))
        /\ call c d = (Returned tt, withGame d gid (patchGame g fields)))
  \/ (exists g,
        totalRounds g = wordsPerRound (settings g)
        /\ call c d
           = (Returned tt,
              {| games := games d ++ [g]; players := players d;
                 categories := categories d |}))
  \/ (exists table,
        call c d = (Returned tt, withPlayers d table)
        /\ forall (k : nat) p, players d !! k = Some p ->
             exists p', table !! k = Some p' /\ gameId p' = gameId p
                        /\ (isActive p = false -> isActive p' = false)).
Proof.
  destruct c as [code st|gid st|gid cs|gid now r0 tape|gid now|gid v|gid|gid
                 |gid n col|pid n col|pid].
  - right. right. left. eexists. split; [|reflexivity]. reflexivity.
  - destruct (games d !! gid) as [g|] eqn:Hg.
    + right. left. eexists gid, g, _. split; [done|].
      split; [|by apply patchGame_found]. right. left. by eexists.
    + left. simpl. unfold updateGameSettings. by rewrite patchGame_missing.
  - destruct (games d !! gid) as [g|] eqn:Hg.
    + right. left. eexists gid, g, _. split; [done|].
      split; [|by apply patchGame_found]. right. right. by eexists.
    + left. simpl. unfold updateSelectedCategories. by rewrite patchGame_missing.
  - destruct (roundCall_effect gid (StartGame gid now r0 tape) d eq_refl)
      as [?|(g & fs & ? & ? & ?)]; [by left|]. right. left. eexists gid, g, fs. auto.
  - destruct (roundCall_effect gid (NextPlayer gid now) d eq_refl)
      as [?|(g & fs & ? & ? & ?)]; [by left|]. right. left. eexists gid, g, fs. auto.
  - destruct (roundCall_effect gid (SubmitVotes gid v) d eq_refl)
      as [?|(g & fs & ? & ? & ?)]; [by left|]. right. left. eexists gid, g, fs. auto.
  - destruct (roundCall_effect gid (EndGame gid) d eq_refl)
      as [?|(g & fs & ? & ? & ?)]; [by left|]. right. left. eexists gid, g, fs. auto.
  - destruct (roundCall_effect gid (ResetToLobby gid) d eq_refl)
      as [?|(g & fs & ? & ? & ?)]; [by left|]. right. left. eexists gid, g, fs. auto.
  - right. right. right. eexists. split; [reflexivity|].
    intros k p Hk. exists p. split; [by apply lookup_app_l_Some | done].
  - destruct (players d !! pid) as [p|] eqn:Hp.
    + right. right. right. eexists. split.
      { simpl. unfold updatePlayer. by apply patchPlayer_found. }
      intros k q Hk. destruct (decide (k = pid)) as [->|Hne].
      * assert (Some q = Some p) as [= ->]
          by (etrans; [symmetry; exact Hk | exact Hp]).
        eexists. split; [apply list_lookup_insert_eq; by eapply lookup_lt_Some|].
        destruct n, col; done.
      * exists q. split; [by rewrite list_lookup_insert_ne | done].
    + left. simpl. unfold updatePlayer. by rewrite patchPlayer_missing.
  - destruct (players d !! pid) as [p|] eqn:Hp.
    + right. right. right.
      destruct (removePlayer_run d pid p Hp) as (table & Hrun & _ & Hrows & _).
      exists table. split; [exact Hrun|]. intros k q Hk.
      destruct (Hrows k q Hk) as (y & Hy & Hg & _ & _ & Ha & _).
      exists y. split; [done|]. split; [done|]. intros Hq. rewrite Ha.
      by destruct (decide (k = pid)).
    + left. simpl. by rewrite removePlayer_missing.
Qed.

(** ** Failure, identity and the mirrored round count *)

(** X2. A call that does not return leaves the database as it was: no
    mutation writes before it throws, or while its loop is still running. *)
Theorem call_failure_changes_nothing (c : Call) (d : Db) :
  fst (call c d) ≠ Returned tt -> snd (call c d) = d.
Proof.
  intros Hfail.
  destruct (call_effect c d)
    as [?|[(gid & g & fs & _ & _ & E)|[(g & _ & E)|(table & E & _)]]];
    [done| | |]; rewrite E in Hfail; by destruct Hfail.
Qed.

Lemma call_failure_witness :
  fst (call (StartGame 0%nat 1000 sample.wordDraw sample.tape) sample.lobby2)
  = Thrown "Need at least 3 players to start"
  /\ snd (call (StartGame 0%nat 1000 sample.wordDraw sample.tape) sample.lobby2)
     = sample.lobby2.
Proof.
  split; [vm_compute; reflexivity|].
  apply call_failure_changes_nothing. vm_compute. discriminate.
Defined.

Lemma patchGame_roundFields (fields : list GameField) : forall g : Game,
  Forall roundField fields ->
  gameCode (patchGame g fields) = gameCode g
  /\ settings (patchGame g fields) = settings g
  /\ totalRounds (patchGame g fields) = totalRounds g
  /\ selectedCategories (patchGame g fields) = selectedCategories g
  /\ patchGame (patchGame g fields) resetFields = patchGame g resetFields.
Proof.
  induction fields as [|f fields IH]; intros g Hf; [done|].
  apply Forall_cons in Hf as [Hf Hfs].
  change (patchGame g (f :: fields)) with (patchGame (setGameField g f) fields).
  destruct (IH (setGameField g f) Hfs) as (-> & -> & -> & -> & ->).
  by destruct f.
Qed.

Lemma patchGame_gameCode (fields : list GameField) : forall g : Game,
  gameCode (patchGame g fields) = gameCode g.
Proof.
  induction fields as [|f fields IH]; intros g; [done|].
  change (patchGame g (f :: fields)) with (patchGame (setGameField g f) fields).
  rewrite IH. by destruct f.
Qed.

Lemma keepsIdentity_refl (d : Db) : keepsIdentity d d.
Proof. split; [done|]. split; eauto. Qed.

Lemma keepsIdentity_trans (d1 d2 d3 : Db) :
  keepsIdentity d1 d2 -> keepsIdentity d2 d3 -> keepsIdentity d1 d3.
Proof.
  intros (Hc & Hg & Hp) (Hc' & Hg' & Hp'). split; [congruence|]. split.
  - intros j g Hj. destruct (Hg j g Hj) as (g' & Hj' & ?).
    destruct (Hg' j g' Hj') as (g'' & ? & ?). exists g''. split; [done|congruence].
  - intros k p Hk. destruct (Hp k p Hk) as (p' & Hk' & ? & ?).
    destruct (Hp' k p' Hk') as (p'' & ? & ? & ?). exists p''.
    split; [done|]. split; [congruence|auto].
Qed.

Lemma call_keepsIdentity (c : Call) (d : Db) : keepsIdentity d (snd (call c d)).
Proof.
  destruct (call_effect c d)
    as [->|[(gid & g & fs & Hg & _ & ->)|[(g & _ & ->)|(table & -> & Hrows)]]].
  - apply keepsIdentity_refl.
  - split; [done|]. split; [|by eauto]. intros j g0 Hj. simpl.
    destruct (decide (j = gid)) as [->|Hne].
    + assert (Some g0 = Some g) as [= ->]
        by (etrans; [symmetry; exact Hj | exact Hg]).
      eexists. split; [apply list_lookup_insert_eq; by eapply lookup_lt_Some|].
      apply patchGame_gameCode.
    + exists g0. by rewrite list_lookup_insert_ne.
  - split; [done|]. split; [|by eauto]. intros j g0 Hj.
    exists g0. split; [by apply lookup_app_l_Some | done].
  - split; [done|]. split; [by eauto|]. exact Hrows.
Qed.

(** X3. Whatever calls are made, the catalog stays as it is, every game
    keeps its row and its game code, and every player keeps its row and its
    game, and once removed stays removed. *)
Theorem calls_keep_identity (cs : list Call) (d : Db) :
  keepsIdentity d (perform cs d).
Proof.
  revert d. induction cs as [|c cs IH]; intros d; [apply keepsIdentity_refl|].
  eapply keepsIdentity_trans; [apply (call_keepsIdentity c)|]. apply IH.
Qed.

Lemma call_mirrorsRounds (c : Call) (d : Db) :
  mirrorsRounds d -> mirrorsRounds (snd (call c d)).
Proof.
  intros Hm.
  destruct (call_effect c d)
    as [->|[(gid & g & fs & Hg & Hfs & ->)|[(g & Hnew & ->)|(table & -> & _)]]];
    [done| | |done].
  - intros j g0. simpl. destruct (decide (j = gid)) as [->|Hne].
    + rewrite list_lookup_insert_eq by (by eapply lookup_lt_Some).
      intros [= <-]. destruct Hfs as [Hr|[[s ->]|[cs ->]]].
      * destruct (patchGame_roundFields fs g Hr) as (_ & -> & -> & _).
        by apply (Hm gid).
      * reflexivity.
      * simpl. by apply (Hm gid).
    + rewrite list_lookup_insert_ne by done. apply Hm.
  - intros j g0 Hj. simpl in Hj. apply lookup_app_Some in Hj as [Hj|[_ Hj]].
    + by apply (Hm j).
    + destruct (j - length (games d))%nat; [|done]. by injection Hj as <-.
Qed.

(** X4. The total rounds of every game equal the words per round of its
    settings, and no sequence of calls breaks that: [createGame] and
    [updateGameSettings] set the two together and nothing else writes
    either. *)
Theorem calls_mirror_rounds (cs : list Call) (d : Db) :
  mirrorsRounds d -> mirrorsRounds (perform cs d).
Proof.
  revert d. induction cs as [|c cs IH]; intros d Hm; [done|].
  apply IH. by apply call_mirrorsRounds.
Qed.

Lemma calls_mirror_rounds_witness :
  mirrorsRounds
    (perform [CreateGame "NIEUW" sample.settings2;
              UpdateGameSettings 0%nat sample.settings2;
              StartGame 0%nat 1000 sample.wordDraw sample.tape]
       sample.lobby3).
Proof.
  apply calls_mirror_rounds. intros [|j] g Hj; [|done]. by injection Hj as <-.
Defined.

(** ** A round and its reset *)

Lemma roundCleared_reset (g : Game) : roundCleared g -> patchGame g resetFields = g.
Proof.
  intros (? & ? & ? & ? & ? & ? & ? & ?). destruct g; simpl in *. by subst.
Qed.

Lemma withGame_same (d : Db) (gid : Id) (g : Game) :
  games d !! gid = Some g -> withGame d gid g = d.
Proof.
  intros Hg. unfold withGame. destruct d as [gs ps cs]. simpl in *.
  f_equal. by apply list_insert_id.
Qed.

Lemma withGame_withGame (d : Db) (gid : Id) (g1 g2 : Game) :
  withGame (withGame d gid g1) gid g2 = withGame d gid g2.
Proof. unfold withGame. simpl. by rewrite list_insert_insert_eq. Qed.

Lemma round_calls_patch (gid : Id) (cs : list Call) : forall (d : Db) (g : Game),
  games d !! gid = Some g ->
  Forall (roundCall gid) cs ->
  exists g',
    perform cs d = withGame d gid g'
    /\ patchGame g' resetFields = patchGame g resetFields.
Proof.
  induction cs as [|c cs IH]; intros d g Hg Hcs.
  - exists g. split; [|done]. symmetry. by apply withGame_same.
  - apply Forall_cons in Hcs as [Hc Hcs].
    change (perform (c :: cs) d) with (perform cs (snd (call c d))).
    destruct (roundCall_effect gid c d Hc) as [->|(g0 & fs & Hg0 & Hfs & ->)];
      [by apply (IH d g)|].
    assert (Some g0 = Some g) as [= ->]
      by (etrans; [symmetry; exact Hg0 | exact Hg]).
    destruct (IH (withGame d gid (patchGame g fs)) (patchGame g fs))
      as (g' & Hrun & Hreset); [by eapply withGame_lookup | done |].
    exists g'. cbn [snd]. split; [by rewrite Hrun, withGame_withGame|].
    rewrite Hreset. by apply patchGame_roundFields.
Qed.

(** X5. A game whose round is cleared, as [createGame] and [resetToLobby]
    leave it, is restored exactly by [resetToLobby] after any sequence of
    starts, turn advances, vote submissions, endings and resets of that
    game: the whole database is what it was before the round. *)
Theorem reset_undoes_the_round (d : Db) (gid : Id) (g : Game) (cs : list Call) :
  games d !! gid = Some g ->
  roundCleared g ->
  Forall (roundCall gid) cs ->
  resetToLobby gid (perform cs d) = (Returned tt, d).
Proof.
  intros Hg Hclear Hcs.
  destruct (round_calls_patch gid cs d g Hg Hcs) as (g' & -> & Hreset).
  unfold resetToLobby. erewrite patchGame_found; [|by eapply withGame_lookup].
  fold resetFields. rewrite Hreset, withGame_withGame, roundCleared_reset by done.
  by rewrite withGame_same.
Qed.

Lemma reset_undoes_the_round_witness :
  status <$> games
    (perform [StartGame 0%nat 1000 sample.wordDraw sample.tape;
              NextPlayer 0%nat 2000; NextPlayer 0%nat 3000; NextPlayer 0%nat 4000;
              SubmitVotes 0%nat sample.ballot3] sample.lobby3) !! 0%nat
  = Some Results
  /\ resetToLobby 0%nat
       (perform [StartGame 0%nat 1000 sample.wordDraw sample.tape;
                 NextPlayer 0%nat 2000; NextPlayer 0%nat 3000; NextPlayer 0%nat 4000;
                 SubmitVotes 0%nat sample.ballot3] sample.lobby3)
     = (Returned tt, sample.lobby3).
Proof.
  split; [vm_compute; reflexivity|].
  assert (exists g, games sample.lobby3 !! 0%nat = Some g) as [g E]
    by (eexists; reflexivity).
  apply (reset_undoes_the_round sample.lobby3 0%nat g); [exact E| |].
  - injection E as <-. by repeat split.
  - repeat constructor.
Defined.

(** ** A started game *)

Lemma elem_of_wordPool (d : Db) (g : Game) (w : Word) :
  w ∈ wordPool d g
  <-> exists c, c ∈ categories d /\ cat_name c ∈ selectedCategories g /\ w ∈ words c.
Proof.
  unfold wordPool. rewrite list_elem_of_In, in_flat_map. split.
  - intros (c & Hc & Hw). apply (proj2 (list_elem_of_In _ _)) in Hc.
    apply (proj2 (list_elem_of_In _ _)) in Hw.
    apply list_elem_of_filter in Hc as [? ?]. by exists c.
  - intros (c & Hc & Hn & Hw). exists c.
    split; apply list_elem_of_In; [|done]. by apply list_elem_of_filter.
Qed.

Lemma nthZ_elem_of {A} (l : list A) (i : Z) (x : A) : nthZ l i = Some x -> x ∈ l.
Proof.
  unfold nthZ. destruct (i <? 0); [done|]. apply list_elem_of_lookup_2.
Qed.

(** X6. When [startGame] returns, whatever the status was: the game had at
    least three active players and a selected category; the stored word and
    hint are those of one entry of one selected category of the catalog;
    the game is Playing at player 0 with the timer anchored at the time of
    the call if the timer is enabled and without anchor otherwise; and the
    votes, the round numbers, the settings, the selection, the game code,
    the players and the catalog are as before. *)
Theorem startGame_returned
    (d d' : Db) (gid : Id) (g : Game) (now : Z) (r0 : Q) (tape : list Q) :
  games d !! gid = Some g ->
  startGame gid now r0 tape d = (Returned tt, d') ->
  3 <= activeCount d gid
  /\ selectedCategories g ≠ []
  /\ exists g' c w,
       d' = withGame d gid g'
       /\ c ∈ categories d /\ cat_name c ∈ selectedCategories g /\ w ∈ words c
       /\ currentWord g' = Some (word w)
       /\ hintWord g' = Some (hint w)
       /\ status g' = Playing
       /\ currentPlayerIndex g' = 0
       /\ timerStartTime g' = (if timerEnabled (settings g) then Some now else None)
       /\ schema.votes g' = schema.votes g
       /\ currentRound g' = currentRound g
       /\ totalRounds g' = totalRounds g
       /\ settings g' = settings g
       /\ selectedCategories g' = selectedCategories g
       /\ gameCode g' = gameCode g.
Proof.
  intros Hg. rewrite (startGame_found _ _ _ _ _ g Hg).
  destruct (Z.ltb_spec (activeCount d gid) 3); [discriminate|].
  case_bool_decide as Hcats; [discriminate|].
  destruct (bool_decide (length (wordPool d g) = _)); [discriminate|].
  destruct (nthZ _ _) as [w|] eqn:Hw; [|discriminate].
  destruct (assignImposters _ _ _ _) as [chosen|]; [|discriminate].
  intros [= <-]. split; [done|]. split; [by intros Hnil; rewrite Hnil in Hcats|].
  apply nthZ_elem_of, elem_of_wordPool in Hw as (c & Hc & Hn & Hw).
  eexists _, c, w. split; [reflexivity|]. by repeat split.
Qed.

Lemma startGame_returned_witness :
  exists g',
    games sample.playing3 !! 0%nat = Some g'
    /\ currentWord g' = Some "Olifant" /\ hintWord g' = Some "Groot"
    /\ status g' = Playing /\ timerStartTime g' = Some 1000.
Proof.
  assert (exists g, games sample.lobby3 !! 0%nat = Some g) as [g E]
    by (eexists; reflexivity).
  destruct (startGame_returned sample.lobby3 sample.playing3 0%nat g 1000
              sample.wordDraw sample.tape E)
    as (_ & _ & g' & c & w & Hd & _ & _ & _ & _ & _ & Hs & _ & Ht & _).
  { vm_compute. reflexivity. }
  exists g'.
  assert (Hg' : games sample.playing3 !! 0%nat = Some g').
  { rewrite Hd. by eapply withGame_lookup. }
  split; [exact Hg'|].
  assert (E' : games sample.playing3 !! 0%nat = Some g') by exact Hg'.
  vm_compute in E'. injection E' as <-. by repeat split.
Defined.

(** ** The current player *)

Lemma advance_in_range (gid : Id) (nows : list Z) : forall (d : Db) (g : Game),
  games d !! gid = Some g ->
  0 <= currentPlayerIndex g < activeCount d gid ->
  exists g',
    GameScreen.advance gid nows d = (Returned tt, withGame d gid g')
    /\ 0 <= currentPlayerIndex g' < activeCount d gid.
Proof.
  induction nows as [|t nows IH]; intros d g Hg Hr.
  - exists g. split; [|done]. simpl. unfold ret. by rewrite withGame_same.
  - simpl GameScreen.advance. unfold bind. rewrite (nextPlayer_found _ _ _ g Hg).
    destruct (IH (withGame d gid (turnAdvanced (activeCount d gid) t g))
                (turnAdvanced (activeCount d gid) t g)) as (g' & Hrun & Hr').
    + by eapply withGame_lookup.
    + rewrite activeCount_withGame. unfold turnAdvanced.
      destruct (Z.leb_spec (activeCount d gid) (currentPlayerIndex g + 1));
        simpl; lia.
    + exists g'. rewrite Hrun, withGame_withGame. split; [done|].
      by rewrite activeCount_withGame in Hr'.
Qed.

(** X7. After a start that returned and any number of next-player calls
    the current index is a position of the roster [getPlayers] returns, so
    the player whose turn the game screen shows exists. *)
Theorem current_player_exists
    (d d' : Db) (gid : Id) (now : Z) (r0 : Q) (tape : list Q) (nows : list Z) :
  (startGame gid now r0 tape ;;; GameScreen.advance gid nows) d = (Returned tt, d') ->
  exists g' roster p,
    games d' !! gid = Some g'
    /\ getPlayers gid d' = (Returned roster, d')
    /\ 0 <= currentPlayerIndex g' < Z.of_nat (length roster)
    /\ GameView.currentPlayer roster g' = Some p.
Proof.
  unfold bind at 1.
  destruct (games d !! gid) as [g|] eqn:Hg;
    [|by rewrite startGame_missing].
  rewrite (startGame_found _ _ _ _ _ g Hg).
  destruct (Z.ltb_spec (activeCount d gid) 3) as [|Hn]; [done|].
  destruct (bool_decide (length (selectedCategories g) = _)); [done|].
  destruct (bool_decide (length (wordPool d g) = _)); [done|].
  destruct (nthZ _ _) as [w|]; [|done].
  destruct (assignImposters _ _ _ _) as [chosen|]; [|done].
  set (g1 := patchGame g _).
  assert (Hidx : currentPlayerIndex g1 = 0) by reflexivity.
  destruct (advance_in_range gid nows (withGame d gid g1) g1) as (g' & -> & Hr).
  { by eapply withGame_lookup. }
  { rewrite activeCount_withGame, Hidx. lia. }
  intros [= <-]. rewrite withGame_withGame.
  rewrite activeCount_withGame in Hr.
  destruct (nthZ_is_Some (activePlayersOf gid (players d)) (currentPlayerIndex g'))
    as [p Hp]; [exact Hr|].
  exists g', (activePlayersOf gid (players d)), p.
  split; [by eapply withGame_lookup|]. split; [reflexivity|].
  split; [exact Hr | exact Hp].
Qed.

Lemma current_player_exists_witness :
  exists g' roster p,
    games sample.discussion3 !! 0%nat = Some g'
    /\ getPlayers 0%nat sample.discussion3 = (Returned roster, sample.discussion3)
    /\ 0 <= currentPlayerIndex g' < Z.of_nat (length roster)
    /\ GameView.currentPlayer roster g' = Some p.
Proof.
  apply (current_player_exists sample.lobby3 sample.discussion3 0%nat 1000
           sample.wordDraw sample.tape [2000; 3000; 4000]).
  vm_compute. reflexivity.
Defined.

(** X8. For a current index on the roster, the label of the next button
    announces what [nextPlayer] then does: with "Start discussie" the call
    keeps the index and sets the status to Discussion; with "Volgende
    speler" it moves the index one on and leaves the status alone. *)
Theorem next_label_announces_the_step (d : Db) (gid : Id) (g : Game) (now : Z) :
  games d !! gid = Some g ->
  0 <= currentPlayerIndex g < activeCount d gid ->
  exists g',
    nextPlayer gid now d = (Returned tt, withGame d gid g')
    /\ ((GameView.nextLabel (activePlayersOf gid (players d)) g = "🎯 Start discussie"
         /\ status g' = Discussion
         /\ currentPlayerIndex g' = currentPlayerIndex g)
        \/ (GameView.nextLabel (activePlayersOf gid (players d)) g = "➡️ Volgende speler"
            /\ status g' = status g
            /\ currentPlayerIndex g' = currentPlayerIndex g + 1
            /\ currentPlayerIndex g' < activeCount d gid)).
Proof.
  intros Hg Hr. eexists. split; [by apply nextPlayer_found|].
  unfold GameView.nextLabel, turnAdvanced. fold (activeCount d gid).
  destruct (Z.leb_spec (activeCount d gid) (currentPlayerIndex g + 1)).
  - left. rewrite bool_decide_eq_true_2 by lia. by repeat split.
  - right. rewrite bool_decide_eq_false_2 by lia. repeat split. simpl. lia.
Qed.

Lemma next_label_witness :
  exists g',
    nextPlayer 0%nat 2000 sample.playing3
    = (Returned tt, withGame sample.playing3 0%nat g')
    /\ status g' = Playing /\ currentPlayerIndex g' = 1.
Proof.
  assert (exists g, games sample.playing3 !! 0%nat = Some g) as [g E]
    by (eexists; reflexivity).
  destruct (next_label_announces_the_step sample.playing3 0%nat g 2000 E)
    as (g' & Hrun & H).
  - injection E as <-. vm_compute. split; congruence.
  - exists g'. split; [exact Hrun|].
    destruct H as [(Hl & _)|(_ & Hs & Hi & _)].
    + injection E as <-. vm_compute in Hl. discriminate.
    + rewrite Hs, Hi. injection E as <-. by split.
Defined.

(** X9. Once the current player is the last of the roster, next-player
    calls no longer move the index: any number of them, at least one,
    leaves the game in Discussion at the same index, with the timer
    anchored at the time of the last call if the timer is enabled. *)
Theorem advance_past_the_end (gid : Id) (nows : list Z) (t : Z) (d : Db) (g : Game) :
  games d !! gid = Some g ->
  activeCount d gid <= currentPlayerIndex g + 1 ->
  GameScreen.advance gid (nows ++ [t]) d
  = (Returned tt,
     withGame d gid
       (patchGame g
          [SetStatus Discussion;
           SetTimerStartTime (if timerEnabled (settings g) then Some t else None)])).
Proof.
  revert d g. induction nows as [|t0 nows IH]; intros d g Hg Hend.
  - simpl. unfold bind, ret. rewrite (nextPlayer_found _ _ _ g Hg).
    unfold turnAdvanced.
    by destruct (Z.leb_spec (activeCount d gid) (currentPlayerIndex g + 1)); [|lia].
  - simpl app. simpl GameScreen.advance. unfold bind.
    rewrite (nextPlayer_found _ _ _ g Hg). unfold turnAdvanced.
    destruct (Z.leb_spec (activeCount d gid) (currentPlayerIndex g + 1)); [|lia].
    erewrite IH; [|by eapply withGame_lookup|rewrite activeCount_withGame; simpl; lia].
    by rewrite withGame_withGame.
Qed.

Lemma advance_past_the_end_witness :
  exists g,
    games sample.discussion3 !! 0%nat = Some g
    /\ GameScreen.advance 0%nat [7000; 8000] sample.discussion3
       = (Returned tt,
          withGame sample.discussion3 0%nat
            (patchGame g [SetStatus Discussion; SetTimerStartTime (Some 8000)])).
Proof.
  assert (exists g, games sample.discussion3 !! 0%nat = Some g) as [g E]
    by (eexists; reflexivity).
  exists g. split; [exact E|].
  change [7000; 8000] with ([7000] ++ [8000]).
  rewrite (advance_past_the_end 0%nat [7000] 8000 sample.discussion3 g E).
  - injection E as <-. reflexivity.
  - injection E as <-. vm_compute. discriminate.
Defined.

Lemma someone_is_left_out (n : Z) (chosen : list Z) :
  Z.of_nat (length chosen) < n -> exists j, inRange n j /\ j ∉ chosen.
Proof.
  intros Hlen.
  destruct (decide (Forall (fun j => j ∈ chosen) (seqZ 0 n))) as [Hall|Hnot].
  - exfalso. assert (Hsub : seqZ 0 n ⊆+ chosen).
    { apply NoDup_submseteq; [apply NoDup_seqZ|]. by apply Forall_forall. }
    apply submseteq_length in Hsub. rewrite length_seqZ in Hsub. lia.
  - apply not_Forall_Exists in Hnot; [|apply _].
    apply Exists_exists in Hnot as (j & Hj & Hout).
    exists j. split; [|done]. apply elem_of_seqZ in Hj. unfold inRange. lia.
Qed.

(** X10. In a game that [startGame] has started with at least one imposter
    configured, both cards are dealt: some roster index is an imposter, and
    on that player's turn the card is the imposter card and shows the hint;
    some roster index is not an imposter, and on that player's turn the card
    is the word card and shows the word. *)
Theorem both_cards_are_dealt
    (d d' : Db) (gid : Id) (g : Game) (now : Z) (r0 : Q) (tape : list Q) :
  games d !! gid = Some g ->
  1 <= numberOfImposters (settings g) ->
  Forall unitInterval tape ->
  startGame gid now r0 tape d = (Returned tt, d') ->
  exists g' i j,
    games d' !! gid = Some g'
    /\ inRange (activeCount d gid) i /\ inRange (activeCount d gid) j
    /\ (i ∈ imposters g') /\ (j ∉ imposters g')
    /\ GameView.isImposter (patchGame g' [SetCurrentPlayerIndex i]) = true
    /\ GameView.cardText (patchGame g' [SetCurrentPlayerIndex i]) = hintWord g'
    /\ GameView.isImposter (patchGame g' [SetCurrentPlayerIndex j]) = false
    /\ GameView.cardText (patchGame g' [SetCurrentPlayerIndex j]) = currentWord g'.
Proof.
  intros Hg Hk Htape. rewrite (startGame_found _ _ _ _ _ g Hg).
  destruct (Z.ltb_spec (activeCount d gid) 3); [discriminate|].
  destruct (bool_decide (length (selectedCategories g) = _)); [discriminate|].
  destruct (bool_decide (length (wordPool d g) = _)); [discriminate|].
  destruct (nthZ _ _) as [w|]; [|discriminate].
  destruct (assignImposters _ _ _ _) as [chosen|] eqn:Hloop; [|discriminate].
  intros [= <-].
  assert (Hpos : 0 < activeCount d gid) by lia.
  destruct (assignImposters_returns _ _ _ _ _ Hpos Htape
              (NoDup_nil_2) (Forall_nil_2 _) Hloop) as (_ & Hrg & _ & Hlen).
  assert (Hlen' := Hlen ltac:(simpl; lia)). clear Hlen.
  destruct chosen as [|i chosen]; [simpl in Hlen'; lia|].
  destruct (someone_is_left_out (activeCount d gid) (i :: chosen)) as (j & Hj & Hout);
    [lia|].
  eexists _, i, j. split; [by eapply withGame_lookup|].
  split; [by apply Forall_cons in Hrg as [? _]|]. split; [done|].
  split; [apply list_elem_of_here|]. split; [exact Hout|].
  unfold GameView.cardText, GameView.isImposter. simpl.
  rewrite (bool_decide_eq_true_2 (i ∈ i :: chosen)) by apply list_elem_of_here.
  rewrite (bool_decide_eq_false_2 (j ∈ i :: chosen)) by done.
  done.
Qed.

Lemma both_cards_witness :
  exists g' i j,
    games sample.playing4 !! 0%nat = Some g'
    /\ inRange 4 i /\ inRange 4 j
    /\ (i ∈ imposters g') /\ (j ∉ imposters g')
    /\ GameView.isImposter (patchGame g' [SetCurrentPlayerIndex i]) = true
    /\ GameView.cardText (patchGame g' [SetCurrentPlayerIndex i]) = hintWord g'
    /\ GameView.isImposter (patchGame g' [SetCurrentPlayerIndex j]) = false
    /\ GameView.cardText (patchGame g' [SetCurrentPlayerIndex j]) = currentWord g'.
Proof.
  assert (exists g, games sample.lobby4 !! 0%nat = Some g) as [g E]
    by (eexists; reflexivity).
  apply (both_cards_are_dealt sample.lobby4 sample.playing4 0%nat g 1000
           sample.wordDraw sample.tape E).
  - injection E as <-. simpl. lia.
  - repeat constructor; vm_compute; congruence.
  - vm_compute. reflexivity.
Defined.

(** ** The roster after a removal, an update, a query *)

Lemma seatsAgree_refl (gid : Id) (t : list Player) : seatsAgree gid t t.
Proof. apply Forall_Forall2_diag, Forall_forall. done. Qed.

Lemma rows_seatsAgree (gid : Id) (t t' : list Player) :
  Forall2 (fun p q => gameId p = gameId q
                      /\ (gameId p = gid ->
                          index p = index q /\ isActive p = isActive q)) t t' ->
  seatsAgree gid t t'.
Proof.
  intros Hrows.
  assert (Hdocs : Forall2 (fun a b : Doc Player =>
                             fst a = fst b /\ gameId (snd a) = gameId (snd b)
                             /\ (gameId (snd a) = gid ->
                                 index (snd a) = index (snd b)
                                 /\ isActive (snd a) = isActive (snd b)))
                    (docs t) (docs t')).
  { apply Forall2_same_length_lookup_2.
    - unfold docs. rewrite !length_imap. by eapply Forall2_length.
    - intros i a b. rewrite !docs_lookup. intros Ha Hb.
      destruct (t !! i) as [p|] eqn:Hp; [|done].
      destruct (t' !! i) as [q|] eqn:Hq; [|done].
      injection Ha as <-. injection Hb as <-. split; [done|].
      pose proof (Forall2_lookup_lr _ _ _ _ _ _ Hrows Hp Hq) as H.
      exact H. }
  assert (Hfil : Forall2 (fun a b : Doc Player =>
                             fst a = fst b /\ gameId (snd a) = gameId (snd b)
                             /\ (gameId (snd a) = gid ->
                                 index (snd a) = index (snd b)
                                 /\ isActive (snd a) = isActive (snd b)))
                    (playersOf gid t) (playersOf gid t')).
  { unfold playersOf. eapply Forall2_filter; [|exact Hdocs].
    intros a b (_ & Hg & _). by rewrite Hg. }
  unfold seatsAgree. apply Forall2_same_length_lookup_2.
  - by eapply Forall2_length.
  - intros i a b Ha Hb.
    pose proof (Forall2_lookup_lr _ _ _ _ _ _ Hfil Ha Hb) as (Hid & _ & H).
    split; [done|]. apply H.
    apply list_elem_of_lookup_2 in Ha. unfold playersOf in Ha.
    by apply list_elem_of_filter in Ha as [Ha _].
Qed.

Lemma seatsAgree_roster (gid : Id) (d d' : Db) :
  seatsAgree gid (players d) (players d') ->
  activeIndices d' gid = activeIndices d gid
  /\ activeCount d' gid = activeCount d gid
  /\ (nobodyRemoved d gid -> nobodyRemoved d' gid).
Proof.
  intros Hs.
  assert (Hact : Forall2 (fun a b : Doc Player =>
                            fst a = fst b /\ index (snd a) = index (snd b)
                            /\ isActive (snd a) = isActive (snd b))
                   (activePlayersOf gid (players d))
                   (activePlayersOf gid (players d'))).
  { unfold activePlayersOf. eapply Forall2_filter; [|exact Hs].
    intros a b (_ & _ & Ha). by rewrite Ha. }
  split; [|split].
  - unfold activeIndices. symmetry. apply list_eq_Forall2, Forall2_fmap.
    eapply Forall2_impl; [exact Hact|]. by intros a b (_ & ? & _).
  - unfold activeCount. f_equal. symmetry. by eapply Forall2_length.
  - unfold nobodyRemoved. rewrite !Forall_lookup. intros Hall i b Hb.
    destruct (Forall2_lookup_r _ _ _ _ _ Hs Hb) as (a & Ha & _ & _ & Hab).
    rewrite <- Hab. by eapply Hall.
Qed.

Lemma playersOf_snoc_other (gid : Id) (table : list Player) (p : Player) :
  gameId p ≠ gid -> playersOf gid (table ++ [p]) = playersOf gid table.
Proof.
  intros Hg. unfold playersOf, docs. rewrite imap_app, filter_app. simpl.
  rewrite (filter_cons_False (fun dp : Doc Player => gameId (snd dp) = gid)) by done.
  by rewrite filter_nil, app_nil_r.
Qed.

Lemma playersOf_snoc (gid : Id) (table : list Player) (p : Player) :
  gameId p = gid ->
  playersOf gid (table ++ [p]) = playersOf gid table ++ [(length table, p)].
Proof.
  intros Hg. unfold playersOf, docs. rewrite imap_app, filter_app. simpl.
  rewrite Nat.add_0_r.
  rewrite (filter_cons_True (fun dp : Doc Player => gameId (snd dp) = gid)) by done.
  by rewrite filter_nil.
Qed.

Lemma game_call_players (c : Call) (d : Db) :
  match c with
  | AddPlayer _ _ _ | UpdatePlayer _ _ _ | RemovePlayer _ => True
  | _ => players (snd (call c d)) = players d
  end.
Proof.
  destruct c as [code st|gid st|gid cs|gid now r0 tape|gid now|gid v|gid|gid
                 |gid n col|pid n col|pid]; try done.
  - destruct (games d !! gid) as [g|] eqn:Hg; simpl; unfold updateGameSettings.
    + by erewrite patchGame_found.
    + by rewrite patchGame_missing.
  - destruct (games d !! gid) as [g|] eqn:Hg; simpl; unfold updateSelectedCategories.
    + by erewrite patchGame_found.
    + by rewrite patchGame_missing.
  - destruct (roundCall_effect gid (StartGame gid now r0 tape) d eq_refl)
      as [->|(g & fs & _ & _ & ->)]; done.
  - destruct (roundCall_effect gid (NextPlayer gid now) d eq_refl)
      as [->|(g & fs & _ & _ & ->)]; done.
  - destruct (roundCall_effect gid (SubmitVotes gid v) d eq_refl)
      as [->|(g & fs & _ & _ & ->)]; done.
  - destruct (roundCall_effect gid (EndGame gid) d eq_refl)
      as [->|(g & fs & _ & _ & ->)]; done.
  - destruct (roundCall_effect gid (ResetToLobby gid) d eq_refl)
      as [->|(g & fs & _ & _ & ->)]; done.
Qed.

Lemma call_addPlayer (g : Id) (n col : string) (d : Db) :
  snd (call (AddPlayer g n col) d) = snd (addPlayer g n col d).
Proof. reflexivity. Qed.

Lemma call_seatsAgree (gid : Id) (c : Call) (d : Db) :
  match c with
  | AddPlayer g _ _ => g ≠ gid
  | RemovePlayer pid => forall p, players d !! pid = Some p -> gameId p ≠ gid
  | _ => True
  end ->
  seatsAgree gid (players d) (players (snd (call c d))).
Proof.
  pose proof (game_call_players c d) as Hgame.
  destruct c as [code st|g st|g cs|g now r0 tape|g now|g v|g|g
                 |g n col|pid n col|pid]; intros Hc;
    try (rewrite Hgame; apply seatsAgree_refl).
  - rewrite call_addPlayer, addPlayer_run. simpl.
    unfold seatsAgree. rewrite playersOf_snoc_other by done.
    apply seatsAgree_refl.
  - destruct (players d !! pid) as [p|] eqn:Hp.
    + simpl. unfold updatePlayer. rewrite (patchPlayer_found _ _ p) by done.
      simpl. apply rows_seatsAgree. apply Forall2_same_length_lookup_2.
      { by rewrite length_insert. }
      intros k x y Hx Hy. destruct (decide (k = pid)) as [->|Hne].
      * assert (Some x = Some p) as [= ->]
          by (etrans; [symmetry; exact Hx | exact Hp]).
        rewrite list_lookup_insert_eq in Hy by (by eapply lookup_lt_Some).
        injection Hy as <-. by destruct n, col.
      * rewrite list_lookup_insert_ne in Hy by done.
        assert (Some x = Some y) as [= ->]
          by (etrans; [symmetry; exact Hx | exact Hy]).
        done.
    + simpl. unfold updatePlayer. rewrite patchPlayer_missing by done.
      apply seatsAgree_refl.
  - destruct (players d !! pid) as [p|] eqn:Hp.
    + destruct (removePlayer_run d pid p Hp) as (table & Hrun & Hlen & Hrows & _).
      simpl. rewrite Hrun. simpl. apply rows_seatsAgree.
      apply Forall2_same_length_lookup_2; [done|].
      intros k x y Hx Hy.
      destruct (Hrows k x Hx) as (y' & Hy' & Hg & _ & _ & Ha & Hi).
      assert (Some y = Some y') as [= ->]
        by (etrans; [symmetry; exact Hy | exact Hy']).
      split; [done|]. intros Hgid.
      assert (Hother : gameId x ≠ gameId p).
      { rewrite Hgid. intros Heq. by apply (Hc p eq_refl). }
      split; [symmetry; apply Hi; by left|].
      rewrite Ha. destruct (decide (k = pid)) as [->|]; [|done].
      assert (Some x = Some p) as [= ->]
        by (etrans; [symmetry; exact Hx | exact Hp]).
      done.
    + simpl. rewrite removePlayer_missing by done. apply seatsAgree_refl.
Qed.

Lemma nobodyRemoved_roster (d : Db) (gid : Id) :
  nobodyRemoved d gid -> playersOf gid (players d) = activePlayersOf gid (players d).
Proof.
  unfold nobodyRemoved, activePlayersOf. generalize (playersOf gid (players d)).
  induction 1 as [|x l Hx Hl IH]; [done|].
  rewrite filter_cons_True by done. by f_equal.
Qed.

Lemma clean_step (gid : Id) (c : Call) (d : Db) :
  ~ removal c ->
  nobodyRemoved d gid /\ numbered d gid ->
  nobodyRemoved (snd (call c d)) gid /\ numbered (snd (call c d)) gid.
Proof.
  intros Hc [Hall Hnum].
  assert (Hseats : seatsAgree gid (players d) (players (snd (call c d))) ->
                   nobodyRemoved (snd (call c d)) gid /\ numbered (snd (call c d)) gid).
  { intros Hs. destruct (seatsAgree_roster gid d _ Hs) as (Hi & Hn & Hr).
    split; [by apply Hr|]. unfold numbered. by rewrite Hi, Hn. }
  destruct c as [code st|g st|g cs|g now r0 tape|g now|g v|g|g
                 |g n col|pid n col|pid];
    try (apply Hseats; by apply call_seatsAgree); try (by destruct Hc).
  destruct (decide (g = gid)) as [->|Hne];
    [|apply Hseats; by apply call_seatsAgree].
  split.
  - rewrite call_addPlayer, addPlayer_run.
    unfold nobodyRemoved. simpl. rewrite playersOf_snoc by done.
    apply Forall_app. split; [exact Hall|]. by repeat constructor.
  - rewrite call_addPlayer.
    exact (addPlayer_contiguous d gid n col
             (nobodyRemoved_roster d gid Hall) Hnum).
Qed.

Lemma numbered_step (gid : Id) (c : Call) (d : Db) :
  ~ joins gid c -> numbered d gid -> numbered (snd (call c d)) gid.
Proof.
  intros Hc Hnum.
  assert (Hseats : seatsAgree gid (players d) (players (snd (call c d))) ->
                   numbered (snd (call c d)) gid).
  { intros Hs. destruct (seatsAgree_roster gid d _ Hs) as (Hi & Hn & _).
    unfold numbered. by rewrite Hi, Hn. }
  destruct c as [code st|g st|g cs|g now r0 tape|g now|g v|g|g
                 |g n col|pid n col|pid];
    try (apply Hseats; by apply call_seatsAgree).
  destruct (players d !! pid) as [p|] eqn:Hp.
  - destruct (decide (gameId p = gid)) as [<-|Hne].
    + destruct (removePlayer_contiguous d pid p Hp) as (d' & Hrun & _ & Hidx & _).
      simpl. rewrite Hrun. exact Hidx.
    + apply Hseats, call_seatsAgree. intros q Hq.
      assert (Some q = Some p) as [= ->]
        by (etrans; [symmetry; exact Hq | exact Hp]).
      done.
  - apply Hseats, call_seatsAgree. intros q Hq.
    assert (Some q = @None Player) as [=]
      by (etrans; [symmetry; exact Hq | exact Hp]).
Qed.

(** X11. From a database without a row for the game, as [createGame]
    leaves it: after any calls without a removal, followed by any calls
    that add no player to the game, the active players of the game carry
    the indices 0, 1, ..., n-1 in roster order. The numbering can only
    break when a player joins after a removal. *)
Theorem numbering_until_a_late_join
    (gid : Id) (before after : list Call) (d : Db) :
  playersOf gid (players d) = [] ->
  Forall (fun c => ~ removal c) before ->
  Forall (fun c => ~ joins gid c) after ->
  activeIndices (perform (before ++ after) d) gid
  = seqZ 0 (activeCount (perform (before ++ after) d) gid).
Proof.
  intros Hempty Hbefore Hafter.
  assert (Hclean : nobodyRemoved (perform before d) gid
                   /\ numbered (perform before d) gid).
  { assert (H0 : nobodyRemoved d gid /\ numbered d gid).
    { unfold nobodyRemoved, numbered, activeIndices, activeCount, activePlayersOf.
      rewrite Hempty. split; [constructor | reflexivity]. }
    clear Hempty. revert d H0.
    induction Hbefore as [|c cs Hc _ IH]; intros d H0; [done|].
    apply IH. by apply clean_step. }
  destruct Hclean as [Hall Hnum]. fold (numbered (perform (before ++ after) d) gid).
  unfold perform. rewrite foldl_app. fold (perform before d).
  clear Hall Hbefore. revert Hnum. generalize (perform before d).
  induction Hafter as [|c cs Hc _ IH]; intros d' Hnum; [done|].
  simpl. by apply IH, numbered_step.
Qed.

Lemma numbering_witness :
  activeIndices
    (perform ([CreateGame "KLAS" sample.settings1;
               AddPlayer 0%nat "Speler 1" "#FF6B6B";
               AddPlayer 0%nat "Speler 2" "#4ECDC4";
               UpdatePlayer 1%nat (Some "Bram") None;
               AddPlayer 0%nat "Speler 3" "#45B7D1";
               AddPlayer 0%nat "Speler 4" "#96CEB4"]
              ++ [RemovePlayer 1%nat;
                  UpdateSelectedCategories 0%nat ["Dieren"];
                  RemovePlayer 0%nat])
       sample.seeded) 0%nat
  = [0; 1].
Proof.
  etrans.
  - apply (numbering_until_a_late_join 0%nat); [reflexivity| |];
      repeat constructor; simpl; try tauto; discriminate.
  - vm_compute. reflexivity.
Defined.

Lemma StronglySorted_filter {A} (R : A -> A -> Prop) (P : A -> Prop)
    `{forall x, Decision (P x)} (l : list A) :
  StronglySorted R l -> StronglySorted R (filter P l).
Proof.
  induction 1 as [|x l Hl IH Hx]; [constructor|].
  rewrite filter_cons. destruct (decide (P x)); [|done].
  constructor; [done|]. rewrite Forall_forall in Hx |- *.
  intros y Hy. apply list_elem_of_filter in Hy as [_ Hy]. by apply Hx.
Qed.

(** X12. [getPlayers] reads without writing, and returns exactly the rows
    of the game that are active, each once and with its id, in the order
    in which they were created. *)
Theorem getPlayers_roster (d : Db) (gid : Id) :
  exists roster,
    getPlayers gid d = (Returned roster, d)
    /\ (forall id p,
          (id, p) ∈ roster
          <-> players d !! id = Some p /\ gameId p = gid /\ isActive p = true)
    /\ StronglySorted (fun a b : Doc Player => (fst a < fst b)%nat) roster.
Proof.
  exists (activePlayersOf gid (players d)). split; [reflexivity|].
  split; [apply elem_of_activePlayersOf|].
  unfold activePlayersOf, playersOf. do 2 apply StronglySorted_filter.
  apply (indexed_sorted (fun _ p => p) (players d) 0).
Qed.

(** Tables whose rows sit in the same seats and are related by [R] have
    active players related by [R], document by document. *)
Lemma activePlayersOf_related (R : Player -> Player -> Prop) (gid : Id)
    (t1 t2 : list Player) :
  Forall2 (fun p q => sameSeat p q /\ R p q) t1 t2 ->
  Forall2 (fun a b : Doc Player => fst a = fst b /\ R (snd a) (snd b))
    (activePlayersOf gid t1) (activePlayersOf gid t2).
Proof.
  intros Hrows.
  assert (Hdocs : Forall2 (fun a b : Doc Player =>
                             fst a = fst b /\ sameSeat (snd a) (snd b)
                             /\ R (snd a) (snd b))
                    (docs t1) (docs t2)).
  { apply Forall2_same_length_lookup_2.
    - unfold docs. rewrite !length_imap. by eapply Forall2_length.
    - intros i a b. rewrite !docs_lookup. intros Ha Hb.
      destruct (t1 !! i) as [p|] eqn:Hp; [|done].
      destruct (t2 !! i) as [q|] eqn:Hq; [|done].
      injection Ha as <-. injection Hb as <-. split; [done|].
      pose proof (Forall2_lookup_lr _ _ _ _ _ _ Hrows Hp Hq) as H.
      exact H. }
  eapply Forall2_impl.
  - unfold activePlayersOf, playersOf.
    eapply Forall2_filter; [|eapply Forall2_filter; [|exact Hdocs]].
    + intros a b (_ & [_ Hact] & _). by rewrite Hact.
    + intros a b (_ & [Hgame _] & _). by rewrite Hgame.
  - by intros a b (? & _ & ?).
Qed.

Lemma filter_out_absent {A} (pid : nat) (l : list (nat * A)) :
  pid ∉ l.*1 -> filter (fun dp => fst dp ≠ pid) l = l.
Proof.
  induction l as [|y l IH]; [done|].
  rewrite fmap_cons, not_elem_of_cons. intros [Hy Hl].
  rewrite filter_cons_True by (simpl; congruence). f_equal. by apply IH.
Qed.

Lemma filter_out_one {A} (pid : nat) (l : list (nat * A)) :
  NoDup l.*1 ->
  (length l <= S (length (filter (fun dp => fst dp ≠ pid) l)))%nat
  /\ (pid ∈ l.*1 -> length l = S (length (filter (fun dp => fst dp ≠ pid) l))).
Proof.
  induction l as [|x l IH]; [split; [simpl; lia|by intros ?%not_elem_of_nil]|].
  rewrite fmap_cons, NoDup_cons. intros [Hx Hl]. rewrite filter_cons.
  destruct (decide (fst x ≠ pid)) as [Hne|Heq].
  - destruct (IH Hl) as [Hle Heq]. simpl. split; [lia|].
    intros [?|Hin]%elem_of_cons; [done|]. rewrite Heq; done.
  - apply dec_stable in Heq. rewrite filter_out_absent by congruence.
    simpl. split; [lia | done].
Qed.

(** The roster of the removed player's game afterwards is the roster
    before without that player. *)
Lemma removePlayer_remaining (d : Db) (pid : Id) (p : Player) :
  players d !! pid = Some p ->
  Forall2 (fun a b : Doc Player =>
             fst a = fst b /\ name (snd a) = name (snd b)
             /\ color (snd a) = color (snd b))
    (filter (fun dp => fst dp ≠ pid) (activePlayersOf (gameId p) (players d)))
    (activePlayersOf (gameId p) (players (snd (removePlayer pid d)))).
Proof.
  intros Hp.
  destruct (removePlayer_run d pid p Hp) as (table & -> & Hlen & Hrows & _).
  change (players (snd (Returned tt, withPlayers d table))) with table.
  assert (Hdocs : Forall2 (fun a b : Doc Player =>
              fst a = fst b /\ gameId (snd b) = gameId (snd a)
              /\ name (snd b) = name (snd a) /\ color (snd b) = color (snd a)
              /\ isActive (snd b)
                 = (if decide (fst a = pid) then false else isActive (snd a)))
            (docs (players d)) (docs table)).
  { apply Forall2_same_length_lookup_2.
    - unfold docs. by rewrite !length_imap.
    - intros i a b. rewrite !docs_lookup. intros Ha Hb.
      destruct (players d !! i) as [x|] eqn:Hx; [|done].
      destruct (table !! i) as [y|] eqn:Hy; [|done].
      injection Ha as <-. injection Hb as <-. simpl.
      destruct (Hrows i x Hx) as (y' & Hy' & ? & ? & ? & ? & _).
      assert (Some y' = Some y) as [= ->]
        by (etrans; [symmetry; exact Hy' | exact Hy]).
      done. }
  unfold activePlayersOf, playersOf. rewrite list_filter_filter.
  eapply Forall2_impl.
  - eapply Forall2_filter; [|eapply Forall2_filter; [|exact Hdocs]].
    + intros a b (_ & _ & _ & _ & Hact). simpl. rewrite Hact.
      destruct (decide (fst a = pid)); split; try done; [by intros [? _]|tauto].
    + intros a b (_ & Hgame & _). simpl. by rewrite Hgame.
  - intros a b (? & _ & ? & ? & _). auto.
Qed.

(** The number of active players of the removed player's game goes down
    by one if the player was active, and stays otherwise. *)
Lemma removePlayer_count (d : Db) (pid : Id) (p : Player) :
  players d !! pid = Some p ->
  activeCount d (gameId p)
  = activeCount (snd (removePlayer pid d)) (gameId p)
    + (if isActive p then 1 else 0).
Proof.
  intros Hp.
  pose proof (Forall2_length _ _ _ (removePlayer_remaining d pid p Hp)) as Hsame.
  assert (Hn : length (activePlayersOf (gameId p) (players d))
               = (length (activePlayersOf (gameId p)
                            (players (snd (removePlayer pid d))))
                  + (if isActive p then 1 else 0))%nat).
  { rewrite <- Hsame. destruct (isActive p) eqn:Hact.
    - pose proof (filter_out_one pid (activePlayersOf (gameId p) (players d))
                    (activePlayersOf_ids_NoDup _ _)) as [_ Hone].
      rewrite Nat.add_1_r. apply Hone.
      apply list_elem_of_fmap. exists (pid, p). split; [done|].
      by apply elem_of_activePlayersOf.
    - rewrite Nat.add_0_r. f_equal. symmetry. apply filter_out_absent.
      intros Hin. apply list_elem_of_fmap in Hin as ([id x] & -> & Hin).
      apply elem_of_activePlayersOf in Hin as (Hx & _ & Hact'). simpl in Hx.
      assert (Some x = Some p) as [= ->]
        by (etrans; [symmetry; exact Hx | exact Hp]).
      congruence. }
  unfold activeCount. rewrite Hn. destruct (isActive p); lia.
Qed.

(** X13. [removePlayer] of a stored player returns; it keeps every row (the
    removed player's row stays, inactive), and the roster of that player's
    game afterwards is the roster before without that player: the same
    players in the same order, with their ids, names and colours. So the
    roster shrinks by one if the player was on it and not at all otherwise. *)
Theorem removePlayer_roster (d : Db) (pid : Id) (p : Player) :
  players d !! pid = Some p ->
  exists d' q,
    removePlayer pid d = (Returned tt, d')
    /\ games d' = games d
    /\ length (players d') = length (players d)
    /\ players d' !! pid = Some q
    /\ isActive q = false /\ gameId q = gameId p /\ name q = name p
    /\ Forall2 (fun a b : Doc Player =>
                  fst a = fst b /\ name (snd a) = name (snd b)
                  /\ color (snd a) = color (snd b))
         (filter (fun dp => fst dp ≠ pid)
            (activePlayersOf (gameId p) (players d)))
         (activePlayersOf (gameId p) (players d'))
    /\ (isActive p = true ->
        activeCount d (gameId p) = activeCount d' (gameId p) + 1)
    /\ (isActive p = false ->
        activeCount d' (gameId p) = activeCount d (gameId p)).
Proof.
  intros Hp.
  pose proof (removePlayer_remaining d pid p Hp) as Hroster.
  pose proof (removePlayer_count d pid p Hp) as Hcount.
  destruct (removePlayer_run d pid p Hp) as (table & Hrun & Hlen & Hrows & _).
  destruct (Hrows pid p Hp) as (q & Hq & Hqg & Hqn & _ & Hqa & _).
  rewrite decide_True in Hqa by done.
  rewrite Hrun in Hroster, Hcount. simpl snd in Hroster, Hcount.
  exists (withPlayers d table), q. split; [exact Hrun|].
  split; [done|]. split; [done|]. split; [done|].
  split; [done|]. split; [done|]. split; [done|]. split; [exact Hroster|].
  split; intros Hact; rewrite Hact in Hcount; lia.
Qed.

Lemma removePlayer_roster_witness :
  exists d' q,
    removePlayer 1%nat sample.lobby3 = (Returned tt, d')
    /\ players d' !! 1%nat = Some q /\ isActive q = false
    /\ activeCount sample.lobby3 0%nat = activeCount d' 0%nat + 1.
Proof.
  assert (exists p, players sample.lobby3 !! 1%nat = Some p
                    /\ gameId p = 0%nat /\ isActive p = true)
    as (p & E & Hgame & Hact) by (eexists; repeat split; reflexivity).
  destruct (removePlayer_roster sample.lobby3 1%nat p E)
    as (d' & q & Hrun & _ & _ & Hq & Hina & _ & _ & _ & Hcount & _).
  exists d', q. rewrite Hgame in Hcount. auto.
Defined.

Lemma filter_agree {A} (P : A -> Prop) `{forall x, Decision (P x)} (l k : list A) :
  Forall2 (fun a b => (P a <-> P b) /\ (P a -> a = b)) l k ->
  filter P l = filter P k.
Proof.
  induction 1 as [|a b l k [Hiff Heq] _ IH]; [done|].
  rewrite !filter_cons.
  destruct (decide (P a)) as [Ha|Ha]; destruct (decide (P b)) as [Hb|Hb];
    try tauto.
  by rewrite IH, (Heq Ha).
Qed.

(** X14. [removePlayer] leaves the rows of all other games, and so their
    rosters, exactly as they are. *)
Theorem removePlayer_other_games (d : Db) (pid : Id) (p : Player) (gid : Id) :
  players d !! pid = Some p ->
  gid ≠ gameId p ->
  playersOf gid (players (snd (removePlayer pid d))) = playersOf gid (players d)
  /\ activePlayersOf gid (players (snd (removePlayer pid d)))
     = activePlayersOf gid (players d).
Proof.
  intros Hp Hne.
  destruct (removePlayer_run d pid p Hp) as (table & -> & Hlen & Hrows & _).
  simpl.
  assert (Hsame : playersOf gid table = playersOf gid (players d)).
  { unfold playersOf. apply filter_agree.
    apply Forall2_same_length_lookup_2.
    - unfold docs. by rewrite !length_imap.
    - intros i a b. rewrite !docs_lookup. intros Ha Hb.
      destruct (table !! i) as [y|] eqn:Hy; [|done].
      destruct (players d !! i) as [x|] eqn:Hx; [|done].
      injection Ha as <-. injection Hb as <-. simpl.
      destruct (Hrows i x Hx) as (y' & Hy' & Hg & Hn & Hc & Ha & Hi).
      assert (Some y' = Some y) as [= ->]
        by (etrans; [symmetry; exact Hy' | exact Hy]).
      split; [by rewrite Hg|]. intros Hgy. f_equal.
      assert (Hk : i ≠ pid).
      { intros ->. assert (Some x = Some p) as [= ->]
          by (etrans; [symmetry; exact Hx | exact Hp]).
        congruence. }
      rewrite decide_False in Ha by done.
      assert (Hidx : index y = index x) by (apply Hi; left; congruence).
      destruct x, y; simpl in *. congruence. }
  split; [exact Hsame|]. unfold activePlayersOf. by rewrite Hsame.
Qed.

Lemma removePlayer_other_games_witness :
  length (activePlayersOf 1%nat (players fixture.twoGames)) = 3%nat
  /\ activePlayersOf 1%nat (players (snd (removePlayer 2%nat fixture.twoGames)))
     = activePlayersOf 1%nat (players fixture.twoGames).
Proof.
  split; [reflexivity|].
  assert (exists p, players fixture.twoGames !! 2%nat = Some p /\ gameId p = 0%nat)
    as (p & E & Hgame) by (eexists; split; reflexivity).
  apply (removePlayer_other_games fixture.twoGames 2%nat p 1%nat E).
  rewrite Hgame. discriminate.
Defined.

Lemma removePlayer_found (d : Db) (pid : Id) (p : Player) :
  players d !! pid = Some p ->
  removePlayer pid d
  = reindex 0
      (activePlayersOf (gameId p)
         (<[pid := patchPlayer p [SetIsActive false]]> (players d)))
      (withPlayers d (<[pid := patchPlayer p [SetIsActive false]]> (players d))).
Proof.
  intros Hp. unfold removePlayer, bind, db.getPlayer. rewrite Hp. simpl.
  by rewrite (patchPlayer_found _ _ p).
Qed.

Lemma reindex_noop (rest : list (Doc Player)) : forall (i : Z) (d : Db),
  (forall (j : nat) id q, rest !! j = Some (id, q) -> index q = i + Z.of_nat j) ->
  reindex i rest d = (Returned tt, d).
Proof.
  induction rest as [|[id q] rest IH]; intros i d Hpos; [done|].
  simpl. unfold bind. rewrite bool_decide_eq_true_2.
  - unfold ret. apply IH. intros j id' q' Hj.
    rewrite (Hpos (S j) id' q' Hj). lia.
  - rewrite (Hpos 0%nat id q eq_refl). lia.
Qed.

(** X15. Removing a player a second time changes nothing, and removing a
    player that is not stored changes nothing either: both calls return. *)
Theorem removePlayer_twice (d : Db) (pid : Id) :
  (players d !! pid = None -> removePlayer pid d = (Returned tt, d))
  /\ (forall p, players d !! pid = Some p ->
      exists d',
        removePlayer pid d = (Returned tt, d')
        /\ removePlayer pid d' = (Returned tt, d')).
Proof.
  split; [apply removePlayer_missing|]. intros p Hp.
  destruct (removePlayer_run d pid p Hp) as (table & Hrun & Hlen & Hrows & Hpos).
  exists (withPlayers d table). split; [exact Hrun|].
  destruct (Hrows pid p Hp) as (q & Hq & Hqg & _ & _ & Hqa & _).
  rewrite decide_True in Hqa by done.
  rewrite (removePlayer_found (withPlayers d table) pid q Hq).
  assert (Hid : <[pid := patchPlayer q [SetIsActive false]]> table = table).
  { apply list_insert_id. etrans; [exact Hq|]. f_equal.
    destruct q; simpl in *. by subst. }
  change (players (withPlayers d table)) with table. rewrite Hid.
  apply reindex_noop. intros j id x Hj. rewrite Hqg in Hj.
  rewrite (Hpos j id x Hj). lia.
Qed.

Lemma removePlayer_twice_witness :
  exists d',
    removePlayer 2%nat fixture.twoGames = (Returned tt, d')
    /\ removePlayer 2%nat d' = (Returned tt, d')
    /\ removePlayer 99%nat fixture.twoGames = (Returned tt, fixture.twoGames).
Proof.
  destruct (removePlayer_twice fixture.twoGames 2%nat) as [_ H].
  destruct (removePlayer_twice fixture.twoGames 99%nat) as [Hmiss _].
  assert (exists p, players fixture.twoGames !! 2%nat = Some p) as (p & E)
    by (eexists; reflexivity).
  destruct (H p E) as (d' & H1 & H2). exists d'.
  split; [done|]. split; [done|]. by apply Hmiss.
Defined.

(** X16. [updatePlayer] of a stored player, active or removed, returns
    and writes the given name and colour, each only if given, into that
    player's row; the row keeps its game, index and [isActive], all other
    rows and the games are untouched, and every roster keeps its players
    and their indices. For an id that is not stored it throws and changes
    nothing. *)
Theorem updatePlayer_name_and_colour
    (d : Db) (pid : Id) (name0 color0 : option string) :
  (players d !! pid = None ->
   exists msg, updatePlayer pid name0 color0 d = (Thrown msg, d))
  /\ (forall p, players d !! pid = Some p ->
      exists d',
        updatePlayer pid name0 color0 d = (Returned tt, d')
        /\ players d' !! pid
           = Some {| gameId := gameId p; name := default (name p) name0;
                     color := default (color p) color0; index := index p;
                     isActive := isActive p |}
        /\ (forall k : nat, k ≠ pid -> players d' !! k = players d !! k)
        /\ games d' = games d
        /\ forall gid,
             (activePlayersOf gid (players d')).*1
             = (activePlayersOf gid (players d)).*1
             /\ activeIndices d' gid = activeIndices d gid).
Proof.
  split.
  { intros Hp. eexists. unfold updatePlayer. by apply patchPlayer_missing. }
  intros p Hp. eexists. split; [unfold updatePlayer; by apply patchPlayer_found|].
  set (p' := patchPlayer p _).
  assert (Hp' : p' = {| gameId := gameId p; name := default (name p) name0;
                        color := default (color p) color0; index := index p;
                        isActive := isActive p |}).
  { unfold p'. destruct name0, color0, p; reflexivity. }
  simpl. split; [|split; [|split; [done|]]].
  - rewrite <- Hp'. apply list_lookup_insert_eq. by eapply lookup_lt_Some.
  - intros k Hk. by apply list_lookup_insert_ne.
  - intros gid.
    assert (Hrel : Forall2 (fun a b : Doc Player =>
                              fst a = fst b /\ index (snd a) = index (snd b))
                     (activePlayersOf gid (<[pid := p']> (players d)))
                     (activePlayersOf gid (players d))).
    { apply (activePlayersOf_related (fun x y => index x = index y)).
      apply Forall2_same_length_lookup_2; [apply length_insert|].
      intros k x y Hx Hy. destruct (decide (k = pid)) as [->|Hne].
      - rewrite list_lookup_insert_eq in Hx by (by eapply lookup_lt_Some).
        injection Hx as <-.
        assert (Some y = Some p) as [= ->]
          by (etrans; [symmetry; exact Hy | exact Hp]).
        rewrite Hp'. by repeat split.
      - rewrite list_lookup_insert_ne in Hx by done.
        assert (Some x = Some y) as [= ->]
          by (etrans; [symmetry; exact Hx | exact Hy]).
        by repeat split. }
    split.
    + apply list_eq_Forall2, Forall2_fmap.
      eapply Forall2_impl; [exact Hrel|]. by intros a b [? _].
    + unfold activeIndices. simpl. apply list_eq_Forall2, Forall2_fmap.
      eapply Forall2_impl; [exact Hrel|]. by intros a b [_ ?].
Qed.

Lemma updatePlayer_witness :
  exists d',
    updatePlayer 2%nat (Some "Carla") None fixture.twoGames = (Returned tt, d')
    /\ name <$> players d' !! 2%nat = Some "Carla"
    /\ color <$> players d' !! 2%nat = Some "#45B7D1"
    /\ activeIndices d' 0%nat = activeIndices fixture.twoGames 0%nat.
Proof.
  destruct (updatePlayer_name_and_colour fixture.twoGames 2%nat (Some "Carla") None)
    as [_ H].
  assert (exists p, players fixture.twoGames !! 2%nat = Some p
                    /\ color p = "#45B7D1") as (p & E & Hc)
    by (eexists; split; reflexivity).
  destruct (H p E) as (d' & Hrun & Hrow & _ & _ & Hroster).
  exists d'. split; [exact Hrun|].
  split; [by etrans; [exact (f_equal (fmap name) Hrow)|]|].
  split; [etrans; [exact (f_equal (fmap color) Hrow)|]; simpl; by rewrite Hc|].
  apply Hroster.
Defined.

(** ** The lobby screen *)

(** X17. The add button never fails: it appends to the roster one active
    player of the game, named "Speler" with the size of the shown roster
    plus one and coloured from the palette, with the id of the new row and
    the index [addPlayer] gives; the players already on the roster stay as
    they are. *)
Theorem handleAddPlayer_appends (d : Db) (gid : Id) (roster : list (Doc Player)) :
  exists d' colour,
    GameLobby.handleAddPlayer (Some gid) (Some roster) d = (Silent, d')
    /\ colour ∈ GameLobby.PLAYER_COLORS
    /\ games d' = games d
    /\ activePlayersOf gid (players d')
       = activePlayersOf gid (players d)
         ++ [(length (players d),
              {| gameId := gid;
                 name := "Speler " +:+ pretty (length roster + 1)%nat;
                 color := colour;
                 index := Z.of_nat (length (playersOf gid (players d)));
                 isActive := true |})].
Proof.
  unfold GameLobby.handleAddPlayer.
  destruct (GameLobby.PLAYER_COLORS !! (length roster mod length GameLobby.PLAYER_COLORS)%nat)
    as [colour|] eqn:Hc.
  - exists (snd (addPlayer gid ("Speler " +:+ pretty (length roster + 1)%nat) colour d)),
           colour.
    rewrite addPlayer_run. split; [done|]. split; [by eapply list_elem_of_lookup_2|].
    split; [done|]. simpl. by apply activePlayersOf_snoc.
  - exfalso. apply lookup_ge_None in Hc.
    pose proof (Nat.mod_upper_bound (length roster) (length GameLobby.PLAYER_COLORS)) as Hlt.
    simpl in *. lia.
Qed.

(** X18. The remove button keeps three players: used on a player of the
    roster of a game with at least three active players, it leaves at least
    three. With exactly three it alerts and changes nothing; with more it
    removes the player, and the roster is one shorter. *)
Theorem handleRemovePlayer_keeps_three (d : Db) (gid : Id) (selected : Doc Player) :
  selected ∈ activePlayersOf gid (players d) ->
  3 <= activeCount d gid ->
  3 <= activeCount
         (snd (GameLobby.handleRemovePlayer (Some selected)
                 (Some (activePlayersOf gid (players d))) d)) gid
  /\ (activeCount d gid = 3 ->
      GameLobby.handleRemovePlayer (Some selected)
        (Some (activePlayersOf gid (players d))) d
      = (Alerted "Error" "Need at least 3 players", d))
  /\ (3 < activeCount d gid ->
      fst (GameLobby.handleRemovePlayer (Some selected)
             (Some (activePlayersOf gid (players d))) d) = Silent
      /\ activeCount
           (snd (GameLobby.handleRemovePlayer (Some selected)
                   (Some (activePlayersOf gid (players d))) d)) gid
         = activeCount d gid - 1).
Proof.
  destruct selected as [pid p]. intros Hsel Hn.
  apply elem_of_activePlayersOf in Hsel as (Hp & Hgame & Hact).
  unfold GameLobby.handleRemovePlayer. unfold activeCount in Hn |- *.
  destruct (Nat.leb_spec (length (activePlayersOf gid (players d))) 3) as [Hle|Hgt].
  - split; [done|]. split; [done|]. intros ?. lia.
  - pose proof (removePlayer_count d pid p Hp) as Hcount.
    rewrite Hact, Hgame in Hcount. unfold activeCount in Hcount.
    destruct (removePlayer_run d pid p Hp) as (table & Hrun & _).
    simpl fst. rewrite Hrun in Hcount |- *. simpl in Hcount |- *.
    split; [lia|]. split; [intros ?; lia|]. intros _. split; [done | lia].
Qed.

Lemma handleRemovePlayer_witness :
  GameLobby.handleRemovePlayer
    (Some (1%nat, {| gameId := 0%nat; name := "Speler 2"; color := "#4ECDC4";
                     index := 1; isActive := true |}))
    (Some (activePlayersOf 0%nat (players sample.lobby3))) sample.lobby3
  = (Alerted "Error" "Need at least 3 players", sample.lobby3)
  /\ activeCount
       (snd (GameLobby.handleRemovePlayer
               (Some (2%nat, {| gameId := 0%nat; name := "Cato"; color := "#45B7D1";
                                index := 1; isActive := true |}))
               (Some (activePlayersOf 0%nat (players fixture.twoGames)))
               fixture.twoGames)) 0%nat
     = 3.
Proof.
  split.
  - apply (handleRemovePlayer_keeps_three sample.lobby3 0%nat); [|done|done].
    apply list_elem_of_further, list_elem_of_here.
  - destruct (handleRemovePlayer_keeps_three fixture.twoGames 0%nat
                (2%nat, {| gameId := 0%nat; name := "Cato"; color := "#45B7D1";
                           index := 1; isActive := true |})) as (_ & _ & H).
    + apply list_elem_of_further, list_elem_of_here.
    + done.
    + destruct H as [_ H]; [done|]. etrans; [exact H|]. reflexivity.
Defined.

(** X19. Toggling a category flips whether it is selected and leaves every
    other category selected or not as it was; a selection without
    repetitions stays so. *)
Theorem handleCategoryToggle_flips (selection : list string) (x : string) :
  (x ∈ GameLobby.handleCategoryToggle selection x <-> x ∉ selection)
  /\ (forall y, y ≠ x ->
        (y ∈ GameLobby.handleCategoryToggle selection x <-> y ∈ selection))
  /\ (NoDup selection -> NoDup (GameLobby.handleCategoryToggle selection x)).
Proof.
  unfold GameLobby.handleCategoryToggle. case_bool_decide as Hin.
  - split; [|split].
    + rewrite list_elem_of_filter. tauto.
    + intros y Hy. rewrite list_elem_of_filter. tauto.
    + apply NoDup_filter.
  - split; [|split].
    + rewrite elem_of_app, list_elem_of_singleton. tauto.
    + intros y Hy. rewrite elem_of_app, list_elem_of_singleton. tauto.
    + intros Hnd. apply NoDup_app. split; [done|].
      split; [|apply NoDup_singleton].
      intros y Hy ->%list_elem_of_singleton. done.
Qed.

(** X20. The start button on a stored game: without a selection it alerts
    and changes nothing. With one, either it navigates to the game, which
    is then Playing at player 0 with the selection stored, and had at
    least three active players; or it does not navigate, and then the
    selection has been stored all the same and nothing else has changed. *)
Theorem handleStartGame_outcome
    (d : Db) (gid : Id) (g : Game) (cats : list string)
    (now : Z) (r0 : Q) (tape : list Q) :
  games d !! gid = Some g ->
  (cats = [] ->
   GameLobby.handleStartGame (Some gid) cats now r0 tape d
   = (Alerted "Error" "Selecteer minimaal één categorie", d))
  /\ (cats ≠ [] ->
      (exists g',
         GameLobby.handleStartGame (Some gid) cats now r0 tape d
         = (Navigated ("/game/" +:+ idKey gid), withGame d gid g')
         /\ status g' = Playing
         /\ currentPlayerIndex g' = 0
         /\ selectedCategories g' = cats
         /\ 3 <= activeCount d gid)
      \/ (exists fb,
            GameLobby.handleStartGame (Some gid) cats now r0 tape d
            = (fb, withGame d gid (patchGame g [SetSelectedCategories cats]))
            /\ forall route, fb ≠ Navigated route)).
Proof.
  intros Hg. unfold GameLobby.handleStartGame. split.
  - by intros ->.
  - intros Hcats. rewrite bool_decide_eq_false_2 by (by destruct cats).
    unfold updateSelectedCategories. rewrite (patchGame_found _ _ g _ Hg).
    set (g1 := patchGame g [SetSelectedCategories cats]).
    rewrite (startGame_found (withGame d gid g1) gid now r0 tape g1)
      by (by eapply withGame_lookup).
    rewrite activeCount_withGame.
    destruct (Z.ltb_spec (activeCount d gid) 3);
      [right; eexists; split; [reflexivity|done]|].
    destruct (bool_decide (length (selectedCategories g1) = _));
      [right; eexists; split; [reflexivity|done]|].
    destruct (bool_decide (length (wordPool _ g1) = _));
      [right; eexists; split; [reflexivity|done]|].
    destruct (nthZ _ _) as [w|];
      [|right; eexists; split; [reflexivity|done]].
    destruct (assignImposters _ _ _ _) as [chosen|];
      [|right; eexists; split; [reflexivity|done]].
    left. eexists. rewrite withGame_withGame. split; [reflexivity|].
    by repeat split.
Qed.

Lemma handleStartGame_witness :
  GameLobby.handleStartGame (Some 0%nat) [] 1000 sample.wordDraw sample.tape
    sample.lobby3
  = (Alerted "Error" "Selecteer minimaal één categorie", sample.lobby3)
  /\ exists fb g,
       games sample.lobby2 !! 0%nat = Some g
       /\ GameLobby.handleStartGame (Some 0%nat) ["Dieren"] 1000 sample.wordDraw
            sample.tape sample.lobby2
          = (fb, withGame sample.lobby2 0%nat
                   (patchGame g [SetSelectedCategories ["Dieren"]]))
       /\ fb = Alerted "Error" "Need at least 3 players to start".
Proof.
  assert (exists g, games sample.lobby3 !! 0%nat = Some g) as [g3 E3]
    by (eexists; reflexivity).
  assert (exists g, games sample.lobby2 !! 0%nat = Some g) as [g2 E2]
    by (eexists; reflexivity).
  split.
  - by apply (handleStartGame_outcome sample.lobby3 0%nat g3 [] 1000
                sample.wordDraw sample.tape E3).
  - destruct (handleStartGame_outcome sample.lobby2 0%nat g2 ["Dieren"] 1000
                sample.wordDraw sample.tape E2) as [_ H].
    destruct H as [(g' & Hrun & _)|(fb & Hrun & _)]; [done| |].
    + exfalso. apply (f_equal fst) in Hrun. vm_compute in Hrun. discriminate.
    + exists fb, g2. split; [exact E2|]. split; [exact Hrun|].
      apply (f_equal fst) in Hrun. simpl in Hrun. rewrite <- Hrun.
      vm_compute. reflexivity.
Defined.

(** ** The game screen: the card and the next button *)






(** ** The game screen: the clock *)

Lemma Qfloor_div_60 (x : Q) : Qfloor (x / 60) = Qfloor x / 60.
Proof.
  destruct x as [n p]. unfold Qdiv, Qinv, Qmult, Qfloor. simpl.
  rewrite Z.mul_1_r, Pos2Z.inj_mul. symmetry. apply Z.div_div; lia.
Qed.

Lemma Qfloor_sub_Z (x : Q) (k : Z) : Qfloor (x - inject_Z k) = Qfloor x - k.
Proof.
  destruct x as [n p]. unfold Qminus, Qplus, Qopp, inject_Z, Qfloor. simpl.
  rewrite Z.mul_1_r, Pos.mul_1_r.
  replace (n + - k * Z.pos p) with (n + (- k) * Z.pos p) by lia.
  rewrite Z.div_add by lia. lia.
Qed.

Lemma jsRemainder_60 (x : Q) : (0 <= x)%Q ->
  Qfloor (GameHandlers.jsRemainder x 60) = Qfloor x mod 60.
Proof.
  intros Hx. unfold GameHandlers.jsRemainder, GameHandlers.Qtruncate.
  assert (H0 : Qle_bool 0 (x / 60) = true).
  { apply Qle_bool_iff. apply Qle_shift_div_l; [reflexivity|]. by rewrite Qmult_0_l. }
  rewrite H0, Qfloor_div_60.
  rewrite (Qfloor_comp _ (x - inject_Z (60 * (Qfloor x / 60)))).
  - rewrite Qfloor_sub_Z. rewrite Z.mod_eq by lia. lia.
  - rewrite inject_Z_mult. reflexivity.
Qed.

Lemma two_digits :
  Forall (fun s => GameHandlers.padStart 2 "0" (pretty s)
                   = (if s <? 10 then "0" +:+ pretty s else pretty s)
                   /\ String.length (GameHandlers.padStart 2 "0" (pretty s)) = 2%nat)
    (seqZ 0 60).
Proof.
  apply (bool_decide_unpack _). vm_compute. exact I.
Qed.

Lemma pow2_shift (e : Z) (k : positive) :
  (IEEE.pow2 (e + Z.pos k) == inject_Z (Z.pos (2 ^ k)) * IEEE.pow2 e)%Q.
Proof.
  rewrite Z.add_comm, pow2_add, (pow2_Z (Z.pos k)) by lia.
  rewrite Pos2Z.inj_pow. reflexivity.
Qed.

(** A double is a whole multiple of its unit in the last place. *)
Lemma double_multiple (s : Q) :
  ~ (s == 0)%Q -> (IEEE.round64 s == s)%Q ->
  exists m : Z, (s == inject_Z m * IEEE.ulp s)%Q.
Proof.
  intros Hs Hd. exists (IEEE.rne (s / IEEE.ulp s)).
  rewrite <- (round64_value s Hs). by symmetry.
Qed.

(** Dividing a double below 2^53 by 60 does not round up to the next
    integer. *)
Lemma div60_below (s : Q) (k : Z) :
  (IEEE.round64 s == s)%Q -> (0 <= s)%Q -> (s < IEEE.pow2 53)%Q ->
  (s < 60 * inject_Z k)%Q ->
  (IEEE.round64 (s / 60) < inject_Z k)%Q.
Proof.
  intros Hd H0 H53 Hk.
  assert (Hx : (s / 60 * 60 == s)%Q) by field.
  remember (s / 60)%Q as x eqn:Ex.
  assert (Hk1 : (1 <= inject_Z k)%Q).
  { change 1%Q with (inject_Z 1). rewrite <- Zle_Qle.
    assert (0 < k); [|lia]. rewrite Zlt_Qlt. change (inject_Z 0) with 0%Q. lra. }
  pose proof (round64_relative x) as Hrel. apply Qabs_Qle_condition in Hrel.
  assert (Hx0 : (0 <= x)%Q) by lra.
  rewrite (Qabs_pos x) in Hrel by done.
  assert (Hp : (IEEE.pow2 (-1075) <= 1 # 9007199254740992)%Q).
  { change (1 # 9007199254740992)%Q with (1 # 2 ^ 53)%Q.
    rewrite <- (pow2_neg_val 53). apply pow2_le. lia. }
  destruct (Qlt_le_dec s 1) as [Hsmall|Hbig].
  { lra. }
  assert (Hs : ~ (s == 0)%Q) by lra.
  assert (Hsabs : (Qabs s == s)%Q) by (by apply Qabs_pos).
  destruct (ilog2_spec s) as [Hlo Hhi]; [lra|].
  set (a := IEEE.ilog2 s) in *.
  assert (Ha0 : 0 <= a).
  { assert (0 < a + 1); [|lia]. apply pow2_lt_inv.
    change (IEEE.pow2 0) with 1%Q. lra. }
  assert (Ha52 : a < 53) by (apply pow2_lt_inv; lra).
  assert (Hulp : IEEE.ulp s = IEEE.pow2 (a - 52)).
  { unfold IEEE.ulp. rewrite (ilog2_compat (Qabs s) s) by (rewrite ?Hsabs; lra).
    fold a. f_equal. lia. }
  destruct (double_multiple s Hs Hd) as [m Hm]. rewrite Hulp in Hm.
  set (p := IEEE.pow2 (a - 58)) in *.
  assert (Hp0 : (0 < p)%Q) by apply pow2_pos.
  assert (E52 : (IEEE.pow2 (a - 52) == 64 * p)%Q).
  { replace (a - 52) with (a - 58 + 6) by lia. apply (pow2_shift (a - 58) 6). }
  assert (E1 : (IEEE.pow2 (a + 1) == 576460752303423488 * p)%Q).
  { replace (a + 1) with (a - 58 + 59) by lia. apply (pow2_shift (a - 58) 59). }
  assert (E4 : (IEEE.pow2 (a - 4) == 18014398509481984 * p)%Q).
  { replace (a - 4) with (a - 58 + 54) by lia. apply (pow2_shift (a - 58) 54). }
  (* the gap to 60 k is at least one unit in the last place of s *)
  assert (Hgap : (IEEE.pow2 (a - 52) <= 60 * inject_Z k - s)%Q).
  { assert (E : (60 * inject_Z k - s
                 == inject_Z (60 * k * 2 ^ (52 - a) - m) * IEEE.pow2 (a - 52))%Q).
    { rewrite Hm at 1.
      replace (60 * k * 2 ^ (52 - a) - m) with (60 * k * 2 ^ (52 - a) + - m) by lia.
      rewrite inject_Z_plus, inject_Z_opp.
      rewrite !inject_Z_mult, <- (pow2_Z (52 - a)) by lia.
      change (inject_Z 60) with 60%Q.
      assert (E' : (IEEE.pow2 (52 - a) * IEEE.pow2 (a - 52) == 1)%Q).
      { rewrite <- pow2_add. replace (52 - a + (a - 52)) with 0 by lia. reflexivity. }
      transitivity (60 * inject_Z k * (IEEE.pow2 (52 - a) * IEEE.pow2 (a - 52))
                    - inject_Z m * IEEE.pow2 (a - 52))%Q; [rewrite E'|]; ring. }
    assert (Hpos : (0 < inject_Z (60 * k * 2 ^ (52 - a) - m))%Q).
    { pose proof (pow2_pos (a - 52)) as Hq.
      destruct (Qlt_le_dec 0 (inject_Z (60 * k * 2 ^ (52 - a) - m))) as [|Hle];
        [done|]. exfalso.
      assert ((60 * inject_Z k - s) <= 0)%Q; [|lra].
      rewrite E. rewrite <- (Qmult_0_l (IEEE.pow2 (a - 52))).
      apply Qmult_le_compat_r; lra. }
    change 0%Q with (inject_Z 0) in Hpos. rewrite <- Zlt_Qlt in Hpos.
    assert (H1 : (1 <= inject_Z (60 * k * 2 ^ (52 - a) - m))%Q).
    { change 1%Q with (inject_Z 1). rewrite <- Zle_Qle. lia. }
    rewrite E. pose proof (pow2_pos (a - 52)) as Hq.
    rewrite <- (Qmult_1_l (IEEE.pow2 (a - 52))) at 1.
    apply Qmult_le_compat_r; lra. }
  assert (Hxne : ~ (x == 0)%Q) by lra.
  assert (Hxb : (Qabs x < IEEE.pow2 (a - 4))%Q) by (rewrite (Qabs_pos x) by done; lra).
  destruct (ulp_of_bounded x (a - 4) Hxne Hxb) as (ue & Hu & Hue & _); [lia|].
  pose proof (round64_error x) as He. rewrite Hu in He.
  apply Qabs_Qle_condition in He.
  assert (Hpu : (IEEE.pow2 ue <= 2 * p)%Q).
  { apply Qle_trans with (IEEE.pow2 (a - 57)); [apply pow2_le; lia|].
    replace (a - 57) with (a - 58 + 1) by lia. rewrite pow2_succ. fold p. lra. }
  lra.
Qed.

Lemma Qfloor_unique (q : Q) (n : Z) :
  (inject_Z n <= q < inject_Z (n + 1))%Q -> Qfloor q = n.
Proof.
  intros [Hlo Hhi].
  pose proof (Qfloor_le q) as H1. pose proof (Qlt_floor q) as H2.
  assert (n < Qfloor q + 1) by (rewrite Zlt_Qlt; lra).
  assert (Qfloor q < n + 1) by (rewrite Zlt_Qlt; lra).
  lia.
Qed.

Lemma toString_small (n : Z) : 0 <= n < 2 ^ 53 -> GameHandlers.toString n = pretty n.
Proof.
  intros Hn. unfold GameHandlers.toString.
  rewrite Z.abs_eq by lia.
  destruct (Z.ltb_spec n (2 ^ 53)); [|lia].
  destruct (Z.ltb_spec n 0); [lia|].
  destruct (Z.ltb_spec n (10 ^ 21)); [reflexivity|lia].
Qed.

(** The minutes of the clock are the whole minutes of the time shown. *)
Lemma formatTime_mins (seconds : Q) :
  (IEEE.round64 seconds == seconds)%Q ->
  (0 <= seconds)%Q -> (seconds < inject_Z (2 ^ 53))%Q ->
  Qfloor (IEEE.div seconds 60) = Qfloor seconds / 60.
Proof.
  intros Hd H0 H53. rewrite <- Qfloor_div_60. unfold IEEE.div.
  pose proof (Qfloor_le (seconds / 60)) as Hlo.
  pose proof (Qlt_floor (seconds / 60)) as Hhi.
  assert (Hx : (seconds / 60 * 60 == seconds)%Q) by field.
  remember (seconds / 60)%Q as x eqn:Ex.
  assert (Hb : (Qabs x < IEEE.pow2 53)%Q).
  { rewrite Qabs_pos by lra. rewrite pow2_53. lra. }
  apply Qfloor_unique. split.
  - by apply round64_ge_Z.
  - rewrite Ex. apply div60_below; [done|done|by rewrite pow2_53|].
    rewrite <- Ex. lra.
Qed.

(** X22. The clock shows a time that is a double of zero or more seconds,
    below 2^53, as the whole minutes, a colon, and the seconds left over
    written with two digits: the minutes are the whole seconds divided by
    60 and the seconds their remainder. The rounding of the quotient by 60
    does not reach the next minute. *)
Theorem formatTime_minutes_seconds (seconds : Q) :
  (IEEE.round64 seconds == seconds)%Q ->
  (0 <= seconds)%Q -> (seconds < inject_Z (2 ^ 53))%Q ->
  exists ss,
    GameHandlers.formatTime seconds = pretty (Qfloor seconds / 60) +:+ ":" +:+ ss
    /\ String.length ss = 2%nat
    /\ ss = (if Qfloor seconds mod 60 <? 10
             then "0" +:+ pretty (Qfloor seconds mod 60)
             else pretty (Qfloor seconds mod 60)).
Proof.
  intros Hd Hs H53. unfold GameHandlers.formatTime.
  rewrite formatTime_mins, jsRemainder_60 by done.
  pose proof (Z.mod_pos_bound (Qfloor seconds) 60 ltac:(lia)) as Hr.
  assert (Hfl : 0 <= Qfloor seconds < 2 ^ 53).
  { split.
    - change 0 with (Qfloor (inject_Z 0)). by apply Qfloor_resp_le.
    - rewrite Zlt_Qlt. eapply Qle_lt_trans; [apply Qfloor_le | done]. }
  rewrite !toString_small.
  - pose proof two_digits as Hall. rewrite Forall_forall in Hall.
    destruct (Hall (Qfloor seconds mod 60)) as [Hpad Hlen].
    { apply elem_of_seqZ. lia. }
    eexists. split; [reflexivity|]. by split.
  - lia.
  - split; [apply Z.div_pos; lia|].
    apply Z.le_lt_trans with (Qfloor seconds); [|lia].
    apply Z.div_le_upper_bound; lia.
Qed.

Lemma formatTime_witness :
  GameHandlers.formatTime (359 # 2) = "2:59"
  /\ exists ss,
       GameHandlers.formatTime 65 = pretty (Qfloor 65 / 60) +:+ ":" +:+ ss
       /\ String.length ss = 2%nat.
Proof.
  split; [vm_compute; reflexivity|].
  destruct (formatTime_minutes_seconds 65) as (ss & H1 & H2 & _).
  - vm_compute. reflexivity.
  - vm_compute. discriminate.
  - vm_compute. reflexivity.
  - by exists ss.
Defined.

(** Beyond these bounds the clock is another: from 2^53 seconds on the
    rounded quotient can reach the next minute, and from 10^21 minutes on
    the minutes are printed in exponent notation. *)
Lemma formatTime_of_large_numbers :
  GameHandlers.formatTime (inject_Z (60 * 2 ^ 52 + 32)) = "4503599627370497:32"
  /\ Qfloor (inject_Z (60 * 2 ^ 52 + 32)) / 60 = 4503599627370496
  /\ GameHandlers.formatTime (inject_Z (6 * 10 ^ 22)) = "1e+21:00"
  /\ GameHandlers.toString (2 ^ 63) = "9223372036854776000".
Proof. repeat split; vm_compute; reflexivity. Qed.




Lemma remaining_sign (dur anchor now : Z) :
  (anchor + 1000 * dur <= now -> (GameScreen.remaining dur anchor now == 0)%Q)
  /\ (now < anchor + 1000 * dur -> (0 < GameScreen.remaining dur anchor now)%Q).
Proof.
  unfold GameScreen.remaining, GameScreen.elapsed.
  assert (Hy : (inject_Z dur - inject_Z (now - anchor) / inject_Z 1000
                == inject_Z (anchor + 1000 * dur - now) / inject_Z 1000)%Q).
  { unfold Z.sub. rewrite !inject_Z_plus, inject_Z_mult, !inject_Z_opp. field. }
  split; intros H.
  - apply Q.max_l. rewrite Hy. unfold Qdiv.
    rewrite <- (Qmult_0_l (/ inject_Z 1000)).
    apply Qmult_le_compat_r; [|done]. change 0%Q with (inject_Z 0). rewrite <- Zle_Qle. lia.
  - eapply Qlt_le_trans; [|apply Q.le_max_r]. rewrite Hy.
    apply Qlt_shift_div_l; [done|]. rewrite Qmult_0_l.
    change 0%Q with (inject_Z 0). rewrite <- Zlt_Qlt. lia.
Qed.

(** The exact countdown and the rounded one reach zero at the same time
    stamps, so the tick calls [nextPlayer] at the same moment whichever
    of the two it tests. *)
Lemma countdowns_end_together (dur anchor now : Z) :
  0 < anchor < 2 ^ 53 -> 0 <= now < 2 ^ 53 -> 0 < dur < 2 ^ 42 ->
  Qeq_bool (Timer.remaining dur anchor now) 0
  = Qeq_bool (GameScreen.remaining dur anchor now) 0.
Proof.
  intros Ha Hn Hd.
  assert (Hz : (Timer.remaining dur anchor now == 0)%Q
               <-> anchor + 1000 * dur <= now).
  { apply remaining_zero_iff; unfold safeInteger; lia. }
  destruct (remaining_sign dur anchor now) as [Hge Hlt].
  destruct (Z.le_gt_cases (anchor + 1000 * dur) now) as [Hc|Hc].
  - rewrite (proj2 (Qeq_bool_iff _ _) (proj2 Hz Hc)).
    by rewrite (proj2 (Qeq_bool_iff _ _) (Hge Hc)).
  - destruct (Qeq_bool (Timer.remaining dur anchor now) 0) eqn:E1.
    { apply Qeq_bool_iff, Hz in E1. lia. }
    destruct (Qeq_bool (GameScreen.remaining dur anchor now) 0) eqn:E2; [|done].
    apply Qeq_bool_iff in E2. specialize (Hlt Hc). lra.
Qed.

Lemma tick_exact_or_rounded (gid : Id) (g : Game) (now : Z) :
  (forall anchor, timerStartTime g = Some anchor -> 0 <= anchor < 2 ^ 53) ->
  0 <= now < 2 ^ 53 ->
  0 < timerDuration (settings g) < 2 ^ 42 ->
  Timer.tick gid (Some g) now = GameScreen.tick gid (Some g) now.
Proof.
  intros Ha Hn Hd. unfold Timer.tick, GameScreen.tick.
  unfold Timer.timeRemaining, GameScreen.timeRemaining.
  destruct (negb _); [done|].
  destruct (timerStartTime g) as [anchor|] eqn:E; [|done].
  destruct (Z.eqb_spec anchor 0) as [|Hne]; [done|].
  specialize (Ha anchor eq_refl).
  by rewrite countdowns_end_together by lia.
Qed.



(** ** The results screen: casting and counting *)

Lemma roster_keys_size (gid : Id) (table : list Player) :
  size (list_to_set (idKey <$> (activePlayersOf gid table).*1) : gset string)
  = length (activePlayersOf gid table).
Proof.
  rewrite size_list_to_set.
  - by rewrite !length_fmap.
  - apply (NoDup_fmap_2 _). apply activePlayersOf_ids_NoDup.
Qed.

Lemma presses_on_roster (roster : list (Doc Player)) (ps : list (nat * nat)) :
  forall k v,
    VotingScreen.presses roster ps !! k = Some v ->
    k ∈ idKey <$> roster.*1 /\ 0 <= v < Z.of_nat (length roster).
Proof.
  unfold VotingScreen.presses.
  induction ps as [|[vr ci] ps IH] using rev_ind; intros k v; [done|].
  rewrite foldl_app. simpl. unfold VotingScreen.press at 1.
  destruct (roster !! vr) as [voter|] eqn:Hv; [|apply IH].
  destruct (roster !! ci) as [cand|] eqn:Hc; [|apply IH].
  unfold VotingScreen.handleVote. rewrite lookup_insert.
  case_decide as Hk; [|apply IH].
  intros [= <-]. subst k. split.
  - apply list_elem_of_fmap_2, list_elem_of_fmap_2. by eapply list_elem_of_lookup_2.
  - apply lookup_lt_Some in Hc. lia.
Qed.

(** X24. Votes cast on the voting screen, by any presses on the buttons it
    draws for the roster of a game: every vote stored is the vote of a
    player of the roster for a roster index; the submit button is enabled
    exactly when every player of the roster has a vote, which is when
    [handleSubmitVotes] submits; and then the voters are exactly the
    players of the roster. *)
Theorem votes_cast_on_the_screen
    (gid : Id) (table : list Player) (ps : list (nat * nat)) :
  let roster := activePlayersOf gid table in
  let ballot := VotingScreen.presses roster ps in
  (forall k v, ballot !! k = Some v ->
     k ∈ idKey <$> roster.*1 /\ 0 <= v < Z.of_nat (length roster))
  /\ (VotingScreen.submitDisabled ballot roster = false
      <-> forall p, p ∈ roster -> is_Some (ballot !! idKey (fst p)))
  /\ (VotingScreen.submitDisabled ballot roster = false ->
      dom ballot = list_to_set (idKey <$> roster.*1)).
Proof.
  intros roster ballot.
  pose proof (presses_on_roster roster ps) as Hon. fold ballot in Hon.
  assert (Hsub : dom ballot ⊆ (list_to_set (idKey <$> roster.*1) : gset string)).
  { intros k [v Hk]%elem_of_dom. apply elem_of_list_to_set. by apply (Hon k v). }
  assert (Hsize : size (list_to_set (idKey <$> roster.*1) : gset string)
                  = length roster) by apply roster_keys_size.
  assert (Hfull : VotingScreen.submitDisabled ballot roster = false ->
                  dom ballot = list_to_set (idKey <$> roster.*1)).
  { unfold VotingScreen.submitDisabled. intros Hen%Nat.ltb_ge.
    apply set_subseteq_size_eq; [done|].
    rewrite size_dom, Hsize. exact Hen. }
  split; [exact Hon|]. split; [|exact Hfull]. split.
  - intros Hen p Hp. apply elem_of_dom. rewrite (Hfull Hen).
    apply elem_of_list_to_set. by apply list_elem_of_fmap_2, list_elem_of_fmap_2.
  - intros Hall. unfold VotingScreen.submitDisabled. apply Nat.ltb_ge.
    rewrite <- Hsize, <- size_dom.
    apply subseteq_size. intros k Hk%elem_of_list_to_set.
    apply list_elem_of_fmap in Hk as (id & -> & Hid).
    apply list_elem_of_fmap in Hid as (p & -> & Hp).
    apply elem_of_dom. by apply Hall.
Qed.

Lemma totalVotes_perm (l k : list ResultsScreen.VoteResult) :
  l ≡ₚ k -> VotingScreen.totalVotes l = VotingScreen.totalVotes k.
Proof.
  unfold VotingScreen.totalVotes.
  induction 1 as [|x l k _ IH|x y l|l1 l2 l3 _ IH1 _ IH2]; simpl; lia.
Qed.

Lemma totalVotes_by_position (g : Game) (ballot : gmap string Z)
    (l : list (Doc Player)) : forall k : nat,
  VotingScreen.totalVotes (imap (fun i => tallyEntry g ballot (k + i)) l)
  = foldr (fun i acc => votesFor ballot (Z.of_nat i) + acc) 0 (seq k (length l)).
Proof.
  induction l as [|x l IH]; intros k; [done|].
  rewrite (imap_offset (tallyEntry g ballot)).
  change (seq k (length (x :: l))) with (k :: seq (S k) (length l)).
  change (votesFor ballot (Z.of_nat k)
          + VotingScreen.totalVotes (imap (fun i => tallyEntry g ballot (S k + i)) l)
          = votesFor ballot (Z.of_nat k)
            + foldr (fun i acc => votesFor ballot (Z.of_nat i) + acc) 0
                (seq (S k) (length l))).
  by rewrite IH.
Qed.

Lemma filter_none_length {A} (P : A -> Prop) `{forall x, Decision (P x)} (l : list A) :
  (forall x, ~ P x) -> length (filter P l) = 0%nat.
Proof.
  intros Hno. induction l as [|x l IH]; [done|].
  by rewrite filter_cons_False.
Qed.

Lemma window_step (vals : list Z) (k n : nat) :
  Z.of_nat (length (filter (fun v => v = Z.of_nat k) vals))
  + Z.of_nat (length (filter (fun v => Z.of_nat (S k) <= v < Z.of_nat (S k + n)) vals))
  = Z.of_nat (length (filter (fun v => Z.of_nat k <= v < Z.of_nat (k + S n)) vals)).
Proof.
  induction vals as [|v vals IHv]; [done|].
  rewrite !filter_cons.
  destruct (decide (v = Z.of_nat k));
    destruct (decide (Z.of_nat (S k) <= v < Z.of_nat (S k + n)));
    destruct (decide (Z.of_nat k <= v < Z.of_nat (k + S n)));
    cbn [length]; lia.
Qed.

Lemma count_in_window (vals : list Z) (n : nat) : forall k : nat,
  foldr (fun i acc => Z.of_nat (length (filter (fun v => v = Z.of_nat i) vals)) + acc)
    0 (seq k n)
  = Z.of_nat (length (filter (fun v => Z.of_nat k <= v < Z.of_nat (k + n)) vals)).
Proof.
  induction n as [|n IH]; intros k.
  - simpl. rewrite filter_none_length; [done|]. intros v. lia.
  - change (seq k (S n)) with (k :: seq (S k) n).
    cbn [foldr]. rewrite IH. apply window_step.
Qed.

(** X25. The vote counts of the tally add up to the number of votes that
    name a roster index: no vote for a player on the roster is lost or
    counted twice, and a vote for any other number counts for nobody. When
    every vote names a roster index the counts add up to the number of
    voters. *)
Theorem tally_counts_every_vote
    (roster : list (Doc Player)) (g : Game) (ballot : gmap string Z) :
  schema.votes g = Some ballot ->
  VotingScreen.totalVotes (ResultsScreen.getVoteResults (Some roster) (Some g))
  = Z.of_nat
      (length (filter (fun v => 0 <= v < Z.of_nat (length roster))
                 (map_to_list ballot).*2))
  /\ ((forall k v, ballot !! k = Some v -> 0 <= v < Z.of_nat (length roster)) ->
      VotingScreen.totalVotes (ResultsScreen.getVoteResults (Some roster) (Some g))
      = Z.of_nat (size ballot))
  /\ length (ResultsScreen.getVoteResults (Some roster) (Some g)) = length roster.
Proof.
  intros Hv.
  rewrite (getVoteResults_ranked roster g ballot Hv).
  assert (Hshape : (rosterTally g ballot roster).*2
                   = imap (fun i => tallyEntry g ballot (0 + i)) roster).
  { unfold rosterTally. rewrite fmap_imap. by apply imap_ext. }
  assert (Htotal :
    VotingScreen.totalVotes (sortBy byVotes (rosterTally g ballot roster)).*2
    = Z.of_nat (length (filter (fun v => 0 <= v < Z.of_nat (length roster))
                          (map_to_list ballot).*2))).
  { rewrite (totalVotes_perm _ (rosterTally g ballot roster).*2)
      by (by rewrite sortBy_perm).
    rewrite Hshape, totalVotes_by_position. unfold votesFor.
    by rewrite (count_in_window _ (length roster) 0). }
  split; [exact Htotal|]. split.
  - intros Hrange. rewrite Htotal. f_equal.
    rewrite (proj2 (filter_all_length _ _)).
    + by rewrite length_fmap, length_map_to_list.
    + apply Forall_forall. intros v Hin.
      apply list_elem_of_fmap in Hin as ([k v'] & -> & Hin).
      apply elem_of_map_to_list in Hin. by apply (Hrange k).
  - rewrite length_fmap, (Permutation_length (sortBy_perm byVotes _)).
    unfold rosterTally. apply length_imap.
Qed.

Lemma tally_counts_witness :
  exists g roster,
    games sample.results4 !! 0%nat = Some g
    /\ getPlayers 0%nat sample.results4 = (Returned roster, sample.results4)
    /\ VotingScreen.totalVotes (ResultsScreen.getVoteResults (Some roster) (Some g))
       = 4.
Proof.
  assert (exists g, games sample.results4 !! 0%nat = Some g) as [g E]
    by (eexists; reflexivity).
  assert (Hv : schema.votes g = Some sample.ballot4)
    by (injection E as <-; reflexivity).
  exists g, (activePlayersOf 0%nat (players sample.results4)).
  split; [exact E|]. split; [reflexivity|].
  destruct (tally_counts_every_vote
              (activePlayersOf 0%nat (players sample.results4)) g
              sample.ballot4 Hv) as [-> _].
  vm_compute. reflexivity.
Defined.

Lemma handleCategoryToggle_witness :
  GameLobby.handleCategoryToggle ["Dieren"; "Eten"] "Dieren" = ["Eten"]
  /\ NoDup (GameLobby.handleCategoryToggle ["Dieren"; "Eten"] "Sport").
Proof.
  split; [reflexivity|].
  apply (handleCategoryToggle_flips ["Dieren"; "Eten"] "Sport").
  apply NoDup_cons. split; [|apply NoDup_singleton].
  intros H%list_elem_of_singleton. discriminate.
Defined.

(** ** The status of a game *)

Lemma withGame_cases (d : Db) (gid j : Id) (g g1 g' : Game) :
  games d !! gid = Some g ->
  games (withGame d gid g1) !! j = Some g' ->
  (j = gid /\ g' = g1) \/ games d !! j = Some g'.
Proof.
  intros Hg Hj. destruct (decide (j = gid)) as [->|Hne].
  - left. split; [done|]. rewrite (withGame_lookup d gid g1 g Hg) in Hj.
    by injection Hj.
  - right. by rewrite withGame_lookup_ne in Hj.
Qed.

Lemma call_status (c : Call) (d : Db) (j : Id) (g' : Game) :
  games (snd (call c d)) !! j = Some g' ->
  (exists g, games d !! j = Some g /\ status g' = status g)
  \/ statusWritten c = Some (status g').
Proof.
  assert (Hsame : games d !! j = Some g' ->
                  (exists g, games d !! j = Some g /\ status g' = status g)
                  \/ statusWritten c = Some (status g')) by (left; eauto).
  assert (Hpatch : forall gid g fields,
            games d !! gid = Some g ->
            games (withGame d gid (patchGame g fields)) !! j = Some g' ->
            status (patchGame g fields) = status g
            \/ statusWritten c = Some (status (patchGame g fields)) ->
            (exists g, games d !! j = Some g /\ status g' = status g)
            \/ statusWritten c = Some (status g')).
  { intros gid g fields Hg Hj Hst.
    destruct (withGame_cases d gid j g _ g' Hg Hj) as [[-> ->]|Hd]; [|by apply Hsame].
    destruct Hst as [Hst|Hst]; [left; eauto | by right]. }
  destruct c as [code st|gid st|gid cs|gid now r0 tape|gid now|gid v|gid|gid
                 |gid n col|pid n col|pid].
  - simpl. intros Hj. apply lookup_app_Some in Hj as [Hj|[_ Hj]]; [by apply Hsame|].
    right. apply list_lookup_singleton_Some in Hj as [_ <-]. reflexivity.
  - destruct (games d !! gid) as [g|] eqn:Hg; simpl; unfold updateGameSettings.
    + erewrite patchGame_found by done. intros Hj.
      eapply Hpatch; [exact Hg|exact Hj|]. by left.
    + by rewrite patchGame_missing.
  - destruct (games d !! gid) as [g|] eqn:Hg; simpl; unfold updateSelectedCategories.
    + erewrite patchGame_found by done. intros Hj.
      eapply Hpatch; [exact Hg|exact Hj|]. by left.
    + by rewrite patchGame_missing.
  - destruct (games d !! gid) as [g|] eqn:Hg; simpl;
      [|by rewrite startGame_missing].
    rewrite (startGame_found _ _ _ _ _ g Hg).
    destruct (_ <? 3); [done|].
    destruct (bool_decide (length (selectedCategories g) = _)); [done|].
    destruct (bool_decide (length (wordPool d g) = _)); [done|].
    destruct (nthZ _ _) as [randomWord|]; [|done].
    destruct (assignImposters _ _ _ _) as [chosen|]; [|done].
    intros Hj. eapply Hpatch; [exact Hg|exact Hj|]. by right.
  - destruct (games d !! gid) as [g|] eqn:Hg; simpl;
      [|by rewrite nextPlayer_missing].
    rewrite (nextPlayer_found _ _ _ g Hg). unfold turnAdvanced.
    destruct (_ <=? _); intros Hj;
      (eapply Hpatch; [exact Hg|exact Hj|]); [by right | by left].
  - simpl. unfold submitVotes. destruct (v_record v); [|done].
    destruct (games d !! gid) as [g|] eqn:Hg.
    + erewrite patchGame_found by done. intros Hj.
      eapply Hpatch; [exact Hg|exact Hj|]. by right.
    + by rewrite patchGame_missing.
  - destruct (games d !! gid) as [g|] eqn:Hg; simpl; unfold endGame.
    + erewrite patchGame_found by done. intros Hj.
      eapply Hpatch; [exact Hg|exact Hj|]. by right.
    + by rewrite patchGame_missing.
  - destruct (games d !! gid) as [g|] eqn:Hg; simpl; unfold resetToLobby.
    + erewrite patchGame_found by done. intros Hj.
      eapply Hpatch; [exact Hg|exact Hj|]. by right.
    + by rewrite patchGame_missing.
  - exact Hsame.
  - destruct (players d !! pid) as [p|] eqn:Hp; simpl; unfold updatePlayer.
    + by erewrite patchPlayer_found.
    + by rewrite patchPlayer_missing.
  - destruct (players d !! pid) as [p|] eqn:Hp; simpl.
    + destruct (removePlayer_run d pid p Hp) as (table & -> & _). exact Hsame.
    + by rewrite removePlayer_missing.
Qed.

(** X26. A game is in a status after a list of calls only if it was in
    that status before, or one of the calls writes it: [createGame] and
    [resetToLobby] write lobby, [startGame] playing, [nextPlayer]
    discussion, [submitVotes] results, [endGame] ended, and no other call
    writes a status. *)
Theorem status_comes_from_its_call (cs : list Call) (d : Db) (j : Id) (g' : Game) :
  games (perform cs d) !! j = Some g' ->
  (exists g, games d !! j = Some g /\ status g' = status g)
  \/ (exists c, c ∈ cs /\ statusWritten c = Some (status g')).
Proof.
  revert g'. induction cs as [|c cs IH] using rev_ind; intros g' Hj.
  - left. eauto.
  - unfold perform in Hj. rewrite foldl_app in Hj. simpl in Hj.
    fold (perform cs d) in Hj.
    destruct (call_status c (perform cs d) j g' Hj) as [(g1 & Hg1 & Hst)|Hw].
    + destruct (IH g1 Hg1) as [(g & Hg & Hst')|(c0 & Hin & Hw)].
      * left. exists g. split; [done|]. congruence.
      * right. exists c0. split; [apply elem_of_app; by left|]. congruence.
    + right. exists c. split; [|done]. apply elem_of_app. right.
      by apply list_elem_of_singleton.
Qed.

Lemma status_witness :
  exists c,
    c ∈ [StartGame 0%nat 1000 sample.wordDraw sample.tape;
         NextPlayer 0%nat 2000; NextPlayer 0%nat 3000; NextPlayer 0%nat 4000;
         SubmitVotes 0%nat sample.ballot3]
    /\ statusWritten c = Some Results.
Proof.
  assert (exists g',
            games (perform [StartGame 0%nat 1000 sample.wordDraw sample.tape;
                            NextPlayer 0%nat 2000; NextPlayer 0%nat 3000;
                            NextPlayer 0%nat 4000;
                            SubmitVotes 0%nat sample.ballot3] sample.lobby3)
              !! 0%nat = Some g'
            /\ status g' = Results) as (g' & Hg' & Hst)
    by (eexists; split; vm_compute; reflexivity).
  destruct (status_comes_from_its_call _ _ _ _ Hg') as [(g & Hg & Heq)|(c & Hin & Hw)].
  - injection Hg as <-. rewrite Hst in Heq. discriminate.
  - exists c. split; [exact Hin|]. by rewrite Hw, Hst.
Defined.

Lemma snd_feedback {A} (m : Outcome A * Db) (f1 : A -> Feedback) (f2 : string -> Feedback)
    (f3 : Feedback) :
  snd (match m with
       | (Returned a, d') => (f1 a, d')
       | (Thrown msg, d') => (f2 msg, d')
       | (Spinning, d') => (f3, d')
       end) = snd m.
Proof. by destruct m as [[] ?]. Qed.

Lemma tap_calls (t : Tap) (d : Db) :
  exists cs, tap t d = perform cs d
             /\ Forall (fun c => statusWritten c ≠ Some Ended) cs.
Proof.
  destruct t as [gid ps|sel nm|sel ps|gid cats now r0 tape|gid now s|gid
                 |gid ps votes|gid]; simpl.
  - destruct gid as [gid|], ps as [ps|]; try (by exists []).
    unfold GameLobby.handleAddPlayer.
    destruct (_ !! _) as [col|]; [|by exists []].
    exists [AddPlayer gid ("Speler " +:+ pretty (length ps + 1)%nat) col].
    split; [|by repeat constructor].
    rewrite snd_feedback. reflexivity.
  - destruct sel as [sel|]; [|by exists []].
    exists [UpdatePlayer (fst sel) (Some nm) None]. split; [|by repeat constructor].
    unfold GameLobby.handleUpdatePlayer. by rewrite snd_feedback.
  - destruct sel as [sel|], ps as [ps|]; try (by exists []).
    unfold GameLobby.handleRemovePlayer. destruct (_ <=? _)%nat; [by exists []|].
    exists [RemovePlayer (fst sel)]. split; [|by repeat constructor].
    by rewrite snd_feedback.
  - destruct gid as [gid|]; [|by exists []].
    unfold GameLobby.handleStartGame. case_bool_decide; [by exists []|].
    destruct (updateSelectedCategories gid cats d) as [[[]| |] d1] eqn:Hu.
    + exists [UpdateSelectedCategories gid cats; StartGame gid now r0 tape].
      split; [|by repeat constructor].
      rewrite snd_feedback. simpl. by rewrite Hu.
    + exists [UpdateSelectedCategories gid cats]. split; [|by repeat constructor].
      simpl. by rewrite Hu.
    + exists [UpdateSelectedCategories gid cats]. split; [|by repeat constructor].
      simpl. by rewrite Hu.
  - unfold GameHandlers.handleNextPlayer.
    destruct (negb _); [by exists []|]. destruct (GameHandlers.cardIsCurrentlyFlipped s); [by exists []|].
    exists [NextPlayer gid now]. split; [|by repeat constructor].
    simpl. by destruct (nextPlayer gid now d) as [[] ?].
  - exists [ResetToLobby gid]. split; [|by repeat constructor].
    unfold GameHandlers.confirmEndGame. by rewrite snd_feedback.
  - unfold ResultsScreen.handleSubmitVotes. destruct ps as [ps|]; [|by exists []].
    destruct (negb _); [by exists []|].
    exists [SubmitVotes gid votes]. split; [|by repeat constructor].
    simpl. by destruct (submitVotes gid votes d) as [[] ?].
  - exists [ResetToLobby gid]. split; [|by repeat constructor].
    unfold VotingScreen.handleNewGame. by rewrite snd_feedback.
Qed.

Lemma taps_not_ended (ts : list Tap) (d : Db) (j : Id) (g' : Game) :
  games (taps ts d) !! j = Some g' ->
  status g' = Ended ->
  exists g, games d !! j = Some g /\ status g = Ended.
Proof.
  revert g'. induction ts as [|t ts IH] using rev_ind; intros g' Hj Hend.
  - eauto.
  - unfold taps in Hj. rewrite foldl_app in Hj. simpl in Hj. fold (taps ts d) in Hj.
    destruct (tap_calls t (taps ts d)) as (cs & Heq & Hcs). rewrite Heq in Hj.
    assert (Hstep : forall cs d0 g1, Forall (fun c => statusWritten c ≠ Some Ended) cs ->
              games (perform cs d0) !! j = Some g1 -> status g1 = Ended ->
              exists g, games d0 !! j = Some g /\ status g = Ended).
    { clear. intros cs. induction cs as [|c cs IH] using rev_ind;
        intros d0 g1 Hcs Hj Hend; [eauto|].
      apply Forall_app in Hcs as [Hcs Hc]. rewrite Forall_singleton in Hc.
      unfold perform in Hj. rewrite foldl_app in Hj. simpl in Hj.
      fold (perform cs d0) in Hj.
      destruct (call_status c _ j g1 Hj) as [(g & Hg & Hst)|Hw].
      - apply (IH d0 g Hcs Hg). congruence.
      - rewrite Hend in Hw. by destruct Hc. }
    destruct (Hstep cs _ g' Hcs Hj Hend) as (g1 & Hg1 & Hend1).
    by apply (IH g1).
Qed.

(** X27. No button of the three screens ends a game: whatever the players
    press, in the lobby, on the game screen and on the results screen, a
    game that was not ended is not ended afterwards. The two buttons that
    say they end the game call [resetToLobby], not [endGame]. *)
Theorem screens_never_end_a_game (ts : list Tap) (d : Db) (j : Id) :
  (forall g, games d !! j = Some g -> status g ≠ Ended) ->
  forall g', games (taps ts d) !! j = Some g' -> status g' ≠ Ended.
Proof.
  intros Hbefore g' Hj Hend.
  destruct (taps_not_ended ts d j g' Hj Hend) as (g & Hg & Hended).
  by apply (Hbefore g).
Qed.

Lemma screens_witness :
  exists g',
    games (taps [StartGameTap (Some 0%nat) ["Dieren"] 1000 sample.wordDraw sample.tape;
                 NextPlayerTap 0%nat 2000
                   {| GameHandlers.cardWasFlipped := true;
                      GameHandlers.cardIsCurrentlyFlipped := false |};
                 EndGameTap 0%nat] sample.lobby3) !! 0%nat = Some g'
    /\ status g' = Lobby /\ status g' ≠ Ended.
Proof.
  eexists. split; [vm_compute; reflexivity|]. split; [reflexivity|].
  apply (screens_never_end_a_game
           [StartGameTap (Some 0%nat) ["Dieren"] 1000 sample.wordDraw sample.tape;
            NextPlayerTap 0%nat 2000
              {| GameHandlers.cardWasFlipped := true;
                 GameHandlers.cardIsCurrentlyFlipped := false |};
            EndGameTap 0%nat] sample.lobby3 0%nat).
  - intros g Hg. injection Hg as <-. discriminate.
  - vm_compute. reflexivity.
Defined.
